(** * A segregated free-list allocator (mm.c): shallow embedding and verification

    The allocator of [mm.c] manages one contiguous, growable byte range.
    Every block carries a 4-byte header and a 4-byte footer holding
    [size | alloc]; free blocks are threaded on nine singly linked lists
    whose heads live in the first 72 bytes of the heap.

    The embedding follows the C text function by function.  Memory is a
    byte store, words are little-endian, pointers and [size_t] are 64 bits
    wide, [int] and [unsigned int] 32 bits (the nine [char*] bucket heads
    followed by the two sentinel words fill the [10*DSIZE] bytes that
    [mm_init] reserves, which fixes the LP64 layout). *)

From Stdlib Require Import ZArith List Lia Bool.
From Stdlib Require String.
Import ListNotations.
Import String.StringSyntax.
Delimit Scope string_scope with string.
Local Open Scope Z_scope.

(** ** Machine integers *)

Definition u64 (z : Z) : Z := z mod 2 ^ 64.
Definition u32 (z : Z) : Z := z mod 2 ^ 32.
Definition s32 (z : Z) : Z :=
  let w := z mod 2 ^ 32 in if w <? 2 ^ 31 then w else w - 2 ^ 32.

Definition ALIGNMENT : Z := 8.
Definition WSIZE : Z := 4.
Definition DSIZE : Z := 8.
Definition NULL : Z := 0.
(** [(void * )-1], the failure value of [mem_sbrk]. *)
Definition SBRK_FAIL : Z := 2 ^ 64 - 1.

(** ** Byte memory *)

Definition memory := Z -> Z.

Definition upd (m : memory) (a v : Z) : memory :=
  fun x => if x =? a then v else m x.

(** Little-endian read and write of [n] bytes. *)
Fixpoint rd (m : memory) (a : Z) (n : nat) : Z :=
  match n with
  | O => 0
  | S k => m a + 256 * rd m (a + 1) k
  end.

Fixpoint wr (m : memory) (a : Z) (n : nat) (v : Z) : memory :=
  match n with
  | O => m
  | S k => wr (upd m a (v mod 256)) (a + 1) k (v / 256)
  end.

(** [memcpy] and [memset] on byte ranges (the ranges the allocator passes
    to [memcpy] never overlap). *)
Definition copy_bytes (m : memory) (dst src n : Z) : memory :=
  fun x => if (dst <=? x) && (x <? dst + n) then m (src + (x - dst)) else m x.

Definition fill_bytes (m : memory) (dst c n : Z) : memory :=
  fun x => if (dst <=? x) && (x <? dst + n) then c else m x.

(** ** Allocator state

    The memory system of [memlib] ([mem_lo], [mem_brk], [mem_max_addr])
    together with the two globals of [mm.c]. *)

Record state := mkState {
  mem : memory;
  mem_lo : Z;
  mem_brk : Z;
  mem_max_addr : Z;
  heap_listp : Z;
  prevPtr : Z
}.

Definition with_mem (s : state) (m : memory) : state :=
  mkState m (mem_lo s) (mem_brk s) (mem_max_addr s) (heap_listp s) (prevPtr s).
Definition with_brk (s : state) (b : Z) : state :=
  mkState (mem s) (mem_lo s) b (mem_max_addr s) (heap_listp s) (prevPtr s).
Definition with_heap_listp (s : state) (p : Z) : state :=
  mkState (mem s) (mem_lo s) (mem_brk s) (mem_max_addr s) p (prevPtr s).
Definition with_prevPtr (s : state) (p : Z) : state :=
  mkState (mem s) (mem_lo s) (mem_brk s) (mem_max_addr s) (heap_listp s) p.

(** ** The monad of C statements

    A statement either completes with a value and a new state, or touches
    memory outside the heap ([Crash]), or loops for ever ([Hang]). *)

Inductive outcome (A : Type) : Type :=
| Ok (a : A) (s : state)
| Crash
| Hang.
Arguments Ok {A} a s.
Arguments Crash {A}.
Arguments Hang {A}.

Definition M (A : Type) : Type := state -> outcome A.

Definition ret {A} (a : A) : M A := fun s => Ok a s.

Definition bind {A B} (c : M A) (f : A -> M B) : M B :=
  fun s => match c s with
           | Ok a s' => f a s'
           | Crash => Crash
           | Hang => Hang
           end.

Declare Scope monad_scope.
Delimit Scope monad_scope with monad.
Notation "x <- c ;; f" := (bind c (fun x => f))
  (at level 61, c at next level, right associativity) : monad_scope.
Notation "c ;; f" := (bind c (fun _ => f))
  (at level 61, right associativity) : monad_scope.
Local Open Scope monad_scope.

Definition get_heap_listp : M Z := fun s => Ok (heap_listp s) s.
Definition set_heap_listp (p : Z) : M unit := fun s => Ok tt (with_heap_listp s p).
Definition get_prevPtr : M Z := fun s => Ok (prevPtr s) s.
Definition set_prevPtr (p : Z) : M unit := fun s => Ok tt (with_prevPtr s p).

(** An access of [n] bytes at [p] is inside the memory of the heap.
    The memory system holds one region, from the low bound to the
    capacity, and the break only says how much of it has been handed
    out: an access above the break and below the capacity reads or
    writes memory that is there. *)
Definition valid (s : state) (p n : Z) : bool :=
  (mem_lo s <=? p) && (p + n <=? Z.max (mem_brk s) (mem_max_addr s)).

Definition load (n : nat) (p : Z) : M Z :=
  fun s => if valid s p (Z.of_nat n) then Ok (rd (mem s) p n) s else Crash.

Definition store (n : nat) (p v : Z) : M unit :=
  fun s => if valid s p (Z.of_nat n)
           then Ok tt (with_mem s (wr (mem s) p n v)) else Crash.

Definition memcpy (dst src n : Z) : M unit :=
  fun s => if n <=? 0 then Ok tt s
           else if valid s dst n && valid s src n
                then Ok tt (with_mem s (copy_bytes (mem s) dst src n))
                else Crash.

Definition memset (dst c n : Z) : M unit :=
  fun s => if n <=? 0 then Ok tt s
           else if valid s dst n
                then Ok tt (with_mem s (fill_bytes (mem s) dst c n))
                else Crash.

(** Modelled from the spec: the heap-growth primitive [mem_sbrk] of
    [memlib.c], which is not among the sources.  [grow(bytes)] either
    fails, leaving the heap as it is, or extends the heap by [bytes] and
    returns the start of the new region; it fails when the request is
    negative or exceeds the capacity [mem_max_addr]. *)
Definition mem_sbrk (incr : Z) : M Z :=
  fun s => if (incr <? 0) || (mem_max_addr s <? mem_brk s + incr)
           then Ok SBRK_FAIL s
           else Ok (mem_brk s) (with_brk s (mem_brk s + incr)).

(** ** The code of mm.c *)

(** [inline unsigned int PACK(int size, int alloc)] *)
Definition PACK (size alloc : Z) : Z := u32 (Z.lor (s32 size) (s32 alloc)).

Definition GET (p : Z) : M Z := load 4 p.

Definition PUT (p val : Z) : M unit := store 4 p val.

Definition GET_SIZE (p : Z) : M Z :=
  w <- GET p ;; ret (Z.land w 0x7ffffffe).

Definition GET_ALLOC (p : Z) : M Z :=
  w <- GET p ;; ret (Z.land w 0x1).

Definition FOOTER (p : Z) : M Z :=
  sz <- GET_SIZE p ;; ret (p + sz - WSIZE).

Definition NEXT_FREE (p : Z) : M Z := load 8 (p + WSIZE).

(** [*(heap_listp + index)] as an lvalue: the address of bucket [index]. *)
Definition bucket (index : Z) : M Z :=
  hl <- get_heap_listp ;; ret (hl + 8 * index).

Definition mm_init : M Z :=
  p <- mem_sbrk (10 * DSIZE) ;;
  set_heap_listp p ;;
  if p =? SBRK_FAIL then ret (-1)
  else
    store 8 (p + 8 * 0) NULL ;;
    store 8 (p + 8 * 1) NULL ;;
    store 8 (p + 8 * 2) NULL ;;
    store 8 (p + 8 * 3) NULL ;;
    store 8 (p + 8 * 4) NULL ;;
    store 8 (p + 8 * 5) NULL ;;
    store 8 (p + 8 * 6) NULL ;;
    store 8 (p + 8 * 7) NULL ;;
    store 8 (p + 8 * 8) NULL ;;
    let prologue := p + 8 * 9 in
    PUT prologue (PACK 0 1) ;;
    let epilogue := prologue + WSIZE in
    PUT epilogue (PACK 0 1) ;;
    ret 0.

(** [static char* extend_heap(int size)] *)
Definition extend_heap (size : Z) : M Z :=
  bp <- mem_sbrk size ;;
  if bp =? SBRK_FAIL then ret bp
  else
    PUT (bp - WSIZE) (PACK size 1) ;;
    PUT (bp + size - DSIZE) (PACK size 1) ;;
    PUT (bp + size - WSIZE) (PACK 0 1) ;;
    ret bp.

(** [static int getIndex(size_t asize)] *)
Definition getIndex (asize : Z) : Z :=
  if asize <=? 32 then 0
  else if asize <=? 64 then 1
  else if asize <=? 128 then 2
  else if asize <=? 256 then 3
  else if asize <=? 512 then 4
  else if asize <=? 1024 then 5
  else if asize <=? 2048 then 6
  else if asize <=? 4096 then 7
  else 8.

(** Bound on the walks along a free list.  The walks do not write to
    memory and every node they visit is an address inside the heap, so a
    walk of more steps than the heap has bytes has come back to a node it
    has already visited and never ends. *)
Definition walk_bound : M nat :=
  fun s => Ok (S (Z.to_nat (mem_brk s - mem_lo s))) s.

(** First loop of [first_fit]: first fit inside the natural bucket.
    [None] stands for leaving the loop with [ptr == NULL]. *)
Fixpoint first_fit_scan (fuel : nat) (asize ptr : Z) : M (option Z) :=
  match fuel with
  | O => fun _ => Hang
  | S k =>
      if ptr =? NULL then ret None
      else
        sz <- GET_SIZE ptr ;;
        if asize <=? sz then ret (Some ptr)
        else
          set_prevPtr ptr ;;
          nx <- NEXT_FREE ptr ;;
          first_fit_scan k asize nx
  end.

(** Second loop of [first_fit]: [n] is the number of buckets left,
    [9 - index]; the loop ends when [index > 8]. *)
Fixpoint first_fit_escalate (n : nat) (index : Z) : M Z :=
  match n with
  | O => ret NULL
  | S k =>
      b <- bucket index ;;
      ptr <- load 8 b ;;
      if ptr =? NULL then first_fit_escalate k (index + 1)
      else set_prevPtr NULL ;; ret ptr
  end.

(** [static void* first_fit(unsigned int asize, int index)] *)
Definition first_fit (asize index : Z) : M Z :=
  set_prevPtr NULL ;;
  b <- bucket index ;;
  ptr <- load 8 b ;;
  fuel <- walk_bound ;;
  r <- first_fit_scan fuel asize ptr ;;
  match r with
  | Some p => ret p
  | None => first_fit_escalate (Z.to_nat (9 - (index + 1))) (index + 1)
  end.

(** [static void relink(char*bp, char*prev)] *)
Definition relink (bp prev : Z) : M unit :=
  sz <- GET_SIZE bp ;;
  let index := getIndex sz in
  if prev =? NULL then
    nx <- NEXT_FREE bp ;;
    b <- bucket index ;;
    store 8 b nx
  else
    let prev := prev + WSIZE in
    nx <- NEXT_FREE bp ;;
    store 8 prev nx.

(** The loop of [find_prev]; it has no test for [NULL]. *)
Fixpoint find_prev_loop (fuel : nat) (p ptr : Z) : M unit :=
  match fuel with
  | O => fun _ => Hang
  | S k =>
      if ptr =? p then ret tt
      else
        set_prevPtr ptr ;;
        nx <- NEXT_FREE ptr ;;
        find_prev_loop k p nx
  end.

(** [static void* find_prev(char* p)] *)
Definition find_prev (p : Z) : M Z :=
  sz <- GET_SIZE p ;;
  let index := getIndex sz in
  set_prevPtr NULL ;;
  b <- bucket index ;;
  ptr <- load 8 b ;;
  fuel <- walk_bound ;;
  find_prev_loop fuel p ptr ;;
  get_prevPtr.

(** Insertion of the merged block at the head of its bucket, the three
    statements that end every merging case of [coalesce]. *)
Definition push_merged (blk : Z) : M unit :=
  sz <- GET_SIZE blk ;;
  b <- bucket (getIndex sz) ;;
  nextFreeBlock <- load 8 b ;;
  sz' <- GET_SIZE blk ;;
  b' <- bucket (getIndex sz') ;;
  store 8 b' blk ;;
  store 8 (blk + WSIZE) nextFreeBlock.

(** [static void coalesce(char*bp)] *)
Definition coalesce (bp : Z) : M unit :=
  leftAlloc <- GET_ALLOC (bp - WSIZE) ;;
  sz <- GET_SIZE bp ;;
  rightAlloc <- GET_ALLOC (bp + sz) ;;
  if (leftAlloc =? 1) && (rightAlloc =? 1) then ret tt
  else if (leftAlloc =? 0) && (rightAlloc =? 1) then
    lsz <- GET_SIZE (bp - WSIZE) ;;
    let leftBlock := bp - lsz in
    relink bp NULL ;;
    prev <- find_prev leftBlock ;;
    relink leftBlock prev ;;
    s1 <- GET_SIZE leftBlock ;;
    s2 <- GET_SIZE bp ;;
    let newSize := s32 (u32 (s1 + s2)) in
    PUT leftBlock (PACK newSize 0) ;;
    ft <- FOOTER leftBlock ;;
    PUT ft (PACK newSize 0) ;;
    push_merged leftBlock
  else if (leftAlloc =? 1) && (rightAlloc =? 0) then
    sz <- GET_SIZE bp ;;
    let rightBlock := bp + sz in
    relink bp NULL ;;
    prev <- find_prev rightBlock ;;
    relink rightBlock prev ;;
    s1 <- GET_SIZE rightBlock ;;
    s2 <- GET_SIZE bp ;;
    let newSize := s32 (u32 (s1 + s2)) in
    PUT bp (PACK newSize 0) ;;
    ft <- FOOTER bp ;;
    PUT ft (PACK newSize 0) ;;
    push_merged bp
  else
    sz <- GET_SIZE bp ;;
    let rightBlock := bp + sz in
    lsz <- GET_SIZE (bp - WSIZE) ;;
    let leftBlock := bp - lsz in
    relink bp NULL ;;
    prev <- find_prev rightBlock ;;
    relink rightBlock prev ;;
    prev' <- find_prev leftBlock ;;
    relink leftBlock prev' ;;
    s1 <- GET_SIZE rightBlock ;;
    s2 <- GET_SIZE bp ;;
    s3 <- GET_SIZE leftBlock ;;
    let newSize := s32 (u32 (u32 (s1 + s2) + s3)) in
    PUT leftBlock (PACK newSize 0) ;;
    ft <- FOOTER leftBlock ;;
    PUT ft (PACK newSize 0) ;;
    push_merged leftBlock.

(** [void free (void *ptr)] *)
Definition free (ptr : Z) : M unit :=
  if ptr =? NULL then ret tt
  else
    let ptr := ptr - WSIZE in
    sz <- GET_SIZE ptr ;;
    PUT ptr (PACK sz 0) ;;
    ft <- FOOTER ptr ;;
    sz' <- GET_SIZE ptr ;;
    PUT ft (PACK sz' 0) ;;
    sz'' <- GET_SIZE ptr ;;
    let size := s32 sz'' in
    b <- bucket (getIndex (u64 size)) ;;
    nextFreeBlock <- load 8 b ;;
    store 8 (ptr + WSIZE) nextFreeBlock ;;
    b' <- bucket (getIndex (u64 size)) ;;
    store 8 b' ptr ;;
    coalesce ptr.

(** The statements of [free] before its call of [coalesce], for a
    pointer that is not [NULL]: they tag the block free and push it on
    the list of its bucket.  [free ptr] is [free_push ptr] followed by
    [coalesce (ptr - WSIZE)]. *)
Definition free_push (ptr : Z) : M unit :=
  let ptr := ptr - WSIZE in
  sz <- GET_SIZE ptr ;;
  PUT ptr (PACK sz 0) ;;
  ft <- FOOTER ptr ;;
  sz' <- GET_SIZE ptr ;;
  PUT ft (PACK sz' 0) ;;
  sz'' <- GET_SIZE ptr ;;
  let size := s32 sz'' in
  b <- bucket (getIndex (u64 size)) ;;
  nextFreeBlock <- load 8 b ;;
  store 8 (ptr + WSIZE) nextFreeBlock ;;
  b' <- bucket (getIndex (u64 size)) ;;
  store 8 b' ptr.

(** [static char* place (unsigned int asize, char* bp, char*prev)] *)
Definition place (asize bp prev : Z) : M Z :=
  sz <- GET_SIZE bp ;;
  let csize := s32 sz in
  let diff := s32 (u32 (csize - asize)) in
  (if 2 * DSIZE <? diff then
     relink bp prev ;;
     PUT bp (PACK asize 1) ;;
     ft <- FOOTER bp ;;
     PUT ft (PACK asize 1) ;;
     let newbp := bp + asize in
     PUT newbp (PACK diff 0) ;;
     ft' <- FOOTER newbp ;;
     PUT ft' (PACK diff 0) ;;
     free (newbp + WSIZE)
   else
     PUT bp (PACK csize 1) ;;
     ft <- FOOTER bp ;;
     PUT ft (PACK csize 1) ;;
     relink bp prev) ;;
  ret (bp + WSIZE).

(** The required size computed by [malloc]: [size + 8] rounded up to a
    multiple of 8, in [size_t] arithmetic. *)
Definition required_size (size : Z) : Z :=
  let size := u64 (size + 8) in
  if size mod 8 =? 0 then size else u64 ((size / 8 + 1) * 8).

(** [void *malloc (size_t size)] *)
Definition malloc (size : Z) : M Z :=
  if size =? 0 then ret NULL
  else
    let asize := required_size size in
    let index := getIndex asize in
    bp <- first_fit (u32 asize) index ;;
    if bp =? NULL then
      bp <- extend_heap (s32 asize) ;;
      ret bp
    else
      prev <- get_prevPtr ;;
      place (u32 asize) bp prev.

(** The number of bytes [realloc] copies. *)
Definition realloc_copy_size (oldptr size : Z) : M Z :=
  oldsize <- GET_SIZE (oldptr - WSIZE) ;;
  ret (if size <? oldsize then u32 size else oldsize).

(** [void *realloc(void *oldptr, size_t size)] *)
Definition realloc (oldptr size : Z) : M Z :=
  if oldptr =? NULL then malloc size
  else if size =? 0 then free oldptr ;; ret NULL
  else
    bp <- malloc size ;;
    if bp =? NULL then ret 0
    else
      oldsize <- realloc_copy_size oldptr size ;;
      memcpy bp oldptr oldsize ;;
      free oldptr ;;
      ret bp.

(** [void *calloc (size_t nmemb, size_t size)] *)
Definition calloc (nmemb size : Z) : M Z :=
  let bytes := u64 (nmemb * size) in
  newptr <- malloc bytes ;;
  memset newptr 0 bytes ;;
  ret newptr.

(** ** The heap checker of mm.c *)

(** [#define ALIGN(p) (((size_t)(p) + (ALIGNMENT-1)) & ~0x7)]: [~0x7] is
    the [int] -8, converted to [size_t] for the conjunction. *)
Definition ALIGN (p : Z) : Z :=
  Z.land (u64 (u64 p + (ALIGNMENT - 1))) (u64 (s32 (Z.lnot 0x7))).

(** Modelled from the spec: the bounds queries [mem_heap_lo] and
    [mem_heap_hi] of [memlib.c], which is not among the sources.  They
    report the low and the high bound of the heap; [in_heap] compares
    with [<=] on both sides, so the high bound is the address of the last
    byte of the heap. *)
Definition mem_heap_lo : M Z := fun s => Ok (mem_lo s) s.
Definition mem_heap_hi : M Z := fun s => Ok (mem_brk s - 1) s.

(** [static int in_heap(const void *p)] *)
Definition in_heap (p : Z) : M Z :=
  hi <- mem_heap_hi ;;
  if p <=? hi then
    lo <- mem_heap_lo ;;
    ret (if lo <=? p then 1 else 0)
  else ret 0.

(** [static int aligned(const void *p)] *)
Definition aligned (p : Z) : Z := if ALIGN p =? u64 p then 1 else 0.

(** [int checkBucketSize(char* c, int index)] *)
Definition checkBucketSize (c index : Z) : M Z :=
  if index =? 0 then
    sz <- GET_SIZE c ;; ret (if 32 <? sz then 0 else 1)
  else if index =? 1 then
    sz <- GET_SIZE c ;; ret (if 64 <? sz then 0 else 1)
  else if index =? 2 then
    sz <- GET_SIZE c ;; ret (if 128 <? sz then 0 else 1)
  else if index =? 3 then
    sz <- GET_SIZE c ;; ret (if 256 <? sz then 0 else 1)
  else if index =? 4 then
    sz <- GET_SIZE c ;; ret (if 512 <? sz then 0 else 1)
  else if index =? 5 then
    sz <- GET_SIZE c ;; ret (if 1024 <? sz then 0 else 1)
  else if index =? 6 then
    sz <- GET_SIZE c ;; ret (if 2048 <? sz then 0 else 1)
  else if index =? 7 then
    sz <- GET_SIZE c ;; ret (if 4096 <? sz then 0 else 1)
  else
    sz <- GET_SIZE c ;; ret (if sz <=? 4096 then 0 else 1).

(** What [mm_checkheap] prints: the text of each [printf], in order,
    without the newline that ends it. *)
Definition report : Type := list String.string.

Definition say (cond : bool) (msg : String.string) (out : report) : report :=
  if cond then out ++ [msg] else out.

(** The search of [mm_checkheap] for the block [begin] in the list of its
    bucket; the result is [ptr] when the loop is left. *)
Fixpoint checkheap_find (fuel : nat) (begin ptr : Z) : M Z :=
  match fuel with
  | O => fun _ => Hang
  | S k =>
      if ptr =? NULL then ret ptr
      else if ptr =? begin then ret ptr
      else
        nx <- NEXT_FREE ptr ;;
        checkheap_find k begin nx
  end.

(** The first loop of [mm_checkheap], over the blocks of the arena.  The
    test [!(aligned + WSIZE)] inside it is on the address of the function
    [aligned] plus an offset, which is never null: that [printf] is never
    reached.  A turn of the loop that does not advance [begin] leaves
    everything as it is, and a turn that advances it moves it up by at
    least two bytes: as for the lists, more turns than the heap has bytes
    mean that the loop never ends. *)
Fixpoint checkheap_blocks (fuel : nat) (prologue begin : Z) (out : report)
  : M report :=
  match fuel with
  | O => fun _ => Hang
  | S k =>
      a <- GET_ALLOC begin ;;
      if a =? 1 then ret out
      else
        psz <- GET_SIZE prologue ;;
        if psz =? 0 then ret out
        else
          a' <- GET_ALLOC begin ;;
          if negb (a' =? 1) then
            sz <- GET_SIZE begin ;;
            b <- bucket (getIndex sz) ;;
            ptr <- load 8 b ;;
            fuel' <- walk_bound ;;
            ptr <- checkheap_find fuel' begin ptr ;;
            let out := say (ptr =? NULL) "did not find bucket"%string out in
            a1 <- GET_ALLOC begin ;;
            sz1 <- GET_SIZE begin ;;
            a2 <- GET_ALLOC (begin + sz1) ;;
            let out := say (negb (a1 =? a2)) "block is wrong"%string out in
            let out := say false "align is in wrong"%string out in
            sz2 <- GET_SIZE begin ;;
            checkheap_blocks k prologue (begin + sz2) out
          else checkheap_blocks k prologue begin out
  end.

(** The walk of [mm_checkheap] along the list of bucket [index]. *)
Fixpoint checkheap_list (fuel : nat) (ptr index : Z) (out : report)
  : M report :=
  match fuel with
  | O => fun _ => Hang
  | S k =>
      if ptr =? NULL then ret out
      else
        ih <- in_heap ptr ;;
        let out := say (ih =? 0) "free pointer is out of bound"%string out in
        let out := say (aligned (ptr + WSIZE) =? 0) "not aligned"%string out in
        a <- GET_ALLOC ptr ;;
        let out := say (a =? 1) "not free block"%string out in
        cb <- checkBucketSize ptr index ;;
        let out := say (cb =? 0) "wrong bucket size"%string out in
        nx <- NEXT_FREE ptr ;;
        checkheap_list k nx index out
  end.

(** The last loop of [mm_checkheap]: [n] buckets are left, from [index]
    to 8. *)
Fixpoint checkheap_buckets (n : nat) (index : Z) (out : report) : M report :=
  match n with
  | O => ret out
  | S k =>
      b <- bucket index ;;
      ptr <- load 8 b ;;
      fuel <- walk_bound ;;
      out <- checkheap_list fuel ptr index out ;;
      checkheap_buckets k (index + 1) out
  end.

(** [void mm_checkheap(int verbose)].  The result says whether the
    standard output was redirected ([dup2(2,1)]) and what was printed. *)
Definition mm_checkheap (verbose : Z) : M (bool * report) :=
  let redirected := verbose =? 1 in
  hl <- get_heap_listp ;;
  let prologue := hl + 8 * 9 in
  let begin := prologue + WSIZE in
  a <- GET_ALLOC prologue ;;
  let out := say (negb (a =? 1)) "invalid prologue header"%string [] in
  sz <- GET_SIZE prologue ;;
  let out := say (negb (sz =? 0)) "invalid prologue header"%string out in
  fuel <- walk_bound ;;
  out <- checkheap_blocks fuel prologue begin out ;;
  a <- GET_ALLOC prologue ;;
  let out := say (negb (a =? 1)) "invalid epilogue "%string out in
  sz <- GET_SIZE prologue ;;
  let out := say (negb (sz =? 0)) "invalid epilogue "%string out in
  out <- checkheap_buckets 9 0 out ;;
  ret (redirected, out).

(** * The heap invariant and the vocabulary of the statements *)

(** The value of a boundary tag. *)
Definition bit (al : bool) : Z := if al then 1 else 0.
Definition tag (sz : Z) (al : bool) : Z := sz + bit al.

Record block := mkBlock { b_addr : Z; b_size : Z; b_alloc : bool }.

(** The blocks of [bs] tile the byte range from [a] to [e]. *)
Fixpoint contig (a : Z) (bs : list block) (e : Z) : Prop :=
  match bs with
  | [] => a = e
  | b :: r =>
      b_addr b = a /\ 16 <= b_size b /\ b_size b mod 8 = 0 /\
      contig (a + b_size b) r e
  end.

(** Header and footer of [b] hold its size and allocation bit. *)
Definition tagged (m : memory) (b : block) : Prop :=
  rd m (b_addr b) 4 = tag (b_size b) (b_alloc b) /\
  rd m (b_addr b + b_size b - 4) 4 = tag (b_size b) (b_alloc b).

(** The nodes [L] are linked from [h] to [t] through their next fields. *)
Fixpoint lseg (m : memory) (h : Z) (L : list Z) (t : Z) : Prop :=
  match L with
  | [] => h = t
  | a :: L' => h = a /\ a <> NULL /\ lseg m (rd m (a + 4) 8) L' t
  end.

Definition chain (m : memory) (h : Z) (L : list Z) : Prop := lseg m h L NULL.

(** The node [x] is on the list of bucket [i]: from the head of the
    bucket the next fields lead through the nodes [k1] to [x], and from
    there through the nodes [k2] to [NULL], and no node comes twice.  The
    list predecessor of [x] is then the last node of [k1], and there is
    none when [k1] is empty, that is when [x] is the head. *)
Definition listed (s : state) (i x : Z) (k1 k2 : list Z) : Prop :=
  chain (mem s) (rd (mem s) (heap_listp s + 8 * i) 8) (k1 ++ x :: k2) /\
  NoDup (k1 ++ x :: k2).

Definition node_ok (bs : list block) (x : Z) : Prop :=
  exists b, In b bs /\ b_addr b = x.

Definition fl_set (fl : Z -> list Z) (i : Z) (L : list Z) : Z -> list Z :=
  fun j => if j =? i then L else fl j.

(** The part of the heap invariant that holds at every point inside the
    operations as well: the tiling of the arena by tagged blocks, and nine
    well-formed, disjoint lists whose nodes are blocks. *)
Record heap_shape (s : state) (bs : list block) (fl : Z -> list Z) : Prop := {
  sh_lo : 0 < mem_lo s <= heap_listp s;
  sh_align : heap_listp s mod 8 = 0;
  sh_max : mem_brk s <= mem_max_addr s;
  sh_cap : mem_max_addr s - heap_listp s < 2 ^ 31;
  sh_ptr : mem_max_addr s < 2 ^ 64 - 1;
  sh_contig : contig (heap_listp s + 76) bs (mem_brk s - 4);
  sh_tags : Forall (tagged (mem s)) bs;
  sh_prologue : rd (mem s) (heap_listp s + 72) 4 = 1;
  sh_epilogue : rd (mem s) (mem_brk s - 4) 4 = 1;
  sh_chain : forall i, 0 <= i <= 8 ->
      chain (mem s) (rd (mem s) (heap_listp s + 8 * i) 8) (fl i);
  sh_nodup : forall i, 0 <= i <= 8 -> NoDup (fl i);
  sh_nodes : forall i x, 0 <= i <= 8 -> In x (fl i) -> node_ok bs x;
  sh_disj : forall i j x, 0 <= i <= 8 -> 0 <= j <= 8 ->
      In x (fl i) -> In x (fl j) -> i = j
}.

(** A block is free iff it is on the list of the bucket of its size. *)
Definition free_in (bs : list block) (i x : Z) : Prop :=
  exists sz, In (mkBlock x sz false) bs /\ getIndex sz = i.

Definition lists_match (bs : list block) (fl : Z -> list Z) : Prop :=
  forall i x, 0 <= i <= 8 -> (In x (fl i) <-> free_in bs i x).

Definition heap_wf (s : state) (bs : list block) (fl : Z -> list Z) : Prop :=
  heap_shape s bs fl /\ lists_match bs fl.

(** No two neighbours in the arena are both free. *)
Fixpoint no_adjacent_free (bs : list block) : Prop :=
  match bs with
  | b :: (c :: _) as r =>
      (b_alloc b = true \/ b_alloc c = true) /\ no_adjacent_free r
  | _ => True
  end.

(** The invariant of the allocator between two public operations. *)
Definition heap_ok (s : state) : Prop :=
  exists bs fl, heap_wf s bs fl /\ no_adjacent_free bs.

(** The operations after initialisation move neither the heap base nor
    its capacity. *)
Definition same_geom (s s' : state) : Prop :=
  mem_lo s' = mem_lo s /\ mem_brk s' = mem_brk s /\
  mem_max_addr s' = mem_max_addr s /\ heap_listp s' = heap_listp s.

Definition sentinel : block := mkBlock 0 0 true.
Definition last_alloc (l : list block) : bool := b_alloc (last l sentinel).
Definition first_alloc (l : list block) : bool := b_alloc (hd sentinel l).

(** What coalescing makes of a free block [b] that lies between the
    blocks [l1] and [l2]: the free block that takes in [b] and those of
    its two neighbours that are free, and the blocks of the arena
    afterwards. *)
Definition merged_block (l1 : list block) (b : block) (l2 : list block)
  : block :=
  let c := last l1 sentinel in
  let d := hd sentinel l2 in
  mkBlock (if b_alloc c then b_addr b else b_addr c)
    ((if b_alloc c then 0 else b_size c) + b_size b
     + (if b_alloc d then 0 else b_size d))
    false.

Definition coalesced (l1 : list block) (b : block) (l2 : list block)
  : list block :=
  (if last_alloc l1 then l1 else removelast l1)
    ++ merged_block l1 b l2 :: (if first_alloc l2 then l2 else tl l2).

Definition set_alloc (b : block) (al : bool) : block :=
  mkBlock (b_addr b) (b_size b) al.

Definition size_at (bs : list block) (x : Z) : Z :=
  match find (fun b => b_addr b =? x) bs with
  | Some b => b_size b
  | None => 0
  end.

(** The heap may have grown; its base and its capacity are the same. *)
Definition grown (s s' : state) : Prop :=
  mem_lo s' = mem_lo s /\ mem_max_addr s' = mem_max_addr s /\
  heap_listp s' = heap_listp s /\ mem_brk s <= mem_brk s'.

(** A heap as [mem_init] leaves it: empty, aligned, with room for the
    bucket heads and the sentinels, and smaller than 2 GiB. *)
Definition fresh (s : state) : Prop :=
  0 < mem_lo s <= mem_brk s /\ mem_brk s mod 8 = 0 /\
  mem_brk s + 80 <= mem_max_addr s /\
  mem_max_addr s - mem_brk s < 2 ^ 31 /\
  mem_max_addr s < 2 ^ 64 - 1.

Fixpoint scan_blocks (fuel : nat) (m : memory) (a e : Z) : option (list block) :=
  match fuel with
  | O => None
  | S k =>
      if a =? e then Some []
      else
        let w := rd m a 4 in
        let sz := Z.land w 0x7ffffffe in
        if (sz <=? 0) || (e <? a) then None
        else match scan_blocks k m (a + sz) e with
             | Some r => Some (mkBlock a sz (Z.land w 0x1 =? 1) :: r)
             | None => None
             end
  end.

(** The blocks between the sentinels, as their headers describe them. *)
Definition arena (s : state) : option (list block) :=
  scan_blocks (S (Z.to_nat (mem_brk s - heap_listp s))) (mem s)
    (heap_listp s + 76) (mem_brk s - 4).

(** Scanning the arena finds no two adjacent free blocks. *)
Definition no_adjacent_free_scan (s : state) : Prop :=
  exists bs, arena s = Some bs /\ no_adjacent_free bs.

(** [p] is the payload pointer of an allocated block of [sz] bytes. *)
Definition allocated (s : state) (p sz : Z) : Prop :=
  exists bs, arena s = Some bs /\ In (mkBlock (p - 4) sz true) bs.

(** The result of a statement satisfies [P]. *)
Definition returns {A} (o : outcome A) (P : A -> state -> Prop) : Prop :=
  match o with
  | Ok a s => P a s
  | _ => False
  end.

Definition state_after {A} (c : M A) (s : state) : state :=
  match c s with
  | Ok _ s' => s'
  | _ => s
  end.

(** An empty heap of one mebibyte at address 4096, and one with room for
    nothing but the bucket heads and the sentinels. *)
Definition example_heap : state :=
  mkState (fun _ => 0) 4096 4096 (4096 + 1048576) 0 0.
Definition full_heap : state :=
  mkState (fun _ => 0) 4096 4096 (4096 + 80) 0 0.

Definition init_heap : state := state_after mm_init example_heap.

(** A heap whose only block is free and has 2008 bytes, and a heap with a
    free block followed by an allocated one. *)
Definition heap_big_free : state :=
  state_after (free 4176) (state_after (malloc 2000) init_heap).
Definition heap_free_alloc : state :=
  state_after (free 4176)
    (state_after (malloc 24) (state_after (malloc 24) init_heap)).

(** Five blocks of 32 bytes of which the first, the third and the fifth
    have been freed, in this order: bucket 0 lists the fifth, the third
    and the first. *)
Definition heap_five_allocated : state :=
  state_after (malloc 24) (state_after (malloc 24) (state_after (malloc 24)
    (state_after (malloc 24) (state_after (malloc 24) init_heap)))).
Definition heap_five : state :=
  state_after (free 4304) (state_after (free 4240)
    (state_after (free 4176) heap_five_allocated)).

(** Five blocks of 32 bytes of which only the last has been freed. *)
Definition heap_five_last_free : state :=
  state_after (free 4304) heap_five_allocated.


(** * Verification *)

(** ** Machine arithmetic *)

Lemma u32_small z : 0 <= z < 2 ^ 32 -> u32 z = z.
Proof. intros; unfold u32; apply Z.mod_small; lia. Qed.

Lemma u64_small z : 0 <= z < 2 ^ 64 -> u64 z = z.
Proof. intros; unfold u64; apply Z.mod_small; lia. Qed.

Lemma s32_small z : 0 <= z < 2 ^ 31 -> s32 z = z.
Proof.
  intros H; unfold s32; cbv zeta.
  rewrite Z.mod_small by lia.
  destruct (Z.ltb_spec z (2 ^ 31)); lia.
Qed.

Lemma land_mask x : 0 <= x < 2 ^ 31 -> Z.land x 0x7ffffffe = x - x mod 2.
Proof.
  intros Hx.
  assert (E : x - x mod 2 = 2 * (x / 2)) by (pose proof (Z.div_mod x 2); lia).
  rewrite E. apply Z.bits_inj'. intros n Hn.
  rewrite Z.land_spec.
  destruct (Z.eq_dec n 0) as [->|Hn0].
  - rewrite Z.testbit_even_0.
    change (Z.testbit 2147483646 0) with false. apply andb_false_r.
  - assert (Hm : 0 <= n - 1) by lia. revert Hm.
    replace n with (Z.succ (n - 1)) at 2 3 4 by lia.
    generalize (n - 1). clear n Hn Hn0. intros m Hm.
    change 2147483646 with (2 * Z.ones 30).
    rewrite !Z.testbit_even_succ by lia.
    rewrite <- Z.div2_div, Z.div2_spec, Z.shiftr_spec by lia.
    replace (m + 1) with (Z.succ m) by lia.
    destruct (Z_lt_dec m 30).
    + rewrite Z.ones_spec_low by lia. apply andb_true_r.
    + rewrite Z.ones_spec_high by lia. rewrite andb_false_r.
      symmetry. apply Z.bits_above_log2; try lia.
      destruct (Z.eq_dec x 0) as [->|]; [simpl; lia|].
      assert (Z.log2 x < 31) by (apply Z.log2_lt_pow2; lia). lia.
Qed.

Lemma lor_bit s al : s mod 2 = 0 -> 0 <= al <= 1 -> Z.lor s al = s + al.
Proof.
  intros Hs Hal.
  assert (al = 0 \/ al = 1) as [-> | ->] by lia.
  - rewrite Z.lor_0_r; lia.
  - rewrite <- Z.lxor_lor, <- Z.add_nocarry_lxor; auto;
      change 1 with (Z.ones 1); rewrite Z.land_ones by lia; exact Hs.
Qed.

Lemma bit_range al : 0 <= bit al <= 1.
Proof. destruct al; simpl; lia. Qed.

Lemma PACK_tag sz al :
  0 <= sz < 2 ^ 31 -> sz mod 2 = 0 -> PACK sz (bit al) = tag sz al.
Proof.
  intros H1 H2. pose proof (bit_range al). unfold PACK, tag.
  rewrite !s32_small by lia. rewrite lor_bit by lia.
  apply u32_small. lia.
Qed.

Lemma tag_size sz al :
  0 <= sz < 2 ^ 31 -> sz mod 2 = 0 -> Z.land (tag sz al) 0x7ffffffe = sz.
Proof.
  intros H1 H2. pose proof (bit_range al). unfold tag.
  assert (E : (sz + bit al) mod 2 = bit al).
  { rewrite <- Z.add_mod_idemp_l, H2 by lia. apply Z.mod_small. lia. }
  destruct (Z.eq_dec (sz + bit al) (2 ^ 31)) as [E'|NE].
  - exfalso. rewrite E' in E. change (2 ^ 31 mod 2) with 0 in E.
    rewrite <- E in E'. lia.
  - rewrite land_mask by lia. lia.
Qed.

Lemma tag_alloc sz al : sz mod 2 = 0 -> Z.land (tag sz al) 0x1 = bit al.
Proof.
  intros H. pose proof (bit_range al). unfold tag.
  change 1 with (Z.ones 1). rewrite Z.land_ones by lia.
  change (2 ^ 1) with 2.
  rewrite <- Z.add_mod_idemp_l, H by lia. apply Z.mod_small. lia.
Qed.

Lemma mod8_mod2 z : z mod 8 = 0 -> z mod 2 = 0.
Proof.
  intros H. pose proof (Z.div_mod z 8). pose proof (Z.div_mod z 2).
  pose proof (Z.mod_pos_bound z 2). lia.
Qed.

(** ** Memory *)

Lemma wr_out n : forall m a v x,
  x < a \/ a + Z.of_nat n <= x -> wr m a n v x = m x.
Proof.
  induction n as [|n IH]; intros m a v x H; [reflexivity|].
  cbn [wr]. rewrite IH by lia. unfold upd.
  destruct (Z.eqb_spec x a); [lia | reflexivity].
Qed.

Lemma rd_ext n : forall m m' a,
  (forall x, a <= x < a + Z.of_nat n -> m' x = m x) -> rd m' a n = rd m a n.
Proof.
  induction n as [|n IH]; intros m m' a H; [reflexivity|].
  cbn [rd]. rewrite (H a) by lia. f_equal. f_equal.
  apply IH. intros x Hx. apply H. lia.
Qed.

Lemma rd_wr_other k n m a v b :
  b + Z.of_nat k <= a \/ a + Z.of_nat n <= b ->
  rd (wr m a n v) b k = rd m b k.
Proof. intros H. apply rd_ext. intros x Hx. apply wr_out. lia. Qed.

Lemma rd_wr_same n : forall m a v,
  rd (wr m a n v) a n = v mod 2 ^ (8 * Z.of_nat n).
Proof.
  induction n as [|n IH]; intros m a v.
  - cbn [rd wr]. change (2 ^ (8 * Z.of_nat 0)) with 1. now rewrite Z.mod_1_r.
  - cbn [rd wr]. rewrite IH, wr_out by lia.
    unfold upd. rewrite Z.eqb_refl.
    replace (8 * Z.of_nat (S n)) with (8 + 8 * Z.of_nat n) by lia.
    rewrite Z.pow_add_r by lia. change (2 ^ 8) with 256.
    rewrite Z.rem_mul_r by lia. reflexivity.
Qed.

Lemma rd_wr_4 m a v : 0 <= v < 2 ^ 32 -> rd (wr m a 4 v) a 4 = v.
Proof. intros H. rewrite rd_wr_same. apply Z.mod_small. exact H. Qed.

Lemma rd_wr_8 m a v : 0 <= v < 2 ^ 64 -> rd (wr m a 8 v) a 8 = v.
Proof. intros H. rewrite rd_wr_same. apply Z.mod_small. exact H. Qed.

Lemma rd_copy_other k m dst src n b :
  b + Z.of_nat k <= dst \/ dst + n <= b ->
  rd (copy_bytes m dst src n) b k = rd m b k.
Proof.
  intros H. apply rd_ext. intros x Hx. unfold copy_bytes.
  destruct (Z.leb_spec dst x), (Z.ltb_spec x (dst + n)); simpl; auto; lia.
Qed.

Lemma rd_fill_other k m dst c n b :
  b + Z.of_nat k <= dst \/ dst + n <= b ->
  rd (fill_bytes m dst c n) b k = rd m b k.
Proof.
  intros H. apply rd_ext. intros x Hx. unfold fill_bytes.
  destruct (Z.leb_spec dst x), (Z.ltb_spec x (dst + n)); simpl; auto; lia.
Qed.

Global Opaque rd wr.

(** ** Running statements *)

Lemma bind_ok {A B} (c : M A) (f : A -> M B) s a s' :
  c s = Ok a s' -> bind c f s = f a s'.
Proof. intros H. unfold bind. now rewrite H. Qed.

Lemma bind_inv {A B} (c : M A) (f : A -> M B) s b s2 :
  bind c f s = Ok b s2 -> exists a s1, c s = Ok a s1 /\ f a s1 = Ok b s2.
Proof.
  unfold bind. destruct (c s) as [a s1| |]; try discriminate.
  intros H. now exists a, s1.
Qed.

Lemma valid_true s p n :
  mem_lo s <= p -> p + n <= mem_brk s -> valid s p n = true.
Proof.
  intros H1 H2. unfold valid.
  apply andb_true_intro. split; apply Z.leb_le; lia.
Qed.

Lemma valid_inv s p n :
  valid s p n = true ->
  mem_lo s <= p /\ p + n <= Z.max (mem_brk s) (mem_max_addr s).
Proof.
  unfold valid. intros H. apply andb_prop in H. destruct H as [H1 H2].
  apply Z.leb_le in H1, H2. now split.
Qed.

Lemma load_ok n p s :
  mem_lo s <= p -> p + Z.of_nat n <= mem_brk s ->
  load n p s = Ok (rd (mem s) p n) s.
Proof. intros H1 H2. unfold load. now rewrite valid_true. Qed.

Lemma store_ok n p v s :
  mem_lo s <= p -> p + Z.of_nat n <= mem_brk s ->
  store n p v s = Ok tt (with_mem s (wr (mem s) p n v)).
Proof. intros H1 H2. unfold store. now rewrite valid_true. Qed.

Lemma GET_SIZE_ok p s :
  mem_lo s <= p -> p + 4 <= mem_brk s ->
  GET_SIZE p s = Ok (Z.land (rd (mem s) p 4) 0x7ffffffe) s.
Proof.
  intros H1 H2. unfold GET_SIZE, GET.
  now rewrite (bind_ok _ _ _ _ _ (load_ok 4 p s H1 H2)).
Qed.

Lemma GET_ALLOC_ok p s :
  mem_lo s <= p -> p + 4 <= mem_brk s ->
  GET_ALLOC p s = Ok (Z.land (rd (mem s) p 4) 0x1) s.
Proof.
  intros H1 H2. unfold GET_ALLOC, GET.
  now rewrite (bind_ok _ _ _ _ _ (load_ok 4 p s H1 H2)).
Qed.

Lemma GET_SIZE_tag p s sz al :
  mem_lo s <= p -> p + 4 <= mem_brk s ->
  rd (mem s) p 4 = tag sz al -> 0 <= sz < 2 ^ 31 -> sz mod 8 = 0 ->
  GET_SIZE p s = Ok sz s.
Proof.
  intros H1 H2 H3 H4 H5. rewrite GET_SIZE_ok, H3 by assumption.
  now rewrite tag_size by auto using mod8_mod2.
Qed.

Lemma GET_ALLOC_tag p s sz al :
  mem_lo s <= p -> p + 4 <= mem_brk s ->
  rd (mem s) p 4 = tag sz al -> sz mod 8 = 0 ->
  GET_ALLOC p s = Ok (bit al) s.
Proof.
  intros H1 H2 H3 H5. rewrite GET_ALLOC_ok, H3 by assumption.
  now rewrite tag_alloc by auto using mod8_mod2.
Qed.

(** ** The heap as a sequence of blocks

    The arena between the two sentinels is described by the list of its
    blocks, left to right, and the nine free lists by the lists of their
    nodes, head first. *)

(** *** Tilings *)

Lemma contig_app a l1 l2 e :
  contig a (l1 ++ l2) e <-> exists mid, contig a l1 mid /\ contig mid l2 e.
Proof.
  revert a. induction l1 as [|b l1 IH]; intros a; simpl.
  - split.
    + intros H. exists a. auto.
    + intros (mid & -> & H). exact H.
  - rewrite IH. split.
    + intros (H1 & H2 & H3 & mid & H4 & H5). exists mid. auto.
    + intros (mid & (H1 & H2 & H3 & H4) & H5). eauto 8.
Qed.

Lemma contig_le a bs e : contig a bs e -> a <= e.
Proof.
  revert a. induction bs as [|b bs IH]; simpl; intros a H.
  - lia.
  - destruct H as (_ & H2 & _ & H4). apply IH in H4. lia.
Qed.

Lemma contig_range a bs e b :
  contig a bs e -> In b bs ->
  a <= b_addr b /\ b_addr b + b_size b <= e /\
  16 <= b_size b /\ b_size b mod 8 = 0.
Proof.
  revert a. induction bs as [|c bs IH]; simpl; intros a H Hin; [tauto|].
  destruct H as (H1 & H2 & H3 & H4). destruct Hin as [->|Hin].
  - apply contig_le in H4. lia.
  - specialize (IH _ H4 Hin). lia.
Qed.

Lemma contig_disjoint a bs e b c :
  contig a bs e -> In b bs -> In c bs ->
  b = c \/ b_addr b + b_size b <= b_addr c \/ b_addr c + b_size c <= b_addr b.
Proof.
  revert a. induction bs as [|d bs IH]; simpl; intros a H Hb Hc; [tauto|].
  destruct H as (H1 & H2 & H3 & H4).
  destruct Hb as [->|Hb], Hc as [->|Hc]; auto.
  - right. left. pose proof (contig_range _ _ _ _ H4 Hc). lia.
  - right. right. pose proof (contig_range _ _ _ _ H4 Hb). lia.
  - eauto.
Qed.

Lemma contig_addr_inj a bs e b c :
  contig a bs e -> In b bs -> In c bs -> b_addr b = b_addr c -> b = c.
Proof.
  intros H Hb Hc E.
  pose proof (contig_range _ _ _ _ H Hb). pose proof (contig_range _ _ _ _ H Hc).
  destruct (contig_disjoint _ _ _ _ _ H Hb Hc) as [?|[?|?]]; auto; lia.
Qed.

Lemma contig_align a bs e :
  a mod 8 = 4 -> contig a bs e ->
  e mod 8 = 4 /\ forall b, In b bs -> b_addr b mod 8 = 4.
Proof.
  revert a. induction bs as [|c bs IH]; simpl; intros a Ha H.
  - subst. tauto.
  - destruct H as (H1 & H2 & H3 & H4).
    assert (Ha' : (a + b_size c) mod 8 = 4).
    { rewrite Z.add_mod, Ha, H3 by lia. reflexivity. }
    destruct (IH _ Ha' H4) as [IH1 IH2]. split; [exact IH1|].
    intros b [->|Hb]; [congruence | auto].
Qed.

(** *** List segments *)

Lemma lseg_app m h l1 l2 t :
  lseg m h (l1 ++ l2) t <-> exists mid, lseg m h l1 mid /\ lseg m mid l2 t.
Proof.
  revert h. induction l1 as [|a l1 IH]; intros h; simpl.
  - split.
    + intros H. exists h. auto.
    + intros (mid & -> & H). exact H.
  - rewrite IH. split.
    + intros (H1 & H2 & mid & H3 & H4). exists mid. auto.
    + intros (mid & (H1 & H2 & H3) & H4). eauto 8.
Qed.

Lemma lseg_frame m m' h L t :
  (forall x, In x L -> rd m' (x + 4) 8 = rd m (x + 4) 8) ->
  lseg m h L t -> lseg m' h L t.
Proof.
  revert h. induction L as [|a L IH]; simpl; intros h Hf H; [exact H|].
  destruct H as (H1 & H2 & H3). repeat split; auto.
  rewrite Hf by auto. apply IH; auto.
Qed.

Lemma lseg_nonnull m h L t x : lseg m h L t -> In x L -> x <> NULL.
Proof.
  revert h. induction L as [|a L IH]; simpl; intros h H Hin; [tauto|].
  destruct H as (H1 & H2 & H3). destruct Hin as [<-|Hin]; eauto.
Qed.

Lemma lseg_head m h L t : lseg m h L t -> h = hd t L.
Proof. destruct L; simpl; tauto. Qed.

(** A list without repetition whose elements lie in a range of [n]
    addresses has at most [n] elements. *)
Lemma nodup_range_length (L : list Z) lo n :
  NoDup L -> (forall x, In x L -> lo <= x < lo + n) ->
  Z.of_nat (length L) <= Z.max 0 n.
Proof.
  intros Hnd Hr.
  assert (Hm : NoDup (map (fun x => Z.to_nat (x - lo)) L)).
  { clear -Hnd Hr. induction Hnd as [|a L Ha Hnd IH]; simpl; constructor.
    - rewrite in_map_iff. intros (y & Hy & Hin).
      assert (y = a).
      { pose proof (Hr a (or_introl eq_refl)).
        pose proof (Hr y (or_intror Hin)). lia. }
      subst. contradiction.
    - apply IH. intros x Hx. apply Hr. now right. }
  assert (Hi : incl (map (fun x => Z.to_nat (x - lo)) L) (seq 0 (Z.to_nat n))).
  { intros k Hk. apply in_map_iff in Hk. destruct Hk as (y & <- & Hy).
    apply in_seq. specialize (Hr y Hy). lia. }
  pose proof (NoDup_incl_length Hm Hi) as Hl.
  rewrite length_map, length_seq in Hl. lia.
Qed.

(** *** Facts about the blocks of a well-shaped heap *)

Lemma shape_block s bs fl b :
  heap_shape s bs fl -> In b bs ->
  heap_listp s + 76 <= b_addr b /\ b_addr b + b_size b <= mem_brk s - 4 /\
  16 <= b_size b < 2 ^ 31 /\ b_size b mod 8 = 0 /\ b_addr b mod 8 = 4 /\
  tagged (mem s) b.
Proof.
  intros H Hb. destruct H.
  pose proof (contig_range _ _ _ _ sh_contig0 Hb) as (R1 & R2 & R3 & R4).
  assert (A : (heap_listp s + 76) mod 8 = 4).
  { rewrite Z.add_mod, sh_align0 by lia. reflexivity. }
  destruct (contig_align _ _ _ A sh_contig0) as [_ A2].
  rewrite Forall_forall in sh_tags0.
  split; [lia|]. split; [lia|]. split; [lia|]. split; [lia|].
  split; auto.
Qed.

Lemma shape_brk s bs fl :
  heap_shape s bs fl ->
  heap_listp s + 80 <= mem_brk s /\ mem_brk s mod 8 = 0.
Proof.
  intros H. destruct H.
  assert (A : (heap_listp s + 76) mod 8 = 4).
  { rewrite Z.add_mod, sh_align0 by lia. reflexivity. }
  destruct (contig_align _ _ _ A sh_contig0) as [A1 _].
  apply contig_le in sh_contig0. split; [lia|].
  replace (mem_brk s) with (mem_brk s - 4 + 4) by lia.
  rewrite Z.add_mod, A1 by lia. reflexivity.
Qed.

Lemma shape_node s bs fl i x :
  heap_shape s bs fl -> 0 <= i <= 8 -> In x (fl i) ->
  exists b, In b bs /\ b_addr b = x.
Proof. intros H Hi Hx. exact (sh_nodes _ _ _ H i x Hi Hx). Qed.

(** The shape does not depend on [prevPtr], nor on anything but the
    fields it mentions. *)
Lemma shape_ext s s' bs fl :
  heap_shape s bs fl ->
  mem s' = mem s -> mem_lo s' = mem_lo s -> mem_brk s' = mem_brk s ->
  mem_max_addr s' = mem_max_addr s -> heap_listp s' = heap_listp s ->
  heap_shape s' bs fl.
Proof.
  intros H E1 E2 E3 E4 E5. destruct H.
  constructor; rewrite ?E1, ?E2, ?E3, ?E4, ?E5; auto.
Qed.

Lemma shape_fl_ext s bs fl fl' :
  heap_shape s bs fl -> (forall i, 0 <= i <= 8 -> fl' i = fl i) ->
  heap_shape s bs fl'.
Proof.
  intros H E. destruct H. constructor; auto.
  - intros i Hi. rewrite E by auto. auto.
  - intros i Hi. rewrite E by auto. auto.
  - intros i x Hi. rewrite E by auto. eauto.
  - intros i j x Hi Hj. rewrite !E by auto. eauto.
Qed.

(** *** Rewriting the tags of a run of blocks

    The blocks [mid] between [a] and [e] are replaced by the blocks
    [mid'] over the same bytes; memory changes only between [a] and [e],
    and the next fields of the list nodes in that range are kept. *)
Lemma shape_retag s bs1 mid mid' bs2 fl a e m' :
  heap_shape s (bs1 ++ mid ++ bs2) fl ->
  contig (heap_listp s + 76) bs1 a -> contig a mid e ->
  contig e bs2 (mem_brk s - 4) ->
  contig a mid' e ->
  Forall (tagged m') mid' ->
  (forall x, x < a \/ e <= x -> m' x = mem s x) ->
  (forall i x, 0 <= i <= 8 -> In x (fl i) -> a <= x < e ->
     node_ok mid' x /\ rd m' (x + 4) 8 = rd (mem s) (x + 4) 8) ->
  heap_shape (with_mem s m') (bs1 ++ mid' ++ bs2) fl.
Proof.
  intros H C1 C2 C3 C2' Ht Hout Hnode.
  pose proof (contig_le _ _ _ C1) as L1.
  pose proof (contig_le _ _ _ C2) as L2.
  pose proof (contig_le _ _ _ C3) as L3.
  assert (Hb1 : forall b, In b bs1 -> forall k, b_addr b <= k ->
            k + 4 <= b_addr b + b_size b -> rd m' k 4 = rd (mem s) k 4).
  { intros b Hb k K1 K2. pose proof (contig_range _ _ _ _ C1 Hb).
    apply rd_ext. intros x Hx. apply Hout. lia. }
  assert (Hb2 : forall b, In b bs2 -> forall k, b_addr b <= k ->
            k + 4 <= b_addr b + b_size b -> rd m' k 4 = rd (mem s) k 4).
  { intros b Hb k K1 K2. pose proof (contig_range _ _ _ _ C3 Hb).
    apply rd_ext. intros x Hx. apply Hout. lia. }
  assert (Hn : forall i x, 0 <= i <= 8 -> In x (fl i) ->
            node_ok (bs1 ++ mid' ++ bs2) x /\
            rd m' (x + 4) 8 = rd (mem s) (x + 4) 8).
  { intros i x Hi Hx.
    destruct (sh_nodes _ _ _ H i x Hi Hx) as (b & Hb & <-).
    apply in_app_or in Hb. destruct Hb as [Hb|Hb].
    - pose proof (contig_range _ _ _ _ C1 Hb). split.
      + exists b. split; auto. apply in_or_app. auto.
      + apply rd_ext. intros y Hy. apply Hout. lia.
    - apply in_app_or in Hb. destruct Hb as [Hb|Hb].
      + pose proof (contig_range _ _ _ _ C2 Hb).
        destruct (Hnode i (b_addr b) Hi Hx) as [(c & Hc & Ec) Hr]; [lia|].
        split; auto. exists c. split; auto.
        apply in_or_app. right. apply in_or_app. auto.
      + pose proof (contig_range _ _ _ _ C3 Hb). split.
        * exists b. split; auto.
          apply in_or_app. right. apply in_or_app. auto.
        * apply rd_ext. intros y Hy. apply Hout. lia. }
  pose proof H as H0. destruct H.
  constructor; cbn [mem mem_lo mem_brk mem_max_addr heap_listp with_mem]; auto.
  - apply contig_app. exists a. split; auto.
    apply contig_app. exists e. auto.
  - apply Forall_app in sh_tags0. destruct sh_tags0 as [T1 T2].
    apply Forall_app in T2. destruct T2 as [_ T2].
    rewrite Forall_forall in T1, T2.
    apply Forall_app. split; [|apply Forall_app; split; auto];
      apply Forall_forall; intros b Hb.
    + pose proof (contig_range _ _ _ _ C1 Hb).
      destruct (T1 b Hb) as [T T']. split.
      * rewrite (Hb1 b Hb) by lia. exact T.
      * rewrite (Hb1 b Hb) by lia. exact T'.
    + pose proof (contig_range _ _ _ _ C3 Hb).
      destruct (T2 b Hb) as [T T']. split.
      * rewrite (Hb2 b Hb) by lia. exact T.
      * rewrite (Hb2 b Hb) by lia. exact T'.
  - rewrite <- sh_prologue0. apply rd_ext. intros x Hx. apply Hout. lia.
  - rewrite <- sh_epilogue0. apply rd_ext. intros x Hx. apply Hout. lia.
  - intros i Hi.
    replace (rd m' (heap_listp s + 8 * i) 8)
      with (rd (mem s) (heap_listp s + 8 * i) 8).
    + apply lseg_frame with (m := mem s); [|exact (sh_chain0 i Hi)].
      intros x Hx. apply (Hn i x Hi Hx).
    + symmetry. apply rd_ext. intros x Hx. apply Hout. lia.
  - intros i x Hi Hx. apply (Hn i x Hi Hx).
Qed.

Lemma getIndex_range z : 0 <= getIndex z <= 8.
Proof.
  unfold getIndex.
  repeat match goal with
         | |- context [if ?c then _ else _] => destruct c
         end; lia.
Qed.

Lemma getIndex_mono x y : x <= y -> getIndex x <= getIndex y.
Proof.
  intros H. unfold getIndex.
  repeat match goal with
         | |- context [?a <=? ?b] => destruct (Z.leb_spec a b)
         end; lia.
Qed.

Lemma fl_set_same fl i L : fl_set fl i L i = L.
Proof. unfold fl_set. now rewrite Z.eqb_refl. Qed.

Lemma fl_set_other fl i L j : j <> i -> fl_set fl i L j = fl j.
Proof. intros H. unfold fl_set. destruct (Z.eqb_spec j i); [contradiction|reflexivity]. Qed.

(** *** Rewriting one list

    Memory changes only at the head of bucket [i] and at the next fields
    of the nodes in [N], none of which is on another list; the new list
    of bucket [i] is [L]. *)
Lemma shape_relist s bs fl i L m' (N : Z -> Prop) :
  heap_shape s bs fl -> 0 <= i <= 8 ->
  (forall x, x < heap_listp s + 8 * i \/ heap_listp s + 8 * i + 8 <= x ->
     (forall q, N q -> x < q + 4 \/ q + 12 <= x) -> m' x = mem s x) ->
  (forall q, N q -> node_ok bs q) ->
  (forall q j, N q -> 0 <= j <= 8 -> j <> i -> ~ In q (fl j)) ->
  chain m' (rd m' (heap_listp s + 8 * i) 8) L ->
  NoDup L ->
  (forall x, In x L -> node_ok bs x) ->
  (forall j x, 0 <= j <= 8 -> j <> i -> In x L -> ~ In x (fl j)) ->
  heap_shape (with_mem s m') bs (fl_set fl i L).
Proof.
  intros H Hi Hout HN HNj Hch Hnd HL HLj.
  assert (Hblk : forall b k, In b bs ->
            k = b_addr b \/ k = b_addr b + b_size b - 4 ->
            rd m' k 4 = rd (mem s) k 4).
  { intros b k Hb Hk.
    pose proof (shape_block _ _ _ _ H Hb) as (B1 & B2 & B3 & B4 & B5 & B6).
    apply rd_ext. intros x Hx. apply Hout; [lia|].
    intros q Hq. destruct (HN q Hq) as (c & Hc & <-).
    pose proof (shape_block _ _ _ _ H Hc) as (D1 & D2 & D3 & D4 & D5 & D6).
    destruct (contig_disjoint _ _ _ _ _ (sh_contig _ _ _ H) Hb Hc)
      as [->|[?|?]]; lia. }
  assert (Hnx : forall j x, 0 <= j <= 8 -> j <> i -> In x (fl j) ->
            rd m' (x + 4) 8 = rd (mem s) (x + 4) 8).
  { intros j x Hj Hji Hx.
    destruct (sh_nodes _ _ _ H j x Hj Hx) as (b & Hb & <-).
    pose proof (shape_block _ _ _ _ H Hb) as (B1 & B2 & B3 & B4 & B5 & B6).
    apply rd_ext. intros y Hy. apply Hout; [lia|].
    intros q Hq. destruct (HN q Hq) as (c & Hc & <-).
    pose proof (shape_block _ _ _ _ H Hc) as (D1 & D2 & D3 & D4 & D5 & D6).
    destruct (contig_disjoint _ _ _ _ _ (sh_contig _ _ _ H) Hb Hc)
      as [->|[?|?]]; try lia.
    exfalso. exact (HNj _ j Hq Hj Hji Hx). }
  pose proof H as H0. destruct H.
  constructor; cbn [mem mem_lo mem_brk mem_max_addr heap_listp with_mem]; auto.
  - rewrite Forall_forall in *. intros b Hb.
    destruct (sh_tags0 b Hb) as [T T']. split.
    + rewrite (Hblk b) by auto. exact T.
    + rewrite (Hblk b) by auto. exact T'.
  - rewrite <- sh_prologue0. apply rd_ext. intros x Hx. apply Hout; [lia|].
    intros q Hq. destruct (HN q Hq) as (c & Hc & <-).
    pose proof (shape_block _ _ _ _ H0 Hc). lia.
  - rewrite <- sh_epilogue0. apply rd_ext. intros x Hx.
    pose proof (shape_brk _ _ _ H0).
    apply Hout; [lia|].
    intros q Hq. destruct (HN q Hq) as (c & Hc & <-).
    pose proof (shape_block _ _ _ _ H0 Hc). lia.
  - intros j Hj. destruct (Z.eq_dec j i) as [->|Hji].
    + rewrite fl_set_same. exact Hch.
    + rewrite fl_set_other by auto.
      replace (rd m' (heap_listp s + 8 * j) 8)
        with (rd (mem s) (heap_listp s + 8 * j) 8).
      * apply lseg_frame with (m := mem s); [|exact (sh_chain0 j Hj)].
        intros x Hx. apply (Hnx j x Hj Hji Hx).
      * symmetry. apply rd_ext. intros x Hx. apply Hout; [lia|].
        intros q Hq. destruct (HN q Hq) as (c & Hc & <-).
        pose proof (shape_block _ _ _ _ H0 Hc). lia.
  - intros j Hj. destruct (Z.eq_dec j i) as [->|Hji].
    + now rewrite fl_set_same.
    + rewrite fl_set_other by auto. auto.
  - intros j x Hj. destruct (Z.eq_dec j i) as [->|Hji].
    + rewrite fl_set_same. auto.
    + rewrite fl_set_other by auto. eauto.
  - intros j k x Hj Hk.
    destruct (Z.eq_dec j i) as [->|Hji], (Z.eq_dec k i) as [->|Hki];
      rewrite ?fl_set_same, ?fl_set_other by auto; auto.
    + intros A B. exfalso. exact (HLj k x Hk Hki A B).
    + intros A B. exfalso. exact (HLj j x Hj Hji B A).
    + eauto.
Qed.

Lemma bucket_ok i s : bucket i s = Ok (heap_listp s + 8 * i) s.
Proof. reflexivity. Qed.

Lemma NEXT_FREE_ok p s :
  mem_lo s <= p + 4 -> p + 12 <= mem_brk s ->
  NEXT_FREE p s = Ok (rd (mem s) (p + 4) 8) s.
Proof. intros H1 H2. unfold NEXT_FREE, WSIZE. apply load_ok; simpl; lia. Qed.

Ltac step H := rewrite (bind_ok _ _ _ _ _ H); cbv beta.

Lemma list_snoc_case {A} (l : list A) : l = [] \/ exists l' x, l = l' ++ [x].
Proof.
  induction l as [|a l IH] using rev_ind; [now left|].
  right. now exists l, a.
Qed.

Lemma lseg_split m h l1 x l2 t :
  lseg m h (l1 ++ x :: l2) t ->
  lseg m h l1 x /\ x <> NULL /\ lseg m (rd m (x + 4) 8) l2 t.
Proof.
  intros H. apply lseg_app in H. destruct H as (mid & H1 & H2 & H3 & H4).
  subst mid. auto.
Qed.

Lemma lseg_snoc m h l q t :
  lseg m h (l ++ [q]) t <-> lseg m h l q /\ q <> NULL /\ rd m (q + 4) 8 = t.
Proof.
  rewrite lseg_app. simpl. split.
  - intros (mid & H1 & H2 & H3 & H4). subst. auto.
  - intros (H1 & H2 & H3). exists q. auto.
Qed.

(** A node of a well-shaped heap is a valid pointer. *)
Lemma shape_node_range s bs fl i x :
  heap_shape s bs fl -> 0 <= i <= 8 -> In x (fl i) ->
  mem_lo s <= x /\ x + 12 <= mem_brk s /\ 0 < x < 2 ^ 64 /\
  heap_listp s + 76 <= x.
Proof.
  intros H Hi Hx. destruct (sh_nodes _ _ _ H i x Hi Hx) as (b & Hb & <-).
  pose proof (shape_block _ _ _ _ H Hb) as (B1 & B2 & B3 & B4 & B5 & B6).
  destruct H. lia.
Qed.

Lemma shape_hd_range s bs fl i l :
  heap_shape s bs fl -> 0 <= i <= 8 -> (forall x, In x l -> In x (fl i)) ->
  0 <= hd NULL l < 2 ^ 64.
Proof.
  intros H Hi Hl. destruct l as [|x l]; simpl.
  - unfold NULL. lia.
  - pose proof (shape_node_range _ _ _ i x H Hi (Hl x (or_introl eq_refl))). lia.
Qed.

(** *** [relink]: unlinking a node whose predecessor is known *)
Lemma relink_spec s bs fl b l1 l2 :
  heap_shape s bs fl -> In b bs ->
  fl (getIndex (b_size b)) = l1 ++ b_addr b :: l2 ->
  exists m',
    relink (b_addr b) (last l1 NULL) s = Ok tt (with_mem s m') /\
    heap_shape (with_mem s m') bs (fl_set fl (getIndex (b_size b)) (l1 ++ l2)) /\
    (forall x, heap_listp s + 72 <= x ->
       x < last l1 NULL + 4 \/ last l1 NULL + 12 <= x -> m' x = mem s x).
Proof.
  intros H Hb Hfl.
  set (i := getIndex (b_size b)) in *. set (bp := b_addr b) in *.
  assert (Hi : 0 <= i <= 8) by apply getIndex_range.
  pose proof (shape_block _ _ _ _ H Hb) as (B1 & B2 & B3 & B4 & B5 & B6 & B7).
  pose proof (sh_lo _ _ _ H) as Hlo.
  pose proof (shape_brk _ _ _ H) as [Hbrk _].
  pose proof (sh_chain _ _ _ H i Hi) as Hch. unfold chain in Hch.
  rewrite Hfl in Hch. apply lseg_split in Hch. destruct Hch as (Hc1 & Hc2 & Hc3).
  pose proof (sh_nodup _ _ _ H i Hi) as Hnd. rewrite Hfl in Hnd.
  assert (Hin : forall x, In x (l1 ++ l2) -> In x (fl i)).
  { intros x Hx. rewrite Hfl. apply in_app_or in Hx. apply in_or_app.
    simpl. tauto. }
  set (nx := rd (mem s) (bp + 4) 8) in *.
  assert (Hnx : 0 <= nx < 2 ^ 64).
  { rewrite (lseg_head _ _ _ _ Hc3).
    apply (shape_hd_range _ _ _ i l2 H Hi).
    intros x Hx. apply Hin. apply in_or_app. auto. }
  assert (HGS : GET_SIZE bp s = Ok (b_size b) s).
  { apply GET_SIZE_tag with (al := b_alloc b); auto; lia. }
  assert (HNF : NEXT_FREE bp s = Ok nx s) by (apply NEXT_FREE_ok; lia).
  assert (Hnd' : NoDup (l1 ++ l2)) by (eapply NoDup_remove_1; eauto).
  assert (HLn : forall x, In x (l1 ++ l2) -> node_ok bs x).
  { intros x Hx. eapply sh_nodes; eauto. }
  assert (HLj : forall j x, 0 <= j <= 8 -> j <> i -> In x (l1 ++ l2) ->
            ~ In x (fl j)).
  { intros j x Hj Hji Hx Hxj. apply Hji.
    eapply sh_disj; eauto. }
  unfold relink. step HGS. fold i.
  destruct (list_snoc_case l1) as [->|(l1' & q & ->)].
  - cbn [last app] in *. change (NULL =? NULL) with true. cbv iota.
    step HNF. step (bucket_ok i s).
    rewrite store_ok by lia.
    eexists. split; [reflexivity|]. split.
    + apply shape_relist with (N := fun _ => False); auto; try tauto.
      * intros x Hx _. apply wr_out. lia.
      * rewrite rd_wr_8 by lia.
        apply lseg_frame with (m := mem s); auto.
        intros x Hx. apply rd_wr_other.
        pose proof (shape_node_range _ _ _ i x H Hi (Hin x Hx)). lia.
    + intros x Hx _. apply wr_out. lia.
  - rewrite last_last in *.
    apply lseg_snoc in Hc1. destruct Hc1 as (Hq1 & Hq2 & Hq3).
    assert (Hqi : In q (fl i)).
    { rewrite Hfl. apply in_or_app. left. apply in_or_app. simpl. auto. }
    pose proof (shape_node_range _ _ _ i q H Hi Hqi) as (Q1 & Q2 & Q3 & Q4).
    destruct (Z.eqb_spec q NULL) as [E|_]; [contradiction|].
    cbv zeta. step HNF. unfold WSIZE.
    rewrite store_ok by lia.
    eexists. split; [reflexivity|]. split.
    + apply shape_relist with (N := fun x => x = q); auto.
      * intros x Hx Hq. apply wr_out. specialize (Hq q eq_refl). lia.
      * intros x ->. eapply sh_nodes; eauto.
      * intros x j -> Hj Hji Hqj. apply Hji. eapply sh_disj; eauto.
      * assert (Hsl : rd (wr (mem s) (q + 4) 8 nx) (heap_listp s + 8 * i) 8
                      = rd (mem s) (heap_listp s + 8 * i) 8).
        { apply rd_wr_other. lia. }
        rewrite Hsl. unfold chain.
        rewrite <- app_assoc in Hnd, Hnd' |- *. cbn [app] in Hnd, Hnd' |- *.
        apply lseg_app. exists q. split.
        -- apply lseg_frame with (m := mem s); auto.
           intros x Hx. apply rd_wr_other.
           assert (x <> q).
           { intros ->. apply NoDup_remove_2 in Hnd'. apply Hnd'.
             apply in_or_app. auto. }
           assert (Hxi : In x (fl i)).
           { rewrite Hfl. apply in_or_app. left. apply in_or_app. auto. }
           destruct (sh_nodes _ _ _ H i x Hi Hxi) as (c & Hc & <-).
           destruct (sh_nodes _ _ _ H i q Hi Hqi) as (d & Hd & <-).
           pose proof (shape_block _ _ _ _ H Hc).
           pose proof (shape_block _ _ _ _ H Hd).
           destruct (contig_disjoint _ _ _ _ _ (sh_contig _ _ _ H) Hc Hd)
             as [->|[?|?]]; lia.
        -- cbn [lseg]. split; [reflexivity|]. split; [assumption|].
           rewrite rd_wr_8 by lia.
           apply lseg_frame with (m := mem s); auto.
           intros x Hx. apply rd_wr_other.
           assert (x <> q).
           { intros ->. apply NoDup_remove_2 in Hnd'. apply Hnd'.
             apply in_or_app. auto. }
           assert (Hxi : In x (fl i)).
           { rewrite Hfl. apply in_or_app. right. simpl. auto. }
           destruct (sh_nodes _ _ _ H i x Hi Hxi) as (c & Hc & <-).
           destruct (sh_nodes _ _ _ H i q Hi Hqi) as (d & Hd & <-).
           pose proof (shape_block _ _ _ _ H Hc).
           pose proof (shape_block _ _ _ _ H Hd).
           destruct (contig_disjoint _ _ _ _ _ (sh_contig _ _ _ H) Hc Hd)
             as [->|[?|?]]; lia.
    + intros x Hx Hq. apply wr_out. lia.
Qed.

(** *** The walks along a free list *)

Lemma last_cons {A} (a : A) l d : last (a :: l) d = last l a.
Proof.
  revert a d. induction l as [|b l IH]; intros a d; [reflexivity|].
  change (last (a :: b :: l) d) with (last (b :: l) d).
  rewrite !IH. reflexivity.
Qed.

Lemma with_prevPtr_id s : with_prevPtr s (prevPtr s) = s.
Proof. destruct s; reflexivity. Qed.

Lemma with_prevPtr_twice s p q :
  with_prevPtr (with_prevPtr s p) q = with_prevPtr s q.
Proof. reflexivity. Qed.

Lemma find_prev_loop_spec l1 : forall fuel s h p,
  lseg (mem s) h l1 p -> ~ In p l1 ->
  (forall x, In x l1 -> mem_lo s <= x + 4 /\ x + 12 <= mem_brk s) ->
  (length l1 < fuel)%nat ->
  find_prev_loop fuel p h s = Ok tt (with_prevPtr s (last l1 (prevPtr s))).
Proof.
  induction l1 as [|a l1 IH]; intros fuel s h p Hseg Hnin Hv Hf.
  - destruct fuel as [|k]; [simpl in Hf; lia|].
    simpl in Hseg. subst h. cbn [find_prev_loop last].
    rewrite Z.eqb_refl. now rewrite with_prevPtr_id.
  - destruct fuel as [|k]; [simpl in Hf; lia|].
    destruct Hseg as (-> & Ha & Hseg). cbn [find_prev_loop].
    destruct (Z.eqb_spec a p) as [->|Hap]; [exfalso; apply Hnin; now left|].
    assert (HNF : NEXT_FREE a (with_prevPtr s a)
                  = Ok (rd (mem s) (a + 4) 8) (with_prevPtr s a)).
    { apply (NEXT_FREE_ok a (with_prevPtr s a)); cbn; apply (Hv a); now left. }
    unfold bind at 1. unfold set_prevPtr at 1. step HNF.
    rewrite IH; auto.
    + rewrite last_cons. reflexivity.
    + intros H. apply Hnin. now right.
    + intros x Hx. cbn. apply Hv. now right.
    + simpl in Hf. lia.
Qed.

Lemma shape_list_length s bs fl i :
  heap_shape s bs fl -> 0 <= i <= 8 ->
  (length (fl i) <= Z.to_nat (mem_brk s - mem_lo s))%nat.
Proof.
  intros H Hi.
  pose proof (nodup_range_length (fl i) (mem_lo s) (mem_brk s - mem_lo s)
                (sh_nodup _ _ _ H i Hi)) as Hl.
  assert (forall x, In x (fl i) ->
            mem_lo s <= x < mem_lo s + (mem_brk s - mem_lo s)).
  { intros x Hx. pose proof (shape_node_range _ _ _ i x H Hi Hx). lia. }
  specialize (Hl H0). lia.
Qed.

(** *** [find_prev] on a block that is on the list of its bucket *)
Lemma find_prev_spec s bs fl b l1 l2 :
  heap_shape s bs fl -> In b bs ->
  fl (getIndex (b_size b)) = l1 ++ b_addr b :: l2 ->
  find_prev (b_addr b) s = Ok (last l1 NULL) (with_prevPtr s (last l1 NULL)).
Proof.
  intros H Hb Hfl.
  set (i := getIndex (b_size b)) in *. set (bp := b_addr b) in *.
  assert (Hi : 0 <= i <= 8) by apply getIndex_range.
  pose proof (shape_block _ _ _ _ H Hb) as (B1 & B2 & B3 & B4 & B5 & B6 & B7).
  pose proof (sh_lo _ _ _ H) as Hlo.
  pose proof (shape_brk _ _ _ H) as [Hbrk _].
  pose proof (sh_chain _ _ _ H i Hi) as Hch. unfold chain in Hch.
  rewrite Hfl in Hch. apply lseg_split in Hch. destruct Hch as (Hc1 & Hc2 & Hc3).
  pose proof (sh_nodup _ _ _ H i Hi) as Hnd. rewrite Hfl in Hnd.
  pose proof (shape_list_length _ _ _ i H Hi) as Hlen. rewrite Hfl in Hlen.
  assert (HGS : GET_SIZE bp s = Ok (b_size b) s).
  { apply GET_SIZE_tag with (al := b_alloc b); auto; lia. }
  assert (HLD : load 8 (heap_listp s + 8 * i) (with_prevPtr s NULL)
                = Ok (rd (mem s) (heap_listp s + 8 * i) 8) (with_prevPtr s NULL)).
  { apply (load_ok 8 _ (with_prevPtr s NULL));
      cbn [mem_lo mem_brk with_prevPtr]; lia. }
  assert (HLP : find_prev_loop (S (Z.to_nat (mem_brk s - mem_lo s))) bp
                  (rd (mem s) (heap_listp s + 8 * i) 8) (with_prevPtr s NULL)
                = Ok tt (with_prevPtr s (last l1 NULL))).
  { rewrite (find_prev_loop_spec l1 _ (with_prevPtr s NULL) _ bp Hc1).
    - reflexivity.
    - apply NoDup_remove_2 in Hnd. intros A. apply Hnd. apply in_or_app. auto.
    - intros x Hx.
      assert (Hxi : In x (fl i)) by (rewrite Hfl; apply in_or_app; auto).
      pose proof (shape_node_range _ _ _ i x H Hi Hxi).
      cbn [mem_lo mem_brk with_prevPtr]. lia.
    - rewrite length_app in Hlen. simpl in Hlen. lia. }
  unfold find_prev. step HGS. fold i.
  unfold bind at 1. unfold set_prevPtr at 1.
  step (bucket_ok i (with_prevPtr s NULL)).
  cbn [heap_listp with_prevPtr]. step HLD.
  unfold bind at 1. unfold walk_bound at 1.
  cbn [mem_lo mem_brk with_prevPtr]. step HLP.
  reflexivity.
Qed.

(** *** Pushing a block on the front of a list *)
Lemma shape_push s bs fl i b m' :
  heap_shape s bs fl -> 0 <= i <= 8 -> In b bs ->
  (forall j, 0 <= j <= 8 -> ~ In (b_addr b) (fl j)) ->
  rd m' (heap_listp s + 8 * i) 8 = b_addr b ->
  rd m' (b_addr b + 4) 8 = rd (mem s) (heap_listp s + 8 * i) 8 ->
  (forall x, x < heap_listp s + 8 * i \/ heap_listp s + 8 * i + 8 <= x ->
     x < b_addr b + 4 \/ b_addr b + 12 <= x -> m' x = mem s x) ->
  heap_shape (with_mem s m') bs (fl_set fl i (b_addr b :: fl i)).
Proof.
  intros H Hi Hb Hnin Hhd Hnx Hout.
  pose proof (shape_block _ _ _ _ H Hb) as (B1 & B2 & B3 & B4 & B5 & B6 & B7).
  pose proof (sh_lo _ _ _ H) as Hlo.
  apply shape_relist with (N := fun q => q = b_addr b); auto.
  - intros q ->. exists b. auto.
  - intros q j -> Hj _. auto.
  - rewrite Hhd. unfold chain. cbn [lseg]. split; [reflexivity|].
    split; [unfold NULL; lia|]. rewrite Hnx.
    apply lseg_frame with (m := mem s); [|exact (sh_chain _ _ _ H i Hi)].
    intros x Hx.
    destruct (sh_nodes _ _ _ H i x Hi Hx) as (c & Hc & <-).
    pose proof (shape_block _ _ _ _ H Hc) as (D1 & D2 & D3 & D4 & D5 & D6 & D7).
    apply rd_ext. intros y Hy.
    destruct (contig_disjoint _ _ _ _ _ (sh_contig _ _ _ H) Hb Hc)
      as [->|[?|?]].
    + exfalso. exact (Hnin i Hi Hx).
    + apply Hout; lia.
    + apply Hout; lia.
  - constructor; [apply Hnin; auto | apply (sh_nodup _ _ _ H); auto].
  - intros x [<-|Hx]; [exists b; auto | eapply sh_nodes; eauto].
  - intros j x Hj Hji [<-|Hx] Hxj.
    + exact (Hnin j Hj Hxj).
    + apply Hji. eapply sh_disj; eauto.
Qed.

(** *** Rewriting the tags of blocks that are on no list *)
Lemma shape_retag_clean s bs1 mid mid' bs2 fl a e m' :
  heap_shape s (bs1 ++ mid ++ bs2) fl ->
  contig (heap_listp s + 76) bs1 a -> contig a mid e ->
  contig e bs2 (mem_brk s - 4) ->
  (forall b j, In b mid -> 0 <= j <= 8 -> ~ In (b_addr b) (fl j)) ->
  contig a mid' e ->
  Forall (tagged m') mid' ->
  (forall x, x < a \/ e <= x -> m' x = mem s x) ->
  heap_shape (with_mem s m') (bs1 ++ mid' ++ bs2) fl.
Proof.
  intros H C1 C2 C3 Hnin C2' Ht Hout.
  eapply shape_retag; eauto.
  intros i x Hi Hx Hr. exfalso.
  destruct (sh_nodes _ _ _ H i x Hi Hx) as (c & Hc & <-).
  apply in_app_or in Hc. destruct Hc as [Hc|Hc].
  - pose proof (contig_range _ _ _ _ C1 Hc). lia.
  - apply in_app_or in Hc. destruct Hc as [Hc|Hc].
    + exact (Hnin c i Hc Hi Hx).
    + pose proof (contig_range _ _ _ _ C3 Hc). lia.
Qed.

Lemma tag_range sz al : 0 <= sz < 2 ^ 31 -> 0 <= tag sz al < 2 ^ 32.
Proof. intros H. unfold tag. pose proof (bit_range al). lia. Qed.

Lemma tagged_put m a sz al :
  8 <= sz < 2 ^ 31 ->
  tagged (wr (wr m a 4 (tag sz al)) (a + sz - 4) 4 (tag sz al)) (mkBlock a sz al).
Proof.
  intros H. pose proof (tag_range sz al ltac:(lia)).
  split; cbn [b_addr b_size b_alloc].
  - rewrite rd_wr_other by lia. apply rd_wr_4. assumption.
  - apply rd_wr_4. assumption.
Qed.

Lemma contig_single a sz al :
  16 <= sz -> sz mod 8 = 0 -> contig a [mkBlock a sz al] (a + sz).
Proof. intros. simpl. auto. Qed.

(** The position of a block inside the tiling. *)
Lemma shape_split s l1 b l2 fl :
  heap_shape s (l1 ++ b :: l2) fl ->
  contig (heap_listp s + 76) l1 (b_addr b) /\
  contig (b_addr b + b_size b) l2 (mem_brk s - 4).
Proof.
  intros H. pose proof (sh_contig _ _ _ H) as C.
  apply contig_app in C. destruct C as (mid & C1 & C2).
  simpl in C2. destruct C2 as (E & _ & _ & C2). subst mid. auto.
Qed.

Lemma same_geom_refl s : same_geom s s.
Proof. unfold same_geom. auto. Qed.

Lemma same_geom_trans s1 s2 s3 :
  same_geom s1 s2 -> same_geom s2 s3 -> same_geom s1 s3.
Proof. unfold same_geom. intuition congruence. Qed.

Lemma remove_mid_in (l1 l2 : list Z) p x :
  NoDup (l1 ++ p :: l2) ->
  (In x (l1 ++ l2) <-> In x (l1 ++ p :: l2) /\ x <> p).
Proof.
  intros Hnd. pose proof (NoDup_remove_2 _ _ _ Hnd) as Hp.
  rewrite !in_app_iff. simpl. rewrite in_app_iff in Hp.
  split.
  - intros H. split; [tauto|]. intros ->. tauto.
  - intros [[H|[H|H]] Hx]; auto. congruence.
Qed.

(** *** Unlinking a node whose predecessor has to be searched *)
Lemma unlink_spec s bs fl b :
  heap_shape s bs fl -> In b bs ->
  In (b_addr b) (fl (getIndex (b_size b))) ->
  exists s' fl',
    (prev <- find_prev (b_addr b) ;; relink (b_addr b) prev) s = Ok tt s' /\
    same_geom s s' /\
    heap_shape s' bs fl' /\
    (forall j x, 0 <= j <= 8 ->
       (In x (fl' j) <-> In x (fl j) /\ x <> b_addr b)) /\
    (forall x, heap_listp s + 72 <= x ->
       (forall q j, 0 <= j <= 8 -> In q (fl j) -> x < q + 4 \/ q + 12 <= x) ->
       mem s' x = mem s x).
Proof.
  intros H Hb Hin.
  set (i := getIndex (b_size b)) in *.
  assert (Hi : 0 <= i <= 8) by apply getIndex_range.
  destruct (in_split _ _ Hin) as (l1 & l2 & Hfl).
  pose proof (find_prev_spec _ _ _ _ _ _ H Hb Hfl) as HFP.
  assert (H' : heap_shape (with_prevPtr s (last l1 NULL)) bs fl).
  { eapply shape_ext; eauto. }
  destruct (relink_spec _ _ _ _ _ _ H' Hb Hfl) as (m' & HR & HS & HF).
  exists (with_mem (with_prevPtr s (last l1 NULL)) m'),
         (fl_set fl i (l1 ++ l2)).
  split; [|split; [|split; [|split]]].
  - step HFP. exact HR.
  - unfold same_geom. auto.
  - exact HS.
  - intros j x Hj. pose proof (sh_nodup _ _ _ H i Hi) as Hnd.
    rewrite Hfl in Hnd.
    destruct (Z.eq_dec j i) as [->|Hji].
    + rewrite fl_set_same, Hfl. apply remove_mid_in. exact Hnd.
    + rewrite fl_set_other by auto. split; [|tauto].
      intros Hx. split; auto. intros ->. apply Hji.
      apply (sh_disj _ _ _ H j i (b_addr b)); auto.
  - intros x Hx Hq. cbn [mem with_mem]. rewrite HF; auto.
    destruct (list_snoc_case l1) as [->|(l1' & q & ->)].
    + cbn [last]. unfold NULL.
      pose proof (sh_lo _ _ _ H). cbn [heap_listp with_prevPtr] in *. lia.
    + rewrite last_last. apply (Hq q i Hi). rewrite Hfl.
      apply in_or_app. left. apply in_or_app. simpl. auto.
Qed.

Lemma contig_mod a bs e : contig a bs e -> (e - a) mod 8 = 0.
Proof.
  revert a. induction bs as [|b bs IH]; simpl; intros a H.
  - subst. now rewrite Z.sub_diag.
  - destruct H as (H1 & H2 & H3 & H4). apply IH in H4.
    replace (e - a) with ((e - (a + b_size b)) + b_size b) by lia.
    rewrite Z.add_mod, H4, H3 by lia. reflexivity.
Qed.

Lemma contig_nonempty a bs e : contig a bs e -> bs <> [] -> a + 16 <= e.
Proof.
  destruct bs as [|b bs]; [congruence|]. simpl.
  intros (H1 & H2 & H3 & H4) _. apply contig_le in H4. lia.
Qed.

Lemma PUT_ok p v s :
  mem_lo s <= p -> p + 4 <= mem_brk s ->
  PUT p v s = Ok tt (with_mem s (wr (mem s) p 4 v)).
Proof. intros. unfold PUT. apply store_ok; lia. Qed.

Lemma FOOTER_ok p s sz :
  GET_SIZE p s = Ok sz s -> FOOTER p s = Ok (p + sz - 4) s.
Proof. intros H. unfold FOOTER. step H. reflexivity. Qed.

(** *** Merging a run of free blocks that are on no list

    The last statements of the merging cases of [coalesce]: the tags of
    the merged block are written and the block is pushed on the list of
    its bucket. *)
Lemma merge_spec s bs1 mid bs2 fl a e :
  heap_shape s (bs1 ++ mid ++ bs2) fl ->
  contig (heap_listp s + 76) bs1 a -> contig a mid e ->
  contig e bs2 (mem_brk s - 4) ->
  mid <> [] ->
  (forall b j, In b mid -> 0 <= j <= 8 -> ~ In (b_addr b) (fl j)) ->
  exists s',
    (PUT a (PACK (e - a) 0) ;;
     ft <- FOOTER a ;;
     PUT ft (PACK (e - a) 0) ;;
     push_merged a) s = Ok tt s' /\
    same_geom s s' /\
    heap_shape s' (bs1 ++ [mkBlock a (e - a) false] ++ bs2)
      (fl_set fl (getIndex (e - a)) (a :: fl (getIndex (e - a)))) /\
    (forall x, heap_listp s + 72 <= x -> x < a \/ e <= x ->
       mem s' x = mem s x).
Proof.
  intros H C1 C2 C3 Hne Hnin.
  pose proof (contig_le _ _ _ C1) as L1.
  pose proof (contig_nonempty _ _ _ C2 Hne) as L2.
  pose proof (contig_le _ _ _ C3) as L3.
  pose proof (contig_mod _ _ _ C2) as M2.
  pose proof (sh_lo _ _ _ H) as Hlo. pose proof (sh_max _ _ _ H) as Hmax.
  pose proof (sh_cap _ _ _ H) as Hcap. pose proof (sh_ptr _ _ _ H) as Hptr.
  set (total := e - a) in *.
  set (j := getIndex total). assert (Hj : 0 <= j <= 8) by apply getIndex_range.
  assert (Ht : 16 <= total < 2 ^ 31) by (unfold total; lia).
  assert (HP : PACK total 0 = tag total false).
  { apply (PACK_tag total false); [lia | now apply mod8_mod2]. }
  pose proof (tag_range total false ltac:(lia)) as Htr.
  set (t := tag total false) in *.
  set (m1 := wr (mem s) a 4 t).
  set (m2 := wr m1 (a + total - 4) 4 t).
  set (slot := heap_listp s + 8 * j).
  set (h := rd (mem s) slot 8).
  set (m3 := wr m2 slot 8 a).
  set (m4 := wr m3 (a + 4) 8 h).
  assert (Hh : 0 <= h < 2 ^ 64).
  { pose proof (sh_chain _ _ _ H j Hj) as Hc. apply lseg_head in Hc.
    unfold h, slot. rewrite Hc. apply (shape_hd_range _ _ _ j (fl j) H Hj). auto. }
  assert (Hfirst : forall k, 0 <= k <= 8 -> ~ In a (fl k)).
  { intros k Hk. destruct mid as [|b0 mid]; [congruence|].
    destruct C2 as (E & _). rewrite <- E. apply Hnin; simpl; auto. }
  (* the heap after the two tags are written *)
  assert (S2 : heap_shape (with_mem s m2)
                 (bs1 ++ [mkBlock a total false] ++ bs2) fl).
  { apply shape_retag_clean with (mid := mid) (a := a) (e := e); auto.
    - replace e with (a + total) by (unfold total; lia).
      apply contig_single; lia.
    - constructor; [|constructor]. apply tagged_put. lia.
    - intros x Hx. unfold m2, m1. rewrite !wr_out by lia. reflexivity. }
  assert (G1 : GET_SIZE a (with_mem s m1) = Ok total (with_mem s m1)).
  { apply GET_SIZE_tag with (al := false); cbn [mem mem_lo mem_brk with_mem];
      try lia; auto.
    unfold m1. apply rd_wr_4. exact Htr. }
  assert (G2 : GET_SIZE a (with_mem s m2) = Ok total (with_mem s m2)).
  { apply GET_SIZE_tag with (al := false); cbn [mem mem_lo mem_brk with_mem];
      try lia; auto.
    unfold m2. rewrite rd_wr_other by lia. unfold m1. apply rd_wr_4. exact Htr. }
  assert (Hslot : rd m2 slot 8 = h).
  { unfold m2, m1. rewrite !rd_wr_other by (unfold slot; lia). reflexivity. }
  exists (with_mem s m4). split; [|split; [|split]].
  - rewrite HP. fold t.
    step (PUT_ok a t s ltac:(lia) ltac:(lia)). fold m1.
    step (FOOTER_ok _ _ _ G1).
    step (PUT_ok (a + total - 4) t (with_mem s m1)
            ltac:(cbn [mem_lo with_mem]; lia) ltac:(cbn [mem_brk with_mem]; lia)).
    change (with_mem (with_mem s m1) (wr (mem (with_mem s m1)) (a + total - 4) 4 t))
      with (with_mem s m2).
    unfold push_merged. step G2. step (bucket_ok j (with_mem s m2)).
    cbn [heap_listp with_mem]. fold j. fold slot.
    step (load_ok 8 slot (with_mem s m2)
            ltac:(cbn [mem_lo with_mem]; unfold slot; lia)
            ltac:(cbn [mem_brk with_mem]; unfold slot; lia)).
    cbn [mem with_mem]. rewrite Hslot.
    step G2. step (bucket_ok j (with_mem s m2)).
    cbn [heap_listp with_mem]. fold j. fold slot.
    step (store_ok 8 slot a (with_mem s m2)
            ltac:(cbn [mem_lo with_mem]; unfold slot; lia)
            ltac:(cbn [mem_brk with_mem]; unfold slot; lia)).
    cbn [mem with_mem]. fold m3. unfold WSIZE.
    rewrite (store_ok 8 (a + 4) h (with_mem (with_mem s m2) m3)
            ltac:(cbn [mem_lo with_mem]; lia)
            ltac:(cbn [mem_brk with_mem]; lia)).
    reflexivity.
  - unfold same_geom. auto.
  - change (with_mem s m4) with (with_mem (with_mem s m2) m4).
    fold j.
    apply (shape_push (with_mem s m2) _ fl j (mkBlock a total false) m4); auto.
    + apply in_or_app. right. simpl. auto.
    + cbn [b_addr heap_listp with_mem]. fold slot. unfold m4.
      rewrite rd_wr_other by (unfold slot; lia). unfold m3.
      apply rd_wr_8. lia.
    + cbn [b_addr heap_listp mem with_mem]. fold slot. rewrite Hslot.
      unfold m4. apply rd_wr_8. exact Hh.
    + cbn [b_addr heap_listp mem with_mem]. fold slot. intros x Hx1 Hx2.
      unfold m4, m3. rewrite !wr_out by lia. reflexivity.
  - intros x Hx1 Hx2. cbn [mem with_mem]. unfold m4, m3, m2, m1.
    rewrite !wr_out by (unfold slot; lia). reflexivity.
Qed.

(** *** Neighbours *)

Lemma no_adjacent_free_cons b l :
  no_adjacent_free (b :: l) <->
  no_adjacent_free l /\ (b_alloc b = true \/ first_alloc l = true).
Proof.
  destruct l as [|c l]; simpl.
  - unfold first_alloc. simpl. tauto.
  - unfold first_alloc. simpl. tauto.
Qed.

Lemma last_alloc_cons c l :
  l <> [] -> last_alloc (c :: l) = last_alloc l.
Proof. intros H. destruct l; [contradiction|reflexivity]. Qed.

Lemma first_alloc_app l b l2 : first_alloc ((l ++ [b]) ++ l2) = first_alloc (l ++ [b]).
Proof. destruct l; reflexivity. Qed.

Lemma no_adjacent_free_mid l1 b l2 :
  no_adjacent_free (l1 ++ b :: l2) <->
  no_adjacent_free l1 /\ no_adjacent_free l2 /\
  (b_alloc b = true \/ (last_alloc l1 = true /\ first_alloc l2 = true)).
Proof.
  induction l1 as [|c l1 IH].
  - cbn [app]. rewrite no_adjacent_free_cons.
    unfold last_alloc. simpl. tauto.
  - cbn [app]. rewrite !no_adjacent_free_cons, IH.
    destruct l1 as [|c' l1].
    + unfold last_alloc, first_alloc. simpl. tauto.
    + rewrite (last_alloc_cons c (c' :: l1)) by discriminate.
      unfold first_alloc. simpl. tauto.
Qed.

Lemma last_alloc_snoc l c : last_alloc (l ++ [c]) = b_alloc c.
Proof. unfold last_alloc. now rewrite last_last. Qed.

Lemma no_adjacent_free_snoc l c :
  no_adjacent_free (l ++ [c]) <->
  no_adjacent_free l /\ (b_alloc c = true \/ last_alloc l = true).
Proof.
  rewrite no_adjacent_free_mid. unfold first_alloc. simpl. tauto.
Qed.

Lemma left_tag s l1 b l2 fl :
  heap_shape s (l1 ++ b :: l2) fl ->
  exists sz,
    rd (mem s) (b_addr b - 4) 4 = tag sz (last_alloc l1) /\
    sz mod 8 = 0 /\ 0 <= sz < 2 ^ 31 /\
    (last_alloc l1 = false ->
     exists l1' c, l1 = l1' ++ [c] /\ b_alloc c = false /\
                   b_size c = sz /\ b_addr c + sz = b_addr b).
Proof.
  intros H. destruct (shape_split _ _ _ _ _ H) as [C1 C2].
  destruct (list_snoc_case l1) as [->|(l1' & c & ->)].
  - simpl in C1. exists 0. split; [|split; [|split]]; try easy.
    rewrite <- C1. replace (heap_listp s + 76 - 4) with (heap_listp s + 72) by lia.
    exact (sh_prologue _ _ _ H).
  - assert (Hc : In c ((l1' ++ [c]) ++ b :: l2)).
    { apply in_or_app. left. apply in_or_app. simpl. auto. }
    pose proof (shape_block _ _ _ _ H Hc) as (B1 & B2 & B3 & B4 & B5 & B6 & B7).
    apply contig_app in C1. destruct C1 as (mid & _ & (E1 & _ & _ & E2)).
    simpl in E2. subst mid.
    exists (b_size c). rewrite last_alloc_snoc.
    split; [|split; [|split]]; auto; try lia.
    + rewrite <- E2. exact B7.
    + intros Hf. exists l1', c. auto.
Qed.

Lemma right_tag s l1 b l2 fl :
  heap_shape s (l1 ++ b :: l2) fl ->
  exists sz,
    rd (mem s) (b_addr b + b_size b) 4 = tag sz (first_alloc l2) /\
    sz mod 8 = 0 /\ 0 <= sz < 2 ^ 31 /\
    (first_alloc l2 = false ->
     exists d l2', l2 = d :: l2' /\ b_alloc d = false /\
                   b_size d = sz /\ b_addr d = b_addr b + b_size b).
Proof.
  intros H. destruct (shape_split _ _ _ _ _ H) as [C1 C2].
  destruct l2 as [|d l2'].
  - simpl in C2. exists 0. split; [|split; [|split]]; try easy.
    rewrite C2. exact (sh_epilogue _ _ _ H).
  - assert (Hd : In d (l1 ++ b :: d :: l2')).
    { apply in_or_app. right. simpl. auto. }
    pose proof (shape_block _ _ _ _ H Hd) as (B1 & B2 & B3 & B4 & B5 & B6 & B7).
    destruct C2 as (E1 & _).
    exists (b_size d). unfold first_alloc. cbn [hd].
    split; [|split; [|split]]; auto; try lia.
    + rewrite <- E1. exact B6.
    + intros Hf. exists d, l2'. auto.
Qed.

(** *** Membership in the free lists *)

Lemma free_in_app l1 l2 i x :
  free_in (l1 ++ l2) i x <-> free_in l1 i x \/ free_in l2 i x.
Proof.
  unfold free_in. split.
  - intros (sz & H & E). apply in_app_or in H. destruct H; eauto.
  - intros [(sz & H & E)|(sz & H & E)]; exists sz; split; auto;
      apply in_or_app; auto.
Qed.

Lemma free_in_cons b l i x :
  free_in (b :: l) i x <->
  (b_addr b = x /\ b_alloc b = false /\ getIndex (b_size b) = i) \/
  free_in l i x.
Proof.
  unfold free_in. split.
  - intros (sz & [H|H] & E).
    + left. subst b. auto.
    + right. eauto.
  - intros [(E1 & E2 & E3)|(sz & H & E)].
    + exists (b_size b). split; auto. left. destruct b; simpl in *. congruence.
    + exists sz. split; auto. now right.
Qed.

Lemma free_in_nil i x : free_in [] i x <-> False.
Proof. unfold free_in. split; [intros (sz & [] & _) | tauto]. Qed.

Lemma free_in_addr bs i x :
  free_in bs i x -> exists b, In b bs /\ b_addr b = x /\ b_alloc b = false.
Proof. intros (sz & H & E). exists (mkBlock x sz false). auto. Qed.

(** Taking the free blocks [mid] off the lists. *)
Lemma free_in_remove a0 pre mid post e0 i x :
  contig a0 (pre ++ mid ++ post) e0 ->
  (free_in (pre ++ mid ++ post) i x /\ (forall b, In b mid -> x <> b_addr b)
   <-> free_in pre i x \/ free_in post i x).
Proof.
  intros C. rewrite !free_in_app. split.
  - intros [[H|[H|H]] Hn]; auto.
    exfalso. destruct (free_in_addr _ _ _ H) as (b & Hb & E & _).
    apply (Hn b Hb). auto.
  - apply contig_app in C. destruct C as (a & C1 & C).
    apply contig_app in C. destruct C as (e & C2 & C3).
    pose proof (contig_le _ _ _ C2) as Hle.
    intros [H|H]; (split; [tauto|]); intros b Hb ->;
      destruct (free_in_addr _ _ _ H) as (c & Hc & E & _);
      pose proof (contig_range _ _ _ _ C2 Hb).
    + pose proof (contig_range _ _ _ _ C1 Hc). lia.
    + pose proof (contig_range _ _ _ _ C3 Hc). lia.
Qed.

Lemma lists_match_merge a0 pre mid post e0 fl fl2 a e :
  contig a0 (pre ++ mid ++ post) e0 ->
  contig a mid e ->
  lists_match (pre ++ mid ++ post) fl ->
  (forall j x, 0 <= j <= 8 ->
     (In x (fl2 j) <-> In x (fl j) /\ forall b, In b mid -> x <> b_addr b)) ->
  lists_match (pre ++ [mkBlock a (e - a) false] ++ post)
    (fl_set fl2 (getIndex (e - a)) (a :: fl2 (getIndex (e - a)))).
Proof.
  intros C Cm LM Hfl2 i x Hi.
  rewrite !free_in_app, free_in_cons, free_in_nil. cbn [b_addr b_size b_alloc].
  pose proof (free_in_remove _ _ _ _ _ i x C) as R.
  pose proof (LM i x Hi) as L. pose proof (Hfl2 i x Hi) as F.
  destruct (Z.eq_dec i (getIndex (e - a))) as [->|Hne].
  - rewrite fl_set_same. simpl. rewrite F. tauto.
  - rewrite fl_set_other by auto. rewrite F.
    assert (getIndex (e - a) <> i) by congruence. tauto.
Qed.

Lemma bind_assoc_ok {A B C} (c : M A) (f : A -> M B) (g : B -> M C) s b s' :
  (x <- c ;; f x) s = Ok b s' ->
  (x <- c ;; y <- f x ;; g y) s = g b s'.
Proof.
  unfold bind. destruct (c s) as [a s1| |]; try discriminate.
  intros H. now rewrite H.
Qed.

Lemma contig_det a bs e a' e' :
  contig a bs e -> contig a' bs e' -> bs <> [] -> a = a' /\ e = e'.
Proof.
  revert a a'. induction bs as [|b bs IH]; intros a a' H H' Hne; [congruence|].
  destruct H as (E1 & _ & _ & H). destruct H' as (E1' & _ & _ & H').
  subst a a'. split; [reflexivity|].
  destruct bs as [|c bs].
  - simpl in H, H'. congruence.
  - destruct (IH _ _ H H'); [discriminate|]. assumption.
Qed.

(** [relink bp NULL] on the block at the head of its list. *)
Lemma relink_head_spec s bs fl b :
  heap_shape s bs fl -> In b bs ->
  In (b_addr b) (fl (getIndex (b_size b))) ->
  hd NULL (fl (getIndex (b_size b))) = b_addr b ->
  exists s' fl',
    relink (b_addr b) NULL s = Ok tt s' /\
    same_geom s s' /\
    heap_shape s' bs fl' /\
    (forall j x, 0 <= j <= 8 ->
       (In x (fl' j) <-> In x (fl j) /\ x <> b_addr b)) /\
    (forall x, heap_listp s + 72 <= x -> mem s' x = mem s x).
Proof.
  intros H Hb Hin Hhd.
  set (i := getIndex (b_size b)) in *.
  assert (Hi : 0 <= i <= 8) by apply getIndex_range.
  destruct (fl i) as [|p rest] eqn:Hfl; [contradiction|].
  cbn [hd] in Hhd. subst p.
  destruct (relink_spec _ _ _ _ [] rest H Hb Hfl) as (m' & HR & HS & HF).
  cbn [last app] in *.
  exists (with_mem s m'), (fl_set fl i rest).
  split; [exact HR|]. split; [unfold same_geom; auto|]. split; [exact HS|].
  split.
  - intros j x Hj. pose proof (sh_nodup _ _ _ H i Hi) as Hnd.
    rewrite Hfl in Hnd.
    destruct (Z.eq_dec j i) as [->|Hji].
    + rewrite fl_set_same, Hfl. apply (remove_mid_in [] rest). exact Hnd.
    + rewrite fl_set_other by auto. split; [|tauto].
      intros Hx. split; auto. intros ->. apply Hji.
      apply (sh_disj _ _ _ H j i (b_addr b)); auto.
      rewrite Hfl. now left.
  - intros x Hx. cbn [mem with_mem]. apply HF; auto.
    unfold NULL. pose proof (sh_lo _ _ _ H). lia.
Qed.

(** The bytes of an allocated block are no head slot and no next field
    of a list node. *)
Lemma wf_alloc_outside s bs fl c x :
  heap_wf s bs fl -> In c bs -> b_alloc c = true ->
  b_addr c <= x < b_addr c + b_size c ->
  heap_listp s + 72 <= x /\
  (forall q j, 0 <= j <= 8 -> In q (fl j) -> x < q + 4 \/ q + 12 <= x).
Proof.
  intros [HS LM] Hc Ha Hx.
  pose proof (shape_block _ _ _ _ HS Hc) as (B1 & B2 & B3 & B4 & B5 & B6 & B7).
  split; [lia|]. intros q j Hj Hq.
  apply (LM j q Hj) in Hq. destruct (free_in_addr _ _ _ Hq) as (d & Hd & <- & Hf).
  pose proof (shape_block _ _ _ _ HS Hd) as (D1 & D2 & D3 & D4 & D5 & D6 & D7).
  destruct (contig_disjoint _ _ _ _ _ (sh_contig _ _ _ HS) Hc Hd)
    as [->|[?|?]]; [congruence|lia|lia].
Qed.

Lemma first_alloc_cons b l : first_alloc (b :: l) = b_alloc b.
Proof. reflexivity. Qed.

(** *** The common end of the merging cases of [coalesce]

    [s0] is the heap with the freed block on its list, [s2] the heap
    after the free blocks [mid] have been taken off their lists. *)
Lemma merge_finish_exact s0 s2 pre mid post fl fl2 a e :
  heap_wf s0 (pre ++ mid ++ post) fl ->
  (forall b, In b mid -> b_alloc b = false) -> mid <> [] -> contig a mid e ->
  same_geom s0 s2 -> heap_shape s2 (pre ++ mid ++ post) fl2 ->
  (forall j x, 0 <= j <= 8 ->
     (In x (fl2 j) <-> In x (fl j) /\ forall b, In b mid -> x <> b_addr b)) ->
  (forall x, heap_listp s0 + 72 <= x ->
     (forall q j, 0 <= j <= 8 -> In q (fl j) -> x < q + 4 \/ q + 12 <= x) ->
     mem s2 x = mem s0 x) ->
  no_adjacent_free pre -> no_adjacent_free post ->
  last_alloc pre = true -> first_alloc post = true ->
  exists s' fl',
    (PUT a (PACK (e - a) 0) ;;
     ft <- FOOTER a ;;
     PUT ft (PACK (e - a) 0) ;;
     push_merged a) s2 = Ok tt s' /\
    same_geom s0 s' /\
    heap_wf s' (pre ++ [mkBlock a (e - a) false] ++ post) fl' /\
    no_adjacent_free (pre ++ [mkBlock a (e - a) false] ++ post) /\
    (forall c, In c (pre ++ mid ++ post) -> b_alloc c = true ->
       In c (pre ++ [mkBlock a (e - a) false] ++ post) /\
       forall x, b_addr c <= x < b_addr c + b_size c -> mem s' x = mem s0 x) /\
    hd NULL (fl' (getIndex (e - a))) = a.
Proof.
  intros [HS0 LM] Hfree Hne Cm G HS2 Hchar Hfr NA1 NA2 LA RA.
  destruct G as (G1 & G2 & G3 & G4).
  pose proof (sh_contig _ _ _ HS2) as C.
  apply contig_app in C. destruct C as (a' & C1 & C).
  apply contig_app in C. destruct C as (e' & C2 & C3).
  destruct (contig_det _ _ _ _ _ Cm C2 Hne) as [<- <-].
  assert (Hnin : forall b j, In b mid -> 0 <= j <= 8 -> ~ In (b_addr b) (fl2 j)).
  { intros b j Hb Hj Hin. apply (Hchar j _ Hj) in Hin.
    destruct Hin as [_ Hin]. exact (Hin b Hb eq_refl). }
  destruct (merge_spec _ _ _ _ _ _ _ HS2 C1 C2 C3 Hne Hnin)
    as (s' & HR & (G1' & G2' & G3' & G4') & HS' & HF').
  exists s', (fl_set fl2 (getIndex (e - a)) (a :: fl2 (getIndex (e - a)))).
  split; [exact HR|]. split; [unfold same_geom; intuition congruence|].
  split; [split; [exact HS'|]|].
  { eapply lists_match_merge; eauto. exact (sh_contig _ _ _ HS0). }
  split.
  { cbn [app]. apply no_adjacent_free_mid. auto. }
  split.
  - intros c Hc Ha.
    assert (Hc' : In c pre \/ In c post).
    { apply in_app_or in Hc. destruct Hc as [Hc|Hc]; auto.
      apply in_app_or in Hc. destruct Hc as [Hc|Hc]; auto.
      rewrite (Hfree c Hc) in Ha. discriminate. }
    split.
    + apply in_or_app. destruct Hc' as [Hc'|Hc']; auto.
      right. apply in_or_app. auto.
    + intros x Hx.
      destruct (wf_alloc_outside s0 _ fl c x (conj HS0 LM) Hc Ha Hx) as [O1 O2].
      rewrite HF', Hfr; auto; try lia.
      destruct Hc' as [Hc'|Hc'].
      * pose proof (contig_range _ _ _ _ C1 Hc'). lia.
      * pose proof (contig_range _ _ _ _ C3 Hc'). lia.
  - now rewrite fl_set_same.
Qed.

Lemma block_eta b : mkBlock (b_addr b) (b_size b) (b_alloc b) = b.
Proof. destruct b; reflexivity. Qed.

Lemma wf_free_listed s bs fl b :
  heap_wf s bs fl -> In b bs -> b_alloc b = false ->
  In (b_addr b) (fl (getIndex (b_size b))).
Proof.
  intros [HS LM] Hb Hf. apply LM; [apply getIndex_range|].
  exists (b_size b). split; auto. rewrite <- Hf, block_eta. exact Hb.
Qed.

Lemma shape_GET_SIZE s bs fl b :
  heap_shape s bs fl -> In b bs -> GET_SIZE (b_addr b) s = Ok (b_size b) s.
Proof.
  intros H Hb.
  pose proof (shape_block _ _ _ _ H Hb) as (B1 & B2 & B3 & B4 & B5 & B6 & B7).
  pose proof (sh_lo _ _ _ H).
  apply GET_SIZE_tag with (al := b_alloc b); auto; lia.
Qed.

Ltac char_solve :=
  let H := fresh in
  split;
  [ intros H; repeat match goal with
                     | H : _ /\ _ |- _ => destruct H
                     end;
    split; [assumption|];
    let b' := fresh in let Hb' := fresh in
    intros b' Hb'; simpl in Hb';
    repeat match goal with
           | H : _ \/ _ |- _ => destruct H
           end; subst; tauto
  | intros [? H]; repeat split; try assumption; apply H; simpl; auto ].

(** [s32 (u32 z)] is the identity on block sizes. *)
Lemma s32_u32_small z : 0 <= z < 2 ^ 31 -> s32 (u32 z) = z.
Proof. intros H. rewrite u32_small by lia. apply s32_small. exact H. Qed.

(** *** [coalesce] on a block that has just been put on its list *)
Lemma coalesced_none l1 b l2 :
  last_alloc l1 = true -> first_alloc l2 = true -> b_alloc b = false ->
  merged_block l1 b l2 = b /\ coalesced l1 b l2 = l1 ++ b :: l2.
Proof.
  intros LA RA Hb.
  assert (E : merged_block l1 b l2 = b).
  { unfold merged_block. cbv zeta.
    change (b_alloc (last l1 sentinel)) with (last_alloc l1).
    change (b_alloc (hd sentinel l2)) with (first_alloc l2).
    rewrite LA, RA, <- Hb.
    replace (0 + b_size b + 0) with (b_size b) by lia. apply block_eta. }
  split; [exact E|]. unfold coalesced. now rewrite E, LA, RA.
Qed.

Lemma coalesced_right l1 b d l2 :
  last_alloc l1 = true -> b_alloc d = false ->
  b_addr d = b_addr b + b_size b ->
  merged_block l1 b (d :: l2)
  = mkBlock (b_addr b) (b_addr d + b_size d - b_addr b) false /\
  coalesced l1 b (d :: l2)
  = l1 ++ [mkBlock (b_addr b) (b_addr d + b_size d - b_addr b) false] ++ l2.
Proof.
  intros LA Hd Ha.
  assert (E : merged_block l1 b (d :: l2)
              = mkBlock (b_addr b) (b_addr d + b_size d - b_addr b) false).
  { unfold merged_block. cbv zeta.
    change (b_alloc (last l1 sentinel)) with (last_alloc l1).
    cbn [hd]. rewrite LA, Hd. f_equal. lia. }
  split; [exact E|]. unfold coalesced. rewrite E, LA.
  unfold first_alloc. cbn [hd tl]. rewrite Hd. reflexivity.
Qed.

Lemma coalesced_left l1 c b l2 :
  b_alloc c = false -> first_alloc l2 = true ->
  b_addr c + b_size c = b_addr b ->
  merged_block (l1 ++ [c]) b l2
  = mkBlock (b_addr c) (b_addr b + b_size b - b_addr c) false /\
  coalesced (l1 ++ [c]) b l2
  = l1 ++ [mkBlock (b_addr c) (b_addr b + b_size b - b_addr c) false] ++ l2.
Proof.
  intros Hc RA Ha.
  assert (E : merged_block (l1 ++ [c]) b l2
              = mkBlock (b_addr c) (b_addr b + b_size b - b_addr c) false).
  { unfold merged_block. cbv zeta. rewrite last_last.
    change (b_alloc (hd sentinel l2)) with (first_alloc l2).
    rewrite RA, Hc. f_equal. lia. }
  split; [exact E|]. unfold coalesced. rewrite E, RA.
  unfold last_alloc. rewrite last_last, Hc, removelast_last. reflexivity.
Qed.

Lemma coalesced_both l1 c b d l2 :
  b_alloc c = false -> b_alloc d = false ->
  b_addr c + b_size c = b_addr b -> b_addr d = b_addr b + b_size b ->
  merged_block (l1 ++ [c]) b (d :: l2)
  = mkBlock (b_addr c) (b_addr d + b_size d - b_addr c) false /\
  coalesced (l1 ++ [c]) b (d :: l2)
  = l1 ++ [mkBlock (b_addr c) (b_addr d + b_size d - b_addr c) false] ++ l2.
Proof.
  intros Hc Hd Ha Ha'.
  assert (E : merged_block (l1 ++ [c]) b (d :: l2)
              = mkBlock (b_addr c) (b_addr d + b_size d - b_addr c) false).
  { unfold merged_block. cbv zeta. rewrite last_last. cbn [hd].
    rewrite Hc, Hd. f_equal. lia. }
  split; [exact E|]. unfold coalesced. rewrite E.
  unfold last_alloc, first_alloc. cbn [hd tl].
  rewrite last_last, Hc, Hd, removelast_last. reflexivity.
Qed.

(** The merged block covers the block that was freed. *)
Lemma merged_block_covers s l1 b l2 fl :
  heap_shape s (l1 ++ b :: l2) fl ->
  b_addr (merged_block l1 b l2) <= b_addr b /\
  b_addr b + b_size b
  <= b_addr (merged_block l1 b l2) + b_size (merged_block l1 b l2).
Proof.
  intros HS.
  destruct (left_tag _ _ _ _ _ HS) as (lsz & _ & _ & HL3 & HL4).
  destruct (right_tag _ _ _ _ _ HS) as (rsz & _ & _ & HR3 & HR4).
  unfold merged_block. cbv zeta. cbn [b_addr b_size].
  change (b_alloc (last l1 sentinel)) with (last_alloc l1).
  change (b_alloc (hd sentinel l2)) with (first_alloc l2).
  destruct (last_alloc l1) eqn:LA, (first_alloc l2) eqn:RA.
  - lia.
  - destruct (HR4 eq_refl) as (d & l2' & -> & _ & Hds & _). cbn [hd]. lia.
  - destruct (HL4 eq_refl) as (l1' & c & -> & _ & Hcs & Hca).
    rewrite last_last. lia.
  - destruct (HL4 eq_refl) as (l1' & c & -> & _ & Hcs & Hca).
    destruct (HR4 eq_refl) as (d & l2' & -> & _ & Hds & _).
    rewrite last_last. cbn [hd]. lia.
Qed.

Lemma coalesce_exact s l1 b l2 fl :
  heap_wf s (l1 ++ b :: l2) fl -> b_alloc b = false ->
  hd NULL (fl (getIndex (b_size b))) = b_addr b ->
  no_adjacent_free l1 -> no_adjacent_free l2 ->
  exists s' fl',
    coalesce (b_addr b) s = Ok tt s' /\ same_geom s s' /\
    heap_wf s' (coalesced l1 b l2) fl' /\
    no_adjacent_free (coalesced l1 b l2) /\
    (forall c, In c (l1 ++ b :: l2) -> b_alloc c = true ->
       In c (coalesced l1 b l2) /\
       forall x, b_addr c <= x < b_addr c + b_size c -> mem s' x = mem s x) /\
    hd NULL (fl' (getIndex (b_size (merged_block l1 b l2))))
    = b_addr (merged_block l1 b l2).
Proof.
  intros HW Hbf Hhd NA1 NA2. pose proof HW as [HS LM].
  assert (Hb : In b (l1 ++ b :: l2)) by (apply in_or_app; simpl; auto).
  pose proof (shape_block _ _ _ _ HS Hb) as (B1 & B2 & B3 & B4 & B5 & B6 & B7).
  pose proof (sh_lo _ _ _ HS) as Hlo.
  pose proof (sh_max _ _ _ HS) as Hmax. pose proof (sh_cap _ _ _ HS) as Hcap.
  destruct (left_tag _ _ _ _ _ HS) as (lsz & HL1 & HL2 & HL3 & HL4).
  destruct (right_tag _ _ _ _ _ HS) as (rsz & HR1 & HR2 & HR3 & HR4).
  assert (GA1 : GET_ALLOC (b_addr b - 4) s = Ok (bit (last_alloc l1)) s).
  { apply GET_ALLOC_tag with (sz := lsz); auto; lia. }
  pose proof (shape_GET_SIZE _ _ _ _ HS Hb) as GS.
  assert (GA2 : GET_ALLOC (b_addr b + b_size b) s
                = Ok (bit (first_alloc l2)) s).
  { apply GET_ALLOC_tag with (sz := rsz); auto; lia. }
  pose proof (wf_free_listed _ _ _ _ HW Hb Hbf) as Hbin.
  destruct (relink_head_spec _ _ _ _ HS Hb Hbin Hhd)
    as (sa & fla & RLa & Ga & HSa & CHa & FRa).
  pose proof Ga as (Ga1 & Ga2 & Ga3 & Ga4).
  unfold coalesce, WSIZE. step GA1. step GS. step GA2.
  destruct (last_alloc l1) eqn:LA, (first_alloc l2) eqn:RA; cbn [bit].
  - (* both neighbours allocated *)
    change ((1 =? 1) && (1 =? 1)) with true. cbv iota.
    destruct (coalesced_none l1 b l2 LA RA Hbf) as [EM EC].
    rewrite EM, EC. exists s, fl.
    split; [reflexivity|]. split; [apply same_geom_refl|].
    split; [exact HW|]. split; [apply no_adjacent_free_mid; auto|].
    split; [auto|]. exact Hhd.
  - (* right neighbour free *)
    change ((1 =? 1) && (0 =? 1)) with false.
    change ((1 =? 0) && (0 =? 1)) with false.
    change ((1 =? 1) && (0 =? 0)) with true. cbv iota.
    destruct (HR4 eq_refl) as (d & l2' & -> & Hdf & Hds & Hda). subst rsz.
    assert (Hd : In d (l1 ++ b :: d :: l2')).
    { apply in_or_app. right. simpl. auto. }
    pose proof (shape_block _ _ _ _ HS Hd) as (D1 & D2 & D3 & D4 & D5 & D6 & D7).
    apply no_adjacent_free_cons in NA2. destruct NA2 as [NA2 NA2'].
    assert (RA' : first_alloc l2' = true) by (destruct NA2'; congruence).
    step GS. cbv zeta. rewrite <- Hda.
    step RLa.
    assert (Hdin : In (b_addr d) (fla (getIndex (b_size d)))).
    { apply CHa; [apply getIndex_range|]. split; [|lia].
      apply (wf_free_listed _ _ _ _ HW Hd Hdf). }
    destruct (unlink_spec _ _ _ _ HSa Hd Hdin)
      as (sb & flb & ULb & Gb & HSb & CHb & FRb).
    pose proof Gb as (Gb1 & Gb2 & Gb3 & Gb4).
    rewrite (bind_assoc_ok _ _ _ _ _ _ ULb).
    step (shape_GET_SIZE _ _ _ _ HSb Hd). step (shape_GET_SIZE _ _ _ _ HSb Hb).
    cbv zeta. rewrite s32_u32_small by lia.
    replace (b_size d + b_size b) with (b_addr d + b_size d - b_addr b) by lia.
    change (l1 ++ b :: d :: l2') with (l1 ++ [b; d] ++ l2') in *.
    destruct (merge_finish_exact s sb l1 [b; d] l2' fl flb (b_addr b)
                (b_addr d + b_size d)) as (s' & fl' & R1 & R2 & R3 & R4 & R5 & R6);
      auto.
    + intros c [<-|[<-|[]]]; auto.
    + discriminate.
    + simpl. repeat split; auto; lia.
    + eapply same_geom_trans; eauto.
    + intros j x Hj. rewrite (CHb j x Hj), (CHa j x Hj). char_solve.
    + intros x Hx Hq. rewrite FRb, FRa; auto; try lia.
      intros q j Hj Hin. apply (CHa j q Hj) in Hin. apply (Hq q j Hj). tauto.
    + destruct (coalesced_right l1 b d l2' LA Hdf Hda) as [EM EC].
      rewrite EM, EC. cbn [b_addr b_size].
      exists s', fl'. repeat (split; [assumption|]). exact R6.
  - (* left neighbour free *)
    change ((0 =? 1) && (1 =? 1)) with false.
    change ((0 =? 0) && (1 =? 1)) with true. cbv iota.
    destruct (HL4 eq_refl) as (l1' & c & -> & Hcf & Hcs & Hca). subst lsz.
    assert (Hc : In c ((l1' ++ [c]) ++ b :: l2)).
    { apply in_or_app. left. apply in_or_app. simpl. auto. }
    pose proof (shape_block _ _ _ _ HS Hc) as (D1 & D2 & D3 & D4 & D5 & D6 & D7).
    apply no_adjacent_free_snoc in NA1. destruct NA1 as [NA1 NA1'].
    assert (LA' : last_alloc l1' = true) by (destruct NA1'; congruence).
    assert (GSL : GET_SIZE (b_addr b - 4) s = Ok (b_size c) s).
    { apply GET_SIZE_tag with (al := false); auto; lia. }
    step GSL. cbv zeta.
    replace (b_addr b - b_size c) with (b_addr c) by lia.
    step RLa.
    assert (Hcin : In (b_addr c) (fla (getIndex (b_size c)))).
    { apply CHa; [apply getIndex_range|]. split; [|lia].
      apply (wf_free_listed _ _ _ _ HW Hc Hcf). }
    destruct (unlink_spec _ _ _ _ HSa Hc Hcin)
      as (sb & flb & ULb & Gb & HSb & CHb & FRb).
    pose proof Gb as (Gb1 & Gb2 & Gb3 & Gb4).
    rewrite (bind_assoc_ok _ _ _ _ _ _ ULb).
    step (shape_GET_SIZE _ _ _ _ HSb Hc). step (shape_GET_SIZE _ _ _ _ HSb Hb).
    cbv zeta. rewrite s32_u32_small by lia.
    replace (b_size c + b_size b) with (b_addr b + b_size b - b_addr c) by lia.
    assert (E : (l1' ++ [c]) ++ b :: l2 = l1' ++ [c; b] ++ l2)
      by (rewrite <- app_assoc; reflexivity).
    rewrite E in *.
    destruct (merge_finish_exact s sb l1' [c; b] l2 fl flb (b_addr c)
                (b_addr b + b_size b)) as (s' & fl' & R1 & R2 & R3 & R4 & R5 & R6);
      auto.
    + intros c0 [<-|[<-|[]]]; auto.
    + discriminate.
    + simpl. repeat split; auto; lia.
    + eapply same_geom_trans; eauto.
    + intros j x Hj. rewrite (CHb j x Hj), (CHa j x Hj). char_solve.
    + intros x Hx Hq. rewrite FRb, FRa; auto; try lia.
      intros q j Hj Hin. apply (CHa j q Hj) in Hin. apply (Hq q j Hj). tauto.
    + destruct (coalesced_left l1' c b l2 Hcf RA Hca) as [EM EC].
      rewrite EM, EC. cbn [b_addr b_size].
      exists s', fl'. repeat (split; [assumption|]). exact R6.
  - (* both neighbours free *)
    change ((0 =? 1) && (0 =? 1)) with false.
    change ((0 =? 0) && (0 =? 1)) with false.
    change ((0 =? 1) && (0 =? 0)) with false. cbv iota.
    destruct (HL4 eq_refl) as (l1' & c & -> & Hcf & Hcs & Hca). subst lsz.
    destruct (HR4 eq_refl) as (d & l2' & -> & Hdf & Hds & Hda). subst rsz.
    assert (Hc : In c ((l1' ++ [c]) ++ b :: d :: l2')).
    { apply in_or_app. left. apply in_or_app. simpl. auto. }
    assert (Hd : In d ((l1' ++ [c]) ++ b :: d :: l2')).
    { apply in_or_app. right. simpl. auto. }
    pose proof (shape_block _ _ _ _ HS Hc) as (C1 & C2 & C3 & C4 & C5 & C6 & C7).
    pose proof (shape_block _ _ _ _ HS Hd) as (D1 & D2 & D3 & D4 & D5 & D6 & D7).
    apply no_adjacent_free_snoc in NA1. destruct NA1 as [NA1 NA1'].
    assert (LA' : last_alloc l1' = true) by (destruct NA1'; congruence).
    apply no_adjacent_free_cons in NA2. destruct NA2 as [NA2 NA2'].
    assert (RA' : first_alloc l2' = true) by (destruct NA2'; congruence).
    assert (GSL : GET_SIZE (b_addr b - 4) s = Ok (b_size c) s).
    { apply GET_SIZE_tag with (al := false); auto; lia. }
    step GS. step GSL. cbv zeta.
    replace (b_addr b - b_size c) with (b_addr c) by lia.
    rewrite <- Hda.
    step RLa.
    assert (Hdin : In (b_addr d) (fla (getIndex (b_size d)))).
    { apply CHa; [apply getIndex_range|]. split; [|lia].
      apply (wf_free_listed _ _ _ _ HW Hd Hdf). }
    destruct (unlink_spec _ _ _ _ HSa Hd Hdin)
      as (sb & flb & ULb & Gb & HSb & CHb & FRb).
    pose proof Gb as (Gb1 & Gb2 & Gb3 & Gb4).
    rewrite (bind_assoc_ok _ _ _ _ _ _ ULb).
    assert (Hcin : In (b_addr c) (flb (getIndex (b_size c)))).
    { apply CHb; [apply getIndex_range|]. split; [|lia].
      apply CHa; [apply getIndex_range|]. split; [|lia].
      apply (wf_free_listed _ _ _ _ HW Hc Hcf). }
    destruct (unlink_spec _ _ _ _ HSb Hc Hcin)
      as (sc & flc & ULc & Gc & HSc & CHc & FRc).
    pose proof Gc as (Gc1 & Gc2 & Gc3 & Gc4).
    rewrite (bind_assoc_ok _ _ _ _ _ _ ULc).
    step (shape_GET_SIZE _ _ _ _ HSc Hd). step (shape_GET_SIZE _ _ _ _ HSc Hb).
    step (shape_GET_SIZE _ _ _ _ HSc Hc).
    cbv zeta. rewrite (u32_small (b_size d + b_size b)) by lia.
    rewrite s32_u32_small by lia.
    replace (b_size d + b_size b + b_size c)
      with (b_addr d + b_size d - b_addr c) by lia.
    assert (E : (l1' ++ [c]) ++ b :: d :: l2' = l1' ++ [c; b; d] ++ l2')
      by (rewrite <- app_assoc; reflexivity).
    rewrite E in *.
    destruct (merge_finish_exact s sc l1' [c; b; d] l2' fl flc (b_addr c)
                (b_addr d + b_size d)) as (s' & fl' & R1 & R2 & R3 & R4 & R5 & R6);
      auto.
    + intros c0 [<-|[<-|[<-|[]]]]; auto.
    + discriminate.
    + simpl. repeat split; auto; lia.
    + eapply same_geom_trans; [|eauto]. eapply same_geom_trans; eauto.
    + intros j x Hj. rewrite (CHc j x Hj), (CHb j x Hj), (CHa j x Hj). char_solve.
    + intros x Hx Hq. rewrite FRc, FRb, FRa; auto; try lia.
      * intros q j Hj Hin. apply (CHa j q Hj) in Hin. apply (Hq q j Hj). tauto.
      * intros q j Hj Hin. apply (CHb j q Hj) in Hin. destruct Hin as [Hin _].
        apply (CHa j q Hj) in Hin. apply (Hq q j Hj). tauto.
    + destruct (coalesced_both l1' c b d l2' Hcf Hdf Hca Hda) as [EM EC].
      rewrite EM, EC. cbn [b_addr b_size].
      exists s', fl'. repeat (split; [assumption|]). exact R6.
Qed.

Lemma coalesce_spec s l1 b l2 fl :
  heap_wf s (l1 ++ b :: l2) fl -> b_alloc b = false ->
  hd NULL (fl (getIndex (b_size b))) = b_addr b ->
  no_adjacent_free l1 -> no_adjacent_free l2 ->
  exists s' bs' fl',
    coalesce (b_addr b) s = Ok tt s' /\ same_geom s s' /\
    heap_wf s' bs' fl' /\ no_adjacent_free bs' /\
    (forall c, In c (l1 ++ b :: l2) -> b_alloc c = true ->
       In c bs' /\
       forall x, b_addr c <= x < b_addr c + b_size c -> mem s' x = mem s x) /\
    (exists c, In c bs' /\ b_alloc c = false /\ b_addr c <= b_addr b /\
               b_addr b + b_size b <= b_addr c + b_size c).
Proof.
  intros HW Hbf Hhd NA1 NA2.
  destruct (coalesce_exact s l1 b l2 fl HW Hbf Hhd NA1 NA2)
    as (s' & fl' & R1 & R2 & R3 & R4 & R5 & _).
  exists s', (coalesced l1 b l2), fl'. repeat (split; [assumption|]).
  exists (merged_block l1 b l2).
  split; [unfold coalesced; apply in_or_app; simpl; auto|].
  split; [reflexivity|]. exact (merged_block_covers _ _ _ _ _ (proj1 HW)).
Qed.

(** When both neighbours are allocated [coalesce] changes nothing. *)
Lemma coalesce_none s l1 b l2 fl :
  heap_shape s (l1 ++ b :: l2) fl ->
  last_alloc l1 = true -> first_alloc l2 = true ->
  coalesce (b_addr b) s = Ok tt s.
Proof.
  intros HS LA RA.
  assert (Hb : In b (l1 ++ b :: l2)) by (apply in_or_app; simpl; auto).
  pose proof (shape_block _ _ _ _ HS Hb) as (B1 & B2 & B3 & B4 & B5 & B6 & B7).
  pose proof (sh_lo _ _ _ HS) as Hlo.
  destruct (left_tag _ _ _ _ _ HS) as (lsz & HL1 & HL2 & HL3 & HL4).
  destruct (right_tag _ _ _ _ _ HS) as (rsz & HR1 & HR2 & HR3 & HR4).
  rewrite LA in HL1. rewrite RA in HR1.
  assert (GA1 : GET_ALLOC (b_addr b - 4) s = Ok (bit true) s).
  { apply GET_ALLOC_tag with (sz := lsz); auto; lia. }
  assert (GA2 : GET_ALLOC (b_addr b + b_size b) s = Ok (bit true) s).
  { apply GET_ALLOC_tag with (sz := rsz); auto; lia. }
  unfold coalesce, WSIZE. step GA1. step (shape_GET_SIZE _ _ _ _ HS Hb).
  step GA2. reflexivity.
Qed.

(** A block that is on no list, whatever its tags say. *)
Lemma unlisted s l1 b l2 fl j :
  heap_shape s (l1 ++ b :: l2) fl ->
  lists_match (l1 ++ set_alloc b true :: l2) fl ->
  0 <= j <= 8 -> ~ In (b_addr b) (fl j).
Proof.
  intros HS LM Hj Hin. destruct (shape_split _ _ _ _ _ HS) as [C1 C2].
  assert (Hb : In b (l1 ++ b :: l2)) by (apply in_or_app; simpl; auto).
  pose proof (shape_block _ _ _ _ HS Hb) as (B1 & B2 & B3 & B4 & B5 & B6 & B7).
  apply (LM j _ Hj) in Hin.
  rewrite free_in_app, free_in_cons in Hin. cbn [b_alloc set_alloc] in Hin.
  destruct Hin as [Hin|[Hin|Hin]].
  - destruct (free_in_addr _ _ _ Hin) as (c & Hc & E & _).
    pose proof (contig_range _ _ _ _ C1 Hc). lia.
  - destruct Hin as (_ & Hin & _). discriminate.
  - destruct (free_in_addr _ _ _ Hin) as (c & Hc & E & _).
    pose proof (contig_range _ _ _ _ C2 Hc). lia.
Qed.

(** *** [free] up to its call of [coalesce]: the block is tagged free
    and pushed on the list of its bucket. *)
Lemma free_push_spec s l1 b l2 fl :
  heap_shape s (l1 ++ b :: l2) fl ->
  lists_match (l1 ++ set_alloc b true :: l2) fl ->
  exists s1,
    free_push (b_addr b + 4) s = Ok tt s1 /\
    same_geom s s1 /\
    heap_wf s1 (l1 ++ set_alloc b false :: l2)
      (fl_set fl (getIndex (b_size b))
         (b_addr b :: fl (getIndex (b_size b)))) /\
    (forall x, heap_listp s + 72 <= x ->
       x < b_addr b \/ b_addr b + b_size b <= x -> mem s1 x = mem s x).
Proof.
  intros HS LM.
  assert (Hb : In b (l1 ++ b :: l2)) by (apply in_or_app; simpl; auto).
  pose proof (shape_block _ _ _ _ HS Hb) as (B1 & B2 & B3 & B4 & B5 & B6 & B7).
  pose proof (sh_lo _ _ _ HS) as Hlo.
  pose proof (sh_max _ _ _ HS) as Hmax. pose proof (sh_ptr _ _ _ HS) as Hptr.
  pose proof (shape_brk _ _ _ HS) as [Hbrk _].
  destruct (shape_split _ _ _ _ _ HS) as [C1 C2].
  set (bp := b_addr b) in *. set (sz := b_size b) in *.
  set (i := getIndex sz). assert (Hi : 0 <= i <= 8) by apply getIndex_range.
  assert (HP : PACK sz 0 = tag sz false).
  { apply (PACK_tag sz false); [lia | now apply mod8_mod2]. }
  pose proof (tag_range sz false ltac:(lia)) as Htr.
  set (t := tag sz false) in *.
  set (m1 := wr (mem s) bp 4 t).
  set (m2 := wr m1 (bp + sz - 4) 4 t).
  set (slot := heap_listp s + 8 * i).
  set (h := rd (mem s) slot 8).
  set (m3 := wr m2 (bp + 4) 8 h).
  set (m4 := wr m3 slot 8 bp).
  assert (Hh : 0 <= h < 2 ^ 64).
  { pose proof (sh_chain _ _ _ HS i Hi) as Hc. apply lseg_head in Hc.
    unfold h, slot. rewrite Hc. apply (shape_hd_range _ _ _ i (fl i) HS Hi). auto. }
  assert (S2 : heap_shape (with_mem s m2) (l1 ++ [set_alloc b false] ++ l2) fl).
  { apply shape_retag_clean with (mid := [b]) (a := bp) (e := bp + sz); auto.
    - simpl. fold sz. repeat split; try reflexivity; try assumption; lia.
    - intros c j [<-|[]] Hj. eapply unlisted; eauto.
    - apply contig_single; lia.
    - constructor; [|constructor]. apply tagged_put. lia.
    - intros x Hx. unfold m2, m1. rewrite !wr_out by lia. reflexivity. }
  assert (G0 : GET_SIZE bp s = Ok sz s) by (apply (shape_GET_SIZE _ _ _ _ HS Hb)).
  assert (G1 : GET_SIZE bp (with_mem s m1) = Ok sz (with_mem s m1)).
  { apply GET_SIZE_tag with (al := false); cbn [mem mem_lo mem_brk with_mem];
      try lia; auto.
    unfold m1. apply rd_wr_4. exact Htr. }
  assert (G2 : GET_SIZE bp (with_mem s m2) = Ok sz (with_mem s m2)).
  { apply GET_SIZE_tag with (al := false); cbn [mem mem_lo mem_brk with_mem];
      try lia; auto.
    unfold m2. rewrite rd_wr_other by lia. unfold m1. apply rd_wr_4. exact Htr. }
  assert (Hslot : rd m2 slot 8 = h).
  { unfold m2, m1. rewrite !rd_wr_other by (unfold slot; lia). reflexivity. }
  exists (with_mem s m4). split; [|split; [|split]].
  - unfold free_push, WSIZE.
    cbv zeta. replace (bp + 4 - 4) with bp by lia.
    step G0. rewrite HP. fold t.
    step (PUT_ok bp t s ltac:(lia) ltac:(lia)). fold m1.
    step (FOOTER_ok _ _ _ G1). step G1.
    rewrite HP. fold t.
    step (PUT_ok (bp + sz - 4) t (with_mem s m1)
            ltac:(cbn [mem_lo with_mem]; lia) ltac:(cbn [mem_brk with_mem]; lia)).
    change (with_mem (with_mem s m1) (wr (mem (with_mem s m1)) (bp + sz - 4) 4 t))
      with (with_mem s m2).
    step G2. rewrite s32_small by lia. rewrite u64_small by lia. fold i.
    step (bucket_ok i (with_mem s m2)).
    cbn [heap_listp with_mem]. fold slot.
    step (load_ok 8 slot (with_mem s m2)
            ltac:(cbn [mem_lo with_mem]; unfold slot; lia)
            ltac:(cbn [mem_brk with_mem]; unfold slot; lia)).
    cbn [mem with_mem]. rewrite Hslot.
    step (store_ok 8 (bp + 4) h (with_mem s m2)
            ltac:(cbn [mem_lo with_mem]; lia) ltac:(cbn [mem_brk with_mem]; lia)).
    cbn [mem with_mem]. fold m3.
    step (bucket_ok i (with_mem (with_mem s m2) m3)).
    cbn [heap_listp with_mem]. fold slot.
    rewrite (store_ok 8 slot bp (with_mem (with_mem s m2) m3)
               ltac:(cbn [mem_lo with_mem]; unfold slot; lia)
               ltac:(cbn [mem_brk with_mem]; unfold slot; lia)).
    reflexivity.
  - unfold same_geom. auto.
  - split.
    + change (with_mem s m4) with (with_mem (with_mem s m2) m4).
      change (l1 ++ set_alloc b false :: l2)
        with (l1 ++ [set_alloc b false] ++ l2).
      apply (shape_push (with_mem s m2) _ fl i (set_alloc b false) m4); auto.
      * apply in_or_app. right. simpl. auto.
      * intros j Hj. cbn [b_addr set_alloc]. eapply unlisted; eauto.
      * cbn [b_addr set_alloc heap_listp with_mem]. fold slot. fold bp.
        unfold m4. apply rd_wr_8. lia.
      * cbn [b_addr set_alloc heap_listp mem with_mem]. fold slot. fold bp.
        rewrite Hslot. unfold m4. rewrite rd_wr_other by (unfold slot; lia).
        unfold m3. apply rd_wr_8. exact Hh.
      * cbn [b_addr set_alloc heap_listp mem with_mem]. fold slot. fold bp.
        intros x Hx1 Hx2. unfold m4, m3. rewrite !wr_out by lia. reflexivity.
    + intros j x Hj. pose proof (LM j x Hj) as L.
      rewrite free_in_app, free_in_cons in L |- *.
      cbn [b_addr b_size b_alloc set_alloc] in L |- *. fold sz bp i.
      destruct (Z.eq_dec j i) as [->|Hji].
      * rewrite fl_set_same. simpl. rewrite L.
        split; [intros [E|[H|[H|H]]]|intros [H|[H|H]]]; auto;
          try tauto; try (destruct H as (_ & H & _); discriminate).
      * rewrite fl_set_other by auto. rewrite L.
        split; [intros [H|[H|H]]|intros [H|[H|H]]]; auto;
          try tauto; try (destruct H as (_ & H & _); discriminate).
        destruct H as (_ & _ & H). congruence.
  - intros x Hx1 Hx2. cbn [mem with_mem]. unfold m4, m3, m2, m1.
    rewrite !wr_out by (unfold slot; lia). reflexivity.
Qed.

Lemma bind_assoc {A B C} (c : M A) (f : A -> M B) (g : B -> M C) s :
  bind (bind c f) g s = bind c (fun a => bind (f a) g) s.
Proof. unfold bind. destruct (c s); reflexivity. Qed.

Lemma bind_ext {A B} (c : M A) (f g : A -> M B) s :
  (forall a s', f a s' = g a s') -> bind c f s = bind c g s.
Proof. intros H. unfold bind. destruct (c s); auto. Qed.

(** [free] of a pointer that is not [NULL] is [free_push] followed by
    [coalesce]. *)
Lemma free_push_coalesce ptr s :
  ptr <> NULL ->
  free ptr s = (free_push ptr ;; coalesce (ptr - WSIZE)) s.
Proof.
  intros Hne. unfold free, free_push.
  destruct (Z.eqb_spec ptr NULL) as [E|_]; [contradiction|]. cbv zeta.
  repeat (rewrite bind_assoc; apply bind_ext; intros).
  reflexivity.
Qed.

Lemma free_insert_spec s l1 b l2 fl :
  heap_shape s (l1 ++ b :: l2) fl ->
  lists_match (l1 ++ set_alloc b true :: l2) fl ->
  exists s1,
    free (b_addr b + 4) s = coalesce (b_addr b) s1 /\
    same_geom s s1 /\
    heap_wf s1 (l1 ++ set_alloc b false :: l2)
      (fl_set fl (getIndex (b_size b))
         (b_addr b :: fl (getIndex (b_size b)))) /\
    (forall x, heap_listp s + 72 <= x ->
       x < b_addr b \/ b_addr b + b_size b <= x -> mem s1 x = mem s x).
Proof.
  intros HS LM.
  assert (Hb : In b (l1 ++ b :: l2)) by (apply in_or_app; simpl; auto).
  pose proof (shape_block _ _ _ _ HS Hb) as (B1 & _).
  pose proof (sh_lo _ _ _ HS) as Hlo.
  destruct (free_push_spec _ _ _ _ _ HS LM) as (s1 & E & R).
  exists s1. split; [|exact R].
  rewrite free_push_coalesce by (unfold NULL; lia).
  step E. unfold WSIZE. f_equal. lia.
Qed.

(** *** [free] *)
Lemma free_spec s l1 b l2 fl :
  heap_shape s (l1 ++ b :: l2) fl ->
  lists_match (l1 ++ set_alloc b true :: l2) fl ->
  no_adjacent_free l1 -> no_adjacent_free l2 ->
  exists s' bs' fl',
    free (b_addr b + 4) s = Ok tt s' /\ same_geom s s' /\
    heap_wf s' bs' fl' /\ no_adjacent_free bs' /\
    (forall c, In c (l1 ++ l2) -> b_alloc c = true ->
       In c bs' /\
       forall x, b_addr c <= x < b_addr c + b_size c -> mem s' x = mem s x) /\
    (exists c, In c bs' /\ b_alloc c = false /\ b_addr c <= b_addr b /\
               b_addr b + b_size b <= b_addr c + b_size c).
Proof.
  intros HS LM NA1 NA2.
  destruct (shape_split _ _ _ _ _ HS) as [C1 C2].
  pose proof (contig_le _ _ _ C1) as L1.
  assert (Hb : In b (l1 ++ b :: l2)) by (apply in_or_app; simpl; auto).
  pose proof (shape_block _ _ _ _ HS Hb) as (B1 & B2 & B3 & B4 & B5 & B6 & B7).
  destruct (free_insert_spec _ _ _ _ _ HS LM) as (s1 & E1 & G1 & W1 & F1).
  destruct (coalesce_spec s1 l1 (set_alloc b false) l2 _ W1 eq_refl)
    as (s' & bs' & fl' & E2 & G2 & W2 & NA & SV & CV); auto.
  { cbn [b_size b_addr set_alloc]. now rewrite fl_set_same. }
  exists s', bs', fl'.
  split; [rewrite E1; exact E2|]. split; [eapply same_geom_trans; eauto|].
  split; [exact W2|]. split; [exact NA|]. split; [|exact CV].
  intros c Hc Ha.
  assert (Hc' : In c (l1 ++ set_alloc b false :: l2)).
  { apply in_app_or in Hc. apply in_or_app. simpl. tauto. }
  destruct (SV c Hc' Ha) as [S1 S2]. split; [exact S1|].
  intros x Hx. rewrite S2 by exact Hx. apply F1.
  - apply in_app_or in Hc. destruct Hc as [Hc|Hc].
    + pose proof (contig_range _ _ _ _ C1 Hc). lia.
    + pose proof (contig_range _ _ _ _ C2 Hc). lia.
  - apply in_app_or in Hc. destruct Hc as [Hc|Hc].
    + pose proof (contig_range _ _ _ _ C1 Hc). lia.
    + pose proof (contig_range _ _ _ _ C2 Hc). lia.
Qed.

(** [free] of a block between two allocated neighbours. *)
Lemma free_alone s l1 b l2 fl :
  heap_shape s (l1 ++ b :: l2) fl ->
  lists_match (l1 ++ set_alloc b true :: l2) fl ->
  last_alloc l1 = true -> first_alloc l2 = true ->
  exists s',
    free (b_addr b + 4) s = Ok tt s' /\ same_geom s s' /\
    heap_wf s' (l1 ++ set_alloc b false :: l2)
      (fl_set fl (getIndex (b_size b))
         (b_addr b :: fl (getIndex (b_size b)))) /\
    (forall x, heap_listp s + 72 <= x ->
       x < b_addr b \/ b_addr b + b_size b <= x -> mem s' x = mem s x).
Proof.
  intros HS LM LA RA.
  destruct (free_insert_spec _ _ _ _ _ HS LM) as (s1 & E1 & G1 & W1 & F1).
  exists s1. split; [|auto].
  rewrite E1. destruct W1 as [HS1 _].
  exact (coalesce_none s1 l1 (set_alloc b false) l2 _ HS1 LA RA).
Qed.

(** *** The search of [first_fit] *)

Lemma size_at_in a bs e b :
  contig a bs e -> In b bs -> size_at bs (b_addr b) = b_size b.
Proof.
  intros C Hb. unfold size_at.
  destruct (find (fun b0 => b_addr b0 =? b_addr b) bs) as [c|] eqn:F.
  - apply find_some in F. destruct F as [Hc E]. apply Z.eqb_eq in E.
    now rewrite (contig_addr_inj _ _ _ _ _ C Hc Hb E).
  - pose proof (find_none _ _ F b Hb) as E. simpl in E.
    rewrite Z.eqb_refl in E. discriminate.
Qed.

Lemma node_GET_SIZE s bs fl x :
  heap_shape s bs fl -> node_ok bs x ->
  GET_SIZE x s = Ok (size_at bs x) s /\
  mem_lo s <= x + 4 /\ x + 12 <= mem_brk s.
Proof.
  intros H (b & Hb & <-).
  rewrite (size_at_in _ _ _ _ (sh_contig _ _ _ H) Hb).
  pose proof (shape_block _ _ _ _ H Hb) as (B1 & B2 & B3 & B4 & B5 & B6 & B7).
  pose proof (sh_lo _ _ _ H).
  split; [apply (shape_GET_SIZE _ _ _ _ H Hb)|lia].
Qed.

Lemma first_fit_scan_hit bs fl l1 : forall fuel s h asize x l2 t,
  heap_shape s bs fl ->
  lseg (mem s) h (l1 ++ x :: l2) t ->
  (forall y, In y (l1 ++ [x]) -> node_ok bs y) ->
  (forall y, In y l1 -> size_at bs y < asize) ->
  asize <= size_at bs x ->
  (length l1 < fuel)%nat ->
  first_fit_scan fuel asize h s
  = Ok (Some x) (with_prevPtr s (last l1 (prevPtr s))).
Proof.
  induction l1 as [|a l1 IH]; intros fuel s h asize x l2 t HS Hseg Hn Hlt Hge Hf.
  - destruct fuel as [|k]; [simpl in Hf; lia|].
    destruct Hseg as (-> & Hx & _). cbn [first_fit_scan last].
    destruct (Z.eqb_spec x NULL) as [E|_]; [contradiction|].
    destruct (node_GET_SIZE _ _ _ x HS (Hn x (or_introl eq_refl))) as (G & _).
    step G. destruct (Z.leb_spec asize (size_at bs x)); [|lia].
    now rewrite with_prevPtr_id.
  - destruct fuel as [|k]; [simpl in Hf; lia|].
    destruct Hseg as (-> & Ha & Hseg). cbn [first_fit_scan].
    destruct (Z.eqb_spec a NULL) as [E|_]; [contradiction|].
    destruct (node_GET_SIZE _ _ _ a HS (Hn a (or_introl eq_refl))) as (G & V1 & V2).
    step G. pose proof (Hlt a (or_introl eq_refl)).
    destruct (Z.leb_spec asize (size_at bs a)); [lia|].
    unfold bind at 1. unfold set_prevPtr at 1.
    step (NEXT_FREE_ok a (with_prevPtr s a) V1 V2).
    cbn [mem with_prevPtr].
    rewrite (IH k (with_prevPtr s a) _ asize x l2 t); auto.
    + rewrite last_cons. reflexivity.
    + eapply shape_ext; eauto.
    + intros y Hy. apply Hn. now right.
    + intros y Hy. apply Hlt. now right.
    + simpl in Hf. lia.
Qed.

Lemma first_fit_scan_miss bs fl L : forall fuel s h asize,
  heap_shape s bs fl ->
  lseg (mem s) h L NULL ->
  (forall y, In y L -> node_ok bs y) ->
  (forall y, In y L -> size_at bs y < asize) ->
  (length L < fuel)%nat ->
  first_fit_scan fuel asize h s
  = Ok None (with_prevPtr s (last L (prevPtr s))).
Proof.
  induction L as [|a L IH]; intros fuel s h asize HS Hseg Hn Hlt Hf.
  - destruct fuel as [|k]; [simpl in Hf; lia|].
    simpl in Hseg. subst h. cbn [first_fit_scan last].
    rewrite Z.eqb_refl. now rewrite with_prevPtr_id.
  - destruct fuel as [|k]; [simpl in Hf; lia|].
    destruct Hseg as (-> & Ha & Hseg). cbn [first_fit_scan].
    destruct (Z.eqb_spec a NULL) as [E|_]; [contradiction|].
    destruct (node_GET_SIZE _ _ _ a HS (Hn a (or_introl eq_refl))) as (G & V1 & V2).
    step G. pose proof (Hlt a (or_introl eq_refl)).
    destruct (Z.leb_spec asize (size_at bs a)); [lia|].
    unfold bind at 1. unfold set_prevPtr at 1.
    step (NEXT_FREE_ok a (with_prevPtr s a) V1 V2).
    cbn [mem with_prevPtr].
    rewrite (IH k (with_prevPtr s a) _ asize); auto.
    + rewrite last_cons. reflexivity.
    + eapply shape_ext; eauto.
    + intros y Hy. apply Hn. now right.
    + intros y Hy. apply Hlt. now right.
    + simpl in Hf. lia.
Qed.

Lemma shape_head s bs fl i :
  heap_shape s bs fl -> 0 <= i <= 8 ->
  load 8 (heap_listp s + 8 * i) s = Ok (hd NULL (fl i)) s.
Proof.
  intros H Hi. pose proof (sh_lo _ _ _ H). pose proof (shape_brk _ _ _ H) as [? _].
  rewrite load_ok by lia.
  now rewrite (lseg_head _ _ _ _ (sh_chain _ _ _ H i Hi)).
Qed.

Lemma first_fit_escalate_none bs fl n : forall k s,
  heap_shape s bs fl -> n = Z.to_nat (9 - k) -> 0 <= k ->
  (forall j, k <= j <= 8 -> fl j = []) ->
  first_fit_escalate n k s = Ok NULL s.
Proof.
  induction n as [|n IH]; intros k s HS Hn Hk He; [reflexivity|].
  cbn [first_fit_escalate]. step (bucket_ok k s).
  step (shape_head _ _ _ k HS ltac:(lia)).
  rewrite He by lia. cbn [hd]. rewrite Z.eqb_refl.
  apply IH; auto; try lia. intros j Hj. apply He. lia.
Qed.

Lemma first_fit_escalate_hit bs fl n : forall k s j0 y rest,
  heap_shape s bs fl -> n = Z.to_nat (9 - k) -> 0 <= k ->
  k <= j0 <= 8 -> (forall j, k <= j < j0 -> fl j = []) ->
  fl j0 = y :: rest ->
  first_fit_escalate n k s = Ok y (with_prevPtr s NULL).
Proof.
  induction n as [|n IH]; intros k s j0 y rest HS Hn Hk Hj0 He Hy; [lia|].
  cbn [first_fit_escalate]. step (bucket_ok k s).
  step (shape_head _ _ _ k HS ltac:(lia)).
  destruct (Z.eq_dec k j0) as [->|Hne].
  - rewrite Hy. cbn [hd].
    assert (y <> NULL).
    { eapply lseg_nonnull; [exact (sh_chain _ _ _ HS j0 ltac:(lia))|].
      rewrite Hy. now left. }
    destruct (Z.eqb_spec y NULL); [contradiction|]. reflexivity.
  - rewrite He by lia. cbn [hd]. rewrite Z.eqb_refl.
    apply (IH (k + 1) s j0 y rest); auto; try lia.
    intros j Hj. apply He. lia.
Qed.

Lemma first_fit_prefix s bs fl asize index :
  heap_shape s bs fl -> 0 <= index <= 8 ->
  first_fit asize index s
  = (r <- first_fit_scan (S (Z.to_nat (mem_brk s - mem_lo s))) asize
            (hd NULL (fl index)) ;;
     match r with
     | Some p => ret p
     | None => first_fit_escalate (Z.to_nat (9 - (index + 1))) (index + 1)
     end) (with_prevPtr s NULL).
Proof.
  intros HS Hi.
  assert (HS0 : heap_shape (with_prevPtr s NULL) bs fl)
    by (eapply shape_ext; eauto).
  unfold first_fit. unfold bind at 1. unfold set_prevPtr at 1.
  step (bucket_ok index (with_prevPtr s NULL)).
  step (shape_head _ _ _ index HS0 Hi).
  unfold bind at 1. unfold walk_bound at 1. reflexivity.
Qed.

(** First fit inside the natural bucket. *)
Lemma first_fit_hit s bs fl asize index l1 x l2 :
  heap_shape s bs fl -> 0 <= index <= 8 ->
  fl index = l1 ++ x :: l2 ->
  (forall y, In y l1 -> size_at bs y < asize) ->
  asize <= size_at bs x ->
  first_fit asize index s = Ok x (with_prevPtr s (last l1 NULL)).
Proof.
  intros HS Hi Hfl Hlt Hge.
  assert (HS0 : heap_shape (with_prevPtr s NULL) bs fl)
    by (eapply shape_ext; eauto).
  rewrite (first_fit_prefix _ _ _ _ _ HS Hi).
  pose proof (sh_chain _ _ _ HS0 index Hi) as Hc. unfold chain in Hc.
  rewrite (lseg_head _ _ _ _ Hc) in Hc. rewrite Hfl in Hc.
  pose proof (shape_list_length _ _ _ index HS Hi) as Hlen.
  rewrite Hfl, length_app in Hlen. simpl in Hlen.
  rewrite Hfl.
  rewrite (bind_ok _ _ _ _ _
    (first_fit_scan_hit bs fl l1 (S (Z.to_nat (mem_brk s - mem_lo s)))
       (with_prevPtr s NULL) _ asize x l2 NULL
       HS0 Hc
       ltac:(intros y Hy; apply (sh_nodes _ _ _ HS index y Hi);
             rewrite Hfl; apply in_app_or in Hy; apply in_or_app;
             simpl in *; tauto)
       Hlt Hge ltac:(lia))).
  reflexivity.
Qed.

(** No fit in the natural bucket: the head of the next bucket that is
    not empty. *)
Lemma first_fit_up s bs fl asize index j0 y rest :
  heap_shape s bs fl -> 0 <= index <= 8 ->
  (forall z, In z (fl index) -> size_at bs z < asize) ->
  index < j0 <= 8 -> (forall j, index < j < j0 -> fl j = []) ->
  fl j0 = y :: rest ->
  first_fit asize index s = Ok y (with_prevPtr s NULL).
Proof.
  intros HS Hi Hlt Hj0 He Hy.
  assert (HS0 : heap_shape (with_prevPtr s NULL) bs fl)
    by (eapply shape_ext; eauto).
  rewrite (first_fit_prefix _ _ _ _ _ HS Hi).
  pose proof (sh_chain _ _ _ HS0 index Hi) as Hc. unfold chain in Hc.
  rewrite (lseg_head _ _ _ _ Hc) in Hc.
  pose proof (shape_list_length _ _ _ index HS Hi) as Hlen.
  rewrite (bind_ok _ _ _ _ _
    (first_fit_scan_miss bs fl (fl index) (S (Z.to_nat (mem_brk s - mem_lo s)))
       (with_prevPtr s NULL) _ asize
       HS0 Hc (fun z Hz => sh_nodes _ _ _ HS index z Hi Hz) Hlt ltac:(lia))).
  cbv beta iota.
  rewrite (first_fit_escalate_hit bs fl _ (index + 1) _ j0 y rest); auto;
    try lia.
  - eapply shape_ext; eauto.
  - intros j Hj. apply He. lia.
Qed.

(** No fit in the natural bucket and nothing above it. *)
Lemma first_fit_null s bs fl asize index :
  heap_shape s bs fl -> 0 <= index <= 8 ->
  (forall z, In z (fl index) -> size_at bs z < asize) ->
  (forall j, index < j <= 8 -> fl j = []) ->
  first_fit asize index s = Ok NULL (with_prevPtr s (last (fl index) NULL)).
Proof.
  intros HS Hi Hlt He.
  assert (HS0 : heap_shape (with_prevPtr s NULL) bs fl)
    by (eapply shape_ext; eauto).
  rewrite (first_fit_prefix _ _ _ _ _ HS Hi).
  pose proof (sh_chain _ _ _ HS0 index Hi) as Hc. unfold chain in Hc.
  rewrite (lseg_head _ _ _ _ Hc) in Hc.
  pose proof (shape_list_length _ _ _ index HS Hi) as Hlen.
  rewrite (bind_ok _ _ _ _ _
    (first_fit_scan_miss bs fl (fl index) (S (Z.to_nat (mem_brk s - mem_lo s)))
       (with_prevPtr s NULL) _ asize
       HS0 Hc (fun z Hz => sh_nodes _ _ _ HS index z Hi Hz) Hlt ltac:(lia))).
  cbv beta iota.
  rewrite (first_fit_escalate_none bs fl _ (index + 1)); auto; try lia.
  - eapply shape_ext; eauto.
  - intros j Hj. apply He. lia.
Qed.

Lemma list_first_fit (f : Z -> Z) asize (L : list Z) :
  (exists l1 x l2, L = l1 ++ x :: l2 /\
     (forall y, In y l1 -> f y < asize) /\ asize <= f x) \/
  (forall y, In y L -> f y < asize).
Proof.
  induction L as [|a L IH].
  - right. intros y [].
  - destruct (Z_le_gt_dec asize (f a)) as [Hle|Hgt].
    + left. exists [], a, L. split; [reflexivity|]. split; [intros y []|exact Hle].
    + destruct IH as [(l1 & x & l2 & -> & H1 & H2)|H].
      * left. exists (a :: l1), x, l2. split; [reflexivity|]. split; auto.
        intros y [<-|Hy]; [lia|auto].
      * right. intros y [<-|Hy]; [lia|auto].
Qed.

Lemma first_nonempty (fl : Z -> list Z) (n : nat) : forall k,
  (forall j, k <= j < k + Z.of_nat n -> fl j = []) \/
  (exists j0 y rest, k <= j0 < k + Z.of_nat n /\
     (forall j, k <= j < j0 -> fl j = []) /\ fl j0 = y :: rest).
Proof.
  induction n as [|n IH]; intros k.
  - left. intros j Hj. lia.
  - destruct (fl k) as [|y rest] eqn:E.
    + destruct (IH (k + 1)) as [H|(j0 & y & rest & H1 & H2 & H3)].
      * left. intros j Hj. destruct (Z.eq_dec j k) as [->|]; auto. apply H. lia.
      * right. exists j0, y, rest. split; [lia|]. split; auto.
        intros j Hj. destruct (Z.eq_dec j k) as [->|]; auto. apply H2. lia.
    + right. exists k, y, rest. split; [lia|]. split; auto. intros j Hj. lia.
Qed.

(** [first_fit] always returns: either [NULL] or a node of a bucket at or
    above the natural one, together with its predecessor. *)
Lemma first_fit_total s bs fl asize index :
  heap_shape s bs fl -> 0 <= index <= 8 ->
  exists r pv,
    first_fit asize index s = Ok r (with_prevPtr s pv) /\
    (r = NULL \/
     exists j l1 l2, index <= j <= 8 /\ fl j = l1 ++ r :: l2 /\
       pv = last l1 NULL /\ (j = index -> asize <= size_at bs r)).
Proof.
  intros HS Hi.
  destruct (list_first_fit (size_at bs) asize (fl index))
    as [(l1 & x & l2 & Hfl & H1 & H2)|Hmiss].
  - exists x, (last l1 NULL). split.
    + eapply first_fit_hit; eauto.
    + right. exists index, l1, l2. repeat split; auto; lia.
  - destruct (first_nonempty fl (Z.to_nat (8 - index)) (index + 1))
      as [He|(j0 & y & rest & Hj0 & He & Hy)].
    + exists NULL, (last (fl index) NULL). split; [|now left].
      apply (first_fit_null s bs fl asize index HS Hi Hmiss).
      intros j Hj. apply He. lia.
    + exists y, NULL. split.
      * eapply first_fit_up; eauto; try lia. intros j Hj. apply He. lia.
      * right. exists j0, [], rest. repeat split; auto; lia.
Qed.

(** *** Placement *)

Lemma fl_remove_char s bs fl i p1 bp p2 :
  heap_shape s bs fl -> 0 <= i <= 8 -> fl i = p1 ++ bp :: p2 ->
  forall j x, 0 <= j <= 8 ->
    (In x (fl_set fl i (p1 ++ p2) j) <-> In x (fl j) /\ x <> bp).
Proof.
  intros H Hi Hfl j x Hj.
  pose proof (sh_nodup _ _ _ H i Hi) as Hnd. rewrite Hfl in Hnd.
  destruct (Z.eq_dec j i) as [->|Hji].
  - rewrite fl_set_same, Hfl. apply remove_mid_in. exact Hnd.
  - rewrite fl_set_other by auto. split; [|tauto].
    intros Hx. split; auto. intros ->. apply Hji.
    apply (sh_disj _ _ _ H j i bp); auto.
    rewrite Hfl. apply in_or_app. simpl. auto.
Qed.

Lemma lists_match_remove a0 l1 b l2 e0 fl fl' :
  contig a0 (l1 ++ b :: l2) e0 -> lists_match (l1 ++ b :: l2) fl ->
  (forall j x, 0 <= j <= 8 -> (In x (fl' j) <-> In x (fl j) /\ x <> b_addr b)) ->
  forall j x, 0 <= j <= 8 ->
    (In x (fl' j) <-> free_in l1 j x \/ free_in l2 j x).
Proof.
  intros C LM Hch j x Hj.
  rewrite (Hch j x Hj), (LM j x Hj).
  rewrite <- (free_in_remove a0 l1 [b] l2 e0 j x C). cbn [app].
  split; intros [H1 H2]; split; auto.
  - intros b' [<-|[]]. exact H2.
  - apply H2. now left.
Qed.

Lemma put_tags_k {A} (k : M A) s a sz al :
  mem_lo s <= a -> a + sz <= mem_brk s ->
  8 <= sz < 2 ^ 31 -> sz mod 8 = 0 ->
  (PUT a (PACK sz (bit al)) ;;
   ft <- FOOTER a ;;
   PUT ft (PACK sz (bit al)) ;; k) s
  = k (with_mem s (wr (wr (mem s) a 4 (tag sz al)) (a + sz - 4) 4 (tag sz al))).
Proof.
  intros H1 H2 H3 H4.
  rewrite PACK_tag by (auto using mod8_mod2; lia).
  pose proof (tag_range sz al ltac:(lia)) as Htr.
  set (t := tag sz al) in *. set (m1 := wr (mem s) a 4 t).
  step (PUT_ok a t s ltac:(lia) ltac:(lia)). fold m1.
  assert (G1 : GET_SIZE a (with_mem s m1) = Ok sz (with_mem s m1)).
  { apply GET_SIZE_tag with (al := al); cbn [mem mem_lo mem_brk with_mem];
      try lia; auto.
    unfold m1. apply rd_wr_4. exact Htr. }
  step (FOOTER_ok _ _ _ G1).
  step (PUT_ok (a + sz - 4) t (with_mem s m1)
          ltac:(cbn [mem_lo with_mem]; lia) ltac:(cbn [mem_brk with_mem]; lia)).
  reflexivity.
Qed.

(** The candidate is allocated whole. *)
Lemma place_whole s l1 b l2 fl asize p1 p2 :
  heap_wf s (l1 ++ b :: l2) fl -> b_alloc b = false ->
  fl (getIndex (b_size b)) = p1 ++ b_addr b :: p2 ->
  0 <= b_size b - asize <= 16 ->
  exists s',
    place asize (b_addr b) (last p1 NULL) s = Ok (b_addr b + 4) s' /\
    same_geom s s' /\
    heap_wf s' (l1 ++ set_alloc b true :: l2)
      (fl_set fl (getIndex (b_size b)) (p1 ++ p2)) /\
    (forall x, heap_listp s + 72 <= x ->
       x < b_addr b \/ b_addr b + b_size b <= x ->
       x < last p1 NULL + 4 \/ last p1 NULL + 12 <= x ->
       mem s' x = mem s x).
Proof.
  intros [HS LM] Hbf Hfl Hd.
  assert (Hb : In b (l1 ++ b :: l2)) by (apply in_or_app; simpl; auto).
  pose proof (shape_block _ _ _ _ HS Hb) as (B1 & B2 & B3 & B4 & B5 & B6 & B7).
  pose proof (sh_lo _ _ _ HS) as Hlo.
  destruct (shape_split _ _ _ _ _ HS) as [C1 C2].
  set (bp := b_addr b) in *. set (sz := b_size b) in *.
  set (i := getIndex sz) in *. assert (Hi : 0 <= i <= 8) by apply getIndex_range.
  set (m2 := wr (wr (mem s) bp 4 (tag sz true)) (bp + sz - 4) 4 (tag sz true)).
  assert (S2 : heap_shape (with_mem s m2) (l1 ++ [set_alloc b true] ++ l2) fl).
  { apply shape_retag with (mid := [b]) (a := bp) (e := bp + sz); auto.
    - simpl. fold sz. repeat split; try reflexivity; try assumption; lia.
    - apply contig_single; lia.
    - constructor; [|constructor]. apply tagged_put. lia.
    - intros x Hx. unfold m2. rewrite !wr_out by lia. reflexivity.
    - intros j x Hj Hx Hr.
      destruct (sh_nodes _ _ _ HS j x Hj Hx) as (c & Hc & <-).
      assert (c = b).
      { apply in_app_or in Hc. destruct Hc as [Hc|[Hc|Hc]]; auto.
        - pose proof (contig_range _ _ _ _ C1 Hc). lia.
        - pose proof (contig_range _ _ _ _ C2 Hc). lia. }
      subst c. split.
      + exists (set_alloc b true). split; [now left|reflexivity].
      + fold bp. unfold m2. rewrite !rd_wr_other by lia. reflexivity. }
  assert (Hb' : In (set_alloc b true) (l1 ++ [set_alloc b true] ++ l2)).
  { apply in_or_app. right. simpl. auto. }
  destruct (relink_spec (with_mem s m2) _ fl (set_alloc b true) p1 p2 S2 Hb' Hfl)
    as (m3 & HR & HS3 & HF3).
  cbn [b_addr b_size set_alloc heap_listp mem with_mem] in HR, HS3, HF3.
  fold bp sz i in HR, HS3, HF3.
  exists (with_mem s m3). split; [|split; [|split]].
  - unfold place. step (shape_GET_SIZE _ _ _ _ HS Hb). fold sz bp.
    cbv zeta. rewrite (s32_small sz) by lia.
    rewrite s32_u32_small by lia.
    unfold DSIZE. destruct (Z.ltb_spec (2 * 8) (sz - asize)); [lia|].
    assert (HB : (PUT bp (PACK sz 1) ;;
                  ft <- FOOTER bp ;;
                  PUT ft (PACK sz 1) ;;
                  relink bp (last p1 NULL)) s = Ok tt (with_mem s m3)).
    { change (PACK sz 1) with (PACK sz (bit true)).
      rewrite put_tags_k by lia. exact HR. }
    step HB. reflexivity.
  - unfold same_geom. auto.
  - split; [exact HS3|].
    intros j x Hj.
    pose proof (lists_match_remove _ _ _ _ _ fl _ (sh_contig _ _ _ HS) LM
                  (fl_remove_char _ _ _ i p1 bp p2 HS Hi Hfl) j x Hj) as L.
    rewrite L, free_in_app, free_in_cons. cbn [b_alloc set_alloc].
    split; [tauto|]. intros [H|[H|H]]; auto.
    destruct H as (_ & H & _). discriminate.
  - intros x Hx1 Hx2 Hx3. cbn [mem with_mem].
    rewrite HF3 by auto. unfold m2. rewrite !wr_out by lia. reflexivity.
Qed.

(** The candidate is split: the head is allocated and the remainder is
    handed to [free]. *)
Lemma place_split s l1 b l2 fl asize p1 p2 :
  heap_wf s (l1 ++ b :: l2) fl -> no_adjacent_free (l1 ++ b :: l2) ->
  b_alloc b = false ->
  fl (getIndex (b_size b)) = p1 ++ b_addr b :: p2 ->
  16 <= asize -> asize mod 8 = 0 -> 16 < b_size b - asize ->
  exists s',
    place asize (b_addr b) (last p1 NULL) s = Ok (b_addr b + 4) s' /\
    same_geom s s' /\
    heap_wf s'
      (l1 ++ mkBlock (b_addr b) asize true
          :: mkBlock (b_addr b + asize) (b_size b - asize) false :: l2)
      (fl_set (fl_set fl (getIndex (b_size b)) (p1 ++ p2))
         (getIndex (b_size b - asize))
         ((b_addr b + asize)
            :: fl_set fl (getIndex (b_size b)) (p1 ++ p2)
                 (getIndex (b_size b - asize)))) /\
    (forall x, heap_listp s + 72 <= x ->
       x < b_addr b \/ b_addr b + b_size b <= x ->
       x < last p1 NULL + 4 \/ last p1 NULL + 12 <= x ->
       mem s' x = mem s x) /\
    (exists s4,
       heap_shape s4
         (l1 ++ mkBlock (b_addr b) asize true
             :: mkBlock (b_addr b + asize) (b_size b - asize) false :: l2)
         (fl_set fl (getIndex (b_size b)) (p1 ++ p2)) /\
       free (b_addr b + asize + 4) s4 = Ok tt s').
Proof.
  intros [HS LM] NA Hbf Hfl Ha1 Ha2 Hd.
  assert (Hb : In b (l1 ++ b :: l2)) by (apply in_or_app; simpl; auto).
  pose proof (shape_block _ _ _ _ HS Hb) as (B1 & B2 & B3 & B4 & B5 & B6 & B7).
  pose proof (sh_lo _ _ _ HS) as Hlo.
  destruct (shape_split _ _ _ _ _ HS) as [C1 C2].
  apply no_adjacent_free_mid in NA. destruct NA as (NA1 & NA2 & NA3).
  assert (RA : first_alloc l2 = true) by (destruct NA3 as [?|[? ?]]; congruence).
  set (bp := b_addr b) in *. set (sz := b_size b) in *.
  set (i := getIndex sz) in *. assert (Hi : 0 <= i <= 8) by apply getIndex_range.
  set (diff := sz - asize) in *. set (nb := bp + asize).
  assert (Hdm : diff mod 8 = 0).
  { unfold diff. rewrite Zminus_mod, B4, Ha2. reflexivity. }
  set (flu := fl_set fl i (p1 ++ p2)).
  pose proof (fl_remove_char _ _ _ i p1 bp p2 HS Hi Hfl) as CH. fold flu in CH.
  destruct (relink_spec s _ fl b p1 p2 HS Hb Hfl) as (ma & HR & HSa & HFa).
  fold bp sz i flu in HR, HSa, HFa.
  set (hd_blk := mkBlock bp asize true).
  set (rest := mkBlock nb diff false).
  set (m2 := wr (wr ma bp 4 (tag asize true)) (bp + asize - 4) 4 (tag asize true)).
  set (m4 := wr (wr m2 nb 4 (tag diff false)) (nb + diff - 4) 4 (tag diff false)).
  assert (S4 : heap_shape (with_mem s m4) (l1 ++ [hd_blk; rest] ++ l2) flu).
  { change (with_mem s m4) with (with_mem (with_mem s ma) m4).
    apply shape_retag_clean with (mid := [b]) (a := bp) (e := bp + sz); auto.
    - simpl. fold sz. repeat split; try reflexivity; try assumption; lia.
    - intros c j [<-|[]] Hj Hin. apply (CH j _ Hj) in Hin. tauto.
    - simpl. unfold nb, diff. repeat split; try reflexivity; try assumption; lia.
    - constructor; [|constructor; [|constructor]].
      + destruct (tagged_put ma bp asize true ltac:(lia)) as [T1 T2].
        fold m2 in T1, T2. cbn [b_addr b_size b_alloc] in T1, T2.
        split; cbn [b_addr b_size b_alloc hd_blk]; unfold m4.
        * rewrite !rd_wr_other by (unfold nb; lia). exact T1.
        * rewrite !rd_wr_other by (unfold nb; lia). exact T2.
      + apply tagged_put. lia.
    - intros x Hx. cbn [mem with_mem]. unfold m4, m2.
      rewrite !wr_out by (unfold nb, diff; lia). reflexivity. }
  assert (E : l1 ++ [hd_blk; rest] ++ l2 = (l1 ++ [hd_blk]) ++ rest :: l2)
    by (rewrite <- app_assoc; reflexivity).
  rewrite E in S4.
  destruct (free_alone (with_mem s m4) (l1 ++ [hd_blk]) rest l2 flu S4)
    as (s' & HFr & G & W & FF).
  { intros j x Hj.
    pose proof (lists_match_remove _ _ _ _ _ fl flu (sh_contig _ _ _ HS) LM CH j x Hj) as L.
    rewrite L, !free_in_app, !free_in_cons, free_in_nil.
    cbn [b_alloc set_alloc hd_blk rest].
    split; [tauto|]. intros [[H|[H|[]]]|[H|H]]; auto;
      destruct H as (_ & H & _); discriminate. }
  { apply last_alloc_snoc. }
  { exact RA. }
  cbn [b_addr b_size rest heap_listp mem with_mem] in HFr, W, FF.
  exists s'. split; [|split; [|split; [|split]]].
  - unfold place. step (shape_GET_SIZE _ _ _ _ HS Hb). fold sz bp.
    cbv zeta. rewrite (s32_small sz) by lia.
    rewrite s32_u32_small by (fold diff; lia). fold diff.
    unfold DSIZE. destruct (Z.ltb_spec (2 * 8) diff); [|lia].
    assert (HA : (relink bp (last p1 NULL) ;;
                  PUT bp (PACK asize 1) ;;
                  ft <- FOOTER bp ;;
                  PUT ft (PACK asize 1) ;;
                  PUT (bp + asize) (PACK diff 0) ;;
                  ft' <- FOOTER (bp + asize) ;;
                  PUT ft' (PACK diff 0) ;;
                  free (bp + asize + WSIZE)) s = Ok tt s').
    { step HR.
      change (PACK asize 1) with (PACK asize (bit true)).
      rewrite put_tags_k by (cbn [mem_lo mem_brk with_mem]; lia).
      cbn [mem with_mem]. fold m2.
      change (PACK diff 0) with (PACK diff (bit false)).
      rewrite put_tags_k by (cbn [mem_lo mem_brk with_mem]; lia).
      cbn [mem with_mem]. fold nb. fold m4. unfold WSIZE. exact HFr. }
    step HA. reflexivity.
  - destruct G as (G1 & G2 & G3 & G4). cbn in G1, G2, G3, G4.
    unfold same_geom. auto.
  - rewrite <- app_assoc in W. exact W.
  - intros x Hx1 Hx2 Hx3. rewrite FF by (unfold nb, diff; lia).
    unfold m4, m2. rewrite !wr_out by (unfold nb, diff; lia).
    apply HFa; auto.
  - exists (with_mem s m4). split; [|exact HFr].
    rewrite <- app_assoc in S4. exact S4.
Qed.

(** *** Growing the heap *)

Lemma extend_heap_fail s n :
  n < 0 \/ mem_max_addr s < mem_brk s + n ->
  extend_heap n s = Ok SBRK_FAIL s.
Proof.
  intros H. unfold extend_heap, bind, mem_sbrk.
  assert (E : (n <? 0) || (mem_max_addr s <? mem_brk s + n) = true).
  { apply orb_true_iff. destruct H; [left|right]; apply Z.ltb_lt; assumption. }
  rewrite E. reflexivity.
Qed.

Lemma PACK_0_1 : PACK 0 1 = 1.
Proof. reflexivity. Qed.

Lemma extend_heap_spec s bs fl n :
  heap_shape s bs fl -> 16 <= n < 2 ^ 31 -> n mod 8 = 0 ->
  mem_brk s + n <= mem_max_addr s ->
  exists s',
    extend_heap n s = Ok (mem_brk s) s' /\
    mem_brk s' = mem_brk s + n /\ mem_lo s' = mem_lo s /\
    mem_max_addr s' = mem_max_addr s /\ heap_listp s' = heap_listp s /\
    prevPtr s' = prevPtr s /\
    heap_shape s' (bs ++ [mkBlock (mem_brk s - 4) n true]) fl /\
    (forall x, x < mem_brk s - 4 -> mem s' x = mem s x).
Proof.
  intros HS Hn Hm Hroom.
  pose proof (sh_lo _ _ _ HS) as Hlo. pose proof (sh_max _ _ _ HS) as Hmax.
  pose proof (sh_ptr _ _ _ HS) as Hptr. pose proof (sh_cap _ _ _ HS) as Hcap.
  pose proof (shape_brk _ _ _ HS) as [Hbrk Hal].
  set (brk := mem_brk s) in *.
  pose proof (tag_range n true ltac:(lia)) as Htr.
  set (t := tag n true) in *.
  set (m1 := wr (mem s) (brk - 4) 4 t).
  set (m2 := wr m1 (brk + n - 8) 4 t).
  set (m3 := wr m2 (brk + n - 4) 4 1).
  set (s' := with_mem (with_brk s (brk + n)) m3).
  assert (Hold : forall k x, x + Z.of_nat k <= brk - 4 ->
             rd m3 x k = rd (mem s) x k).
  { intros k x Hx. unfold m3, m2, m1. rewrite !rd_wr_other by lia. reflexivity. }
  exists s'. split; [|repeat (split; [reflexivity|]); split].
  - unfold extend_heap, bind at 1, mem_sbrk.
    assert (E : (n <? 0) || (mem_max_addr s <? mem_brk s + n) = false).
    { apply orb_false_iff. split; apply Z.ltb_ge; fold brk; lia. }
    rewrite E. fold brk.
    destruct (Z.eqb_spec brk SBRK_FAIL) as [E'|_];
      [unfold SBRK_FAIL in E'; lia|].
    unfold WSIZE, DSIZE.
    replace (PACK n 1) with t
      by (symmetry; apply (PACK_tag n true); [lia | now apply mod8_mod2]).
    rewrite PACK_0_1.
    step (PUT_ok (brk - 4) t (with_brk s (brk + n))
            ltac:(cbn [mem_lo with_brk]; lia) ltac:(cbn [mem_brk with_brk]; lia)).
    cbn [mem with_brk]. fold m1.
    step (PUT_ok (brk + n - 8) t (with_mem (with_brk s (brk + n)) m1)
            ltac:(cbn [mem_lo with_brk with_mem]; lia)
            ltac:(cbn [mem_brk with_brk with_mem]; lia)).
    cbn [mem with_mem]. fold m2.
    step (PUT_ok (brk + n - 4) 1
            (with_mem (with_mem (with_brk s (brk + n)) m1) m2)
            ltac:(cbn [mem_lo with_brk with_mem]; lia)
            ltac:(cbn [mem_brk with_brk with_mem]; lia)).
    reflexivity.
  - pose proof HS as HS0. destruct HS.
    constructor;
      cbn [s' mem mem_lo mem_brk mem_max_addr heap_listp with_mem with_brk];
      auto; try lia.
    + apply contig_app. exists (brk - 4). split; [exact sh_contig0|].
      simpl. repeat split; auto; lia.
    + apply Forall_app. split.
      * rewrite Forall_forall in *. intros b Hb.
        pose proof (shape_block _ _ _ _ HS0 Hb) as (B1 & B2 & B3 & B4 & B5 & B6 & B7).
        split; rewrite Hold by (fold brk in B2; lia); assumption.
      * constructor; [|constructor]. split; cbn [b_addr b_size b_alloc].
        -- unfold m3, m2, m1. rewrite !rd_wr_other by lia. apply rd_wr_4. exact Htr.
        -- unfold m3, m2. rewrite rd_wr_other by lia.
           replace (brk - 4 + n - 4) with (brk + n - 8) by lia.
           apply rd_wr_4. exact Htr.
    + rewrite Hold by lia. assumption.
    + replace (brk + n - 4) with (brk + n - 4) by lia.
      unfold m3. apply rd_wr_4. lia.
    + intros i Hi. rewrite Hold by lia.
      apply lseg_frame with (m := mem s); [|exact (sh_chain0 i Hi)].
      intros x Hx.
      pose proof (shape_node_range _ _ _ i x HS0 Hi Hx) as (N1 & N2 & N3 & N4).
      destruct (sh_nodes0 i x Hi Hx) as (b & Hb & <-).
      pose proof (shape_block _ _ _ _ HS0 Hb) as (B1 & B2 & B3 & B4 & B5 & B6 & B7).
      apply Hold. fold brk in B2. lia.
    + intros i x Hi Hx. destruct (sh_nodes0 i x Hi Hx) as (b & Hb & <-).
      exists b. split; auto. apply in_or_app. auto.
  - intros x Hx. cbn [s' mem with_mem]. unfold m3, m2, m1.
    rewrite !wr_out by lia. reflexivity.
Qed.

(** *** The required size *)

Lemma required_size_spec size :
  0 <= size < 2 ^ 64 - 16 ->
  required_size size mod 8 = 0 /\
  size + 8 <= required_size size < size + 16.
Proof.
  intros H. unfold required_size. cbv zeta.
  rewrite (u64_small (size + 8)) by lia.
  pose proof (Z.div_mod (size + 8) 8 ltac:(lia)) as D.
  pose proof (Z.mod_pos_bound (size + 8) 8 ltac:(lia)) as R.
  destruct (Z.eqb_spec ((size + 8) mod 8) 0) as [E|NE].
  - split; [assumption|lia].
  - rewrite u64_small by lia. split; [|lia].
    apply Z_mod_mult.
Qed.

Lemma required_size_min size :
  0 < size < 2 ^ 64 - 16 -> 16 <= required_size size.
Proof.
  intros H. destruct (required_size_spec size ltac:(lia)) as (Am & Ar).
  pose proof (Z.div_mod (required_size size) 8 ltac:(lia)) as D.
  rewrite Am in D. lia.
Qed.

Lemma getIndex_gt x y : getIndex x < getIndex y -> x < y.
Proof.
  intros H. destruct (Z_lt_le_dec x y) as [?|Hle]; [assumption|].
  apply getIndex_mono in Hle. lia.
Qed.

(** *** [malloc] *)

Lemma same_geom_grown s s' : same_geom s s' -> grown s s'.
Proof. unfold same_geom, grown. intros (? & ? & ? & ?). repeat split; auto; lia. Qed.

Lemma heap_wf_prevPtr s bs fl p :
  heap_wf s bs fl -> heap_wf (with_prevPtr s p) bs fl.
Proof. intros [HS LM]. split; auto. eapply shape_ext; eauto. Qed.

Lemma malloc_spec s bs fl size :
  heap_wf s bs fl -> no_adjacent_free bs -> 0 < size <= 2 ^ 32 - 16 ->
  exists p s' bs' fl',
    malloc size s = Ok p s' /\ grown s s' /\
    heap_wf s' bs' fl' /\ no_adjacent_free bs' /\
    (forall c, In c bs -> b_alloc c = true ->
       In c bs' /\
       forall x, b_addr c <= x < b_addr c + b_size c -> mem s' x = mem s x) /\
    ((p = SBRK_FAIL /\ mem_brk s' = mem_brk s) \/
     (exists b, In b bs' /\ b_alloc b = true /\ p = b_addr b + 4 /\
        size + 8 <= b_size b /\
        forall c, In c bs -> b_alloc c = true -> b_addr c <> b_addr b)).
Proof.
  intros HW NA Hsize. pose proof HW as [HS LM].
  destruct (required_size_spec size ltac:(lia)) as (Am & Ar).
  set (asize := required_size size) in *.
  assert (Ab : 16 <= asize <= 2 ^ 32 - 8).
  { pose proof (Z.div_mod asize 8 ltac:(lia)) as D. rewrite Am in D. lia. }
  set (index := getIndex asize).
  assert (Hi : 0 <= index <= 8) by apply getIndex_range.
  destruct (first_fit_total s bs fl asize index HS Hi)
    as (r & pv & HFF & Hr).
  pose proof (heap_wf_prevPtr _ _ _ pv HW) as HW1. pose proof HW1 as [HS1 _].
  pose proof (sh_max _ _ _ HS) as Hmax.
  assert (Hrun : malloc size s
                 = (if r =? NULL
                    then bp <- extend_heap (s32 asize) ;; ret bp
                    else prev <- get_prevPtr ;; place (u32 asize) r prev)
                     (with_prevPtr s pv)).
  { unfold malloc. destruct (Z.eqb_spec size 0); [lia|].
    cbv zeta. fold asize. fold index. rewrite (u32_small asize) by lia.
    step HFF. reflexivity. }
  rewrite Hrun. clear Hrun.
  destruct Hr as [->|(j & p1 & p2 & Hj & Hfl & Hpv & Hfit)].
  - (* no fit: the heap grows *)
    rewrite Z.eqb_refl.
    destruct (Z_lt_le_dec asize (2 ^ 31)) as [Hlt|Hge];
      [destruct (Z_le_gt_dec (mem_brk s + asize) (mem_max_addr s)) as [Hroom|Hfull]|].
    + rewrite s32_small by lia.
      destruct (extend_heap_spec (with_prevPtr s pv) bs fl asize HS1
                  ltac:(lia) Am Hroom)
        as (s' & HE & E1 & E2 & E3 & E4 & E5 & HS' & HF').
      cbn [mem mem_lo mem_brk mem_max_addr heap_listp with_prevPtr] in *.
      exists (mem_brk s), s', (bs ++ [mkBlock (mem_brk s - 4) asize true]), fl.
      split; [step HE; reflexivity|].
      split; [unfold grown; repeat split; auto; lia|].
      split; [split; [exact HS'|]|].
      { intros k x Hk. rewrite (LM k x Hk), free_in_app, free_in_cons, free_in_nil.
        cbn [b_alloc]. split; [tauto|]. intros [H|[H|[]]]; auto.
        destruct H as (_ & H & _). discriminate. }
      split; [apply no_adjacent_free_snoc; auto|].
      split.
      * intros c Hc Ha. split; [apply in_or_app; auto|].
        intros x Hx. apply HF'.
        pose proof (shape_block _ _ _ _ HS Hc). lia.
      * right. exists (mkBlock (mem_brk s - 4) asize true).
        cbn [b_addr b_size b_alloc].
        split; [apply in_or_app; simpl; auto|].
        split; [reflexivity|]. split; [lia|]. split; [lia|].
        intros c Hc _. pose proof (shape_block _ _ _ _ HS Hc). lia.
    + rewrite s32_small by lia.
      rewrite (bind_ok _ _ _ _ _
                 (extend_heap_fail (with_prevPtr s pv) asize
                    ltac:(right; cbn [mem_brk mem_max_addr with_prevPtr]; lia))).
      exists SBRK_FAIL, (with_prevPtr s pv), bs, fl.
      split; [reflexivity|]. split; [unfold grown; cbn; lia|].
      split; [exact HW1|]. split; [exact NA|]. split; [auto|]. left. auto.
    + assert (Hneg : s32 asize < 0).
      { unfold s32. cbv zeta. rewrite Z.mod_small by lia.
        destruct (Z.ltb_spec asize (2 ^ 31)); lia. }
      rewrite (bind_ok _ _ _ _ _
                 (extend_heap_fail (with_prevPtr s pv) (s32 asize)
                    ltac:(left; exact Hneg))).
      exists SBRK_FAIL, (with_prevPtr s pv), bs, fl.
      split; [reflexivity|]. split; [unfold grown; cbn; lia|].
      split; [exact HW1|]. split; [exact NA|]. split; [auto|]. left. auto.
  - (* a fit: placement *)
    assert (Hrj : In r (fl j)) by (rewrite Hfl; apply in_or_app; simpl; auto).
    assert (Hrn : r <> NULL).
    { eapply lseg_nonnull; [exact (sh_chain _ _ _ HS j ltac:(lia))|exact Hrj]. }
    destruct (Z.eqb_spec r NULL) as [|_]; [contradiction|].
    apply (LM j r ltac:(lia)) in Hrj. destruct Hrj as (sz & Hb0 & Hsz).
    set (b0 := mkBlock r sz false) in *.
    destruct (in_split _ _ Hb0) as (L1 & L2 & ->).
    pose proof (shape_block _ _ _ _ HS Hb0) as (B1 & B2 & B3 & B4 & B5 & B6 & B7).
    cbn [b_addr b_size b_alloc b0] in B1, B2, B3, B4, B5.
    assert (Hcs : asize <= sz).
    { destruct (Z.eq_dec j index) as [E|NE].
      - specialize (Hfit E).
        rewrite (size_at_in _ _ _ b0 (sh_contig _ _ _ HS) Hb0 : size_at _ r = sz)
          in Hfit. exact Hfit.
      - assert (getIndex asize < getIndex sz) by (fold index; lia).
        apply getIndex_gt in H. lia. }
    rewrite <- Hsz in Hfl.
    change sz with (b_size b0) in Hfl. change r with (b_addr b0) in Hfl.
    unfold bind at 1. unfold get_prevPtr at 1. cbn [prevPtr with_prevPtr].
    rewrite (u32_small asize) by lia. subst pv.
    pose proof NA as NA'. apply no_adjacent_free_mid in NA'.
    destruct NA' as (NA1 & NA2 & NA3).
    assert (LRA : last_alloc L1 = true /\ first_alloc L2 = true).
    { destruct NA3 as [H|H]; [discriminate H|exact H]. }
    assert (Hframe : forall s',
              (forall x, heap_listp s + 72 <= x ->
                 x < r \/ r + sz <= x ->
                 x < last p1 NULL + 4 \/ last p1 NULL + 12 <= x ->
                 mem s' x = mem s x) ->
              forall c, In c (L1 ++ b0 :: L2) -> b_alloc c = true ->
              forall x, b_addr c <= x < b_addr c + b_size c ->
              mem s' x = mem s x).
    { intros s' HF c Hc Ha x Hx.
      destruct (wf_alloc_outside _ _ _ c x HW Hc Ha Hx) as [O1 O2].
      apply HF; auto.
      - destruct (contig_disjoint _ _ _ _ _ (sh_contig _ _ _ HS) Hc Hb0)
          as [->|[?|?]]; [discriminate Ha| |];
          cbn [b_addr b_size b0] in *; lia.
      - destruct (list_snoc_case p1) as [->|(p1' & q & ->)].
        + cbn [last]. unfold NULL. pose proof (sh_lo _ _ _ HS). lia.
        + rewrite last_last. apply (O2 q (getIndex (b_size b0))).
          * apply getIndex_range.
          * rewrite Hfl. apply in_or_app. left. apply in_or_app. simpl. auto. }
    assert (Hsurv : forall c b', In c (L1 ++ b0 :: L2) -> b_alloc c = true ->
              In c (L1 ++ b' ++ L2)).
    { intros c b' Hc Ha. apply in_app_or in Hc. apply in_or_app.
      destruct Hc as [Hc|[Hc|Hc]]; auto.
      - subst c. discriminate Ha.
      - right. apply in_or_app. auto. }
    assert (Hnew : forall c, In c (L1 ++ b0 :: L2) -> b_alloc c = true ->
              b_addr c <> r).
    { intros c Hc Ha E.
      pose proof (contig_addr_inj _ _ _ _ _ (sh_contig _ _ _ HS) Hc Hb0 E).
      subst c. discriminate Ha. }
    destruct (Z_lt_le_dec 16 (sz - asize)) as [Hsplit|Hwhole].
    + destruct (place_split _ _ _ _ _ asize p1 p2 HW1 NA eq_refl Hfl
                  ltac:(lia) Am Hsplit) as (s' & HP & G & W & F & _).
      cbn [b_addr b_size b0 heap_listp mem with_prevPtr] in HP, W, F.
      eexists (r + 4), s', _, _.
      split; [exact HP|]. split; [apply same_geom_grown; exact G|].
      split; [exact W|]. split.
      { apply no_adjacent_free_mid. cbn [b_alloc].
        split; [exact NA1|]. split; [|auto].
        apply no_adjacent_free_cons. tauto. }
      split.
      * intros c Hc Ha. split; [|eapply Hframe; eauto].
        apply (Hsurv c [mkBlock r asize true; mkBlock (r + asize) (sz - asize) false]
                 Hc Ha).
      * right. exists (mkBlock r asize true). cbn [b_addr b_size b_alloc].
        split; [apply in_or_app; simpl; auto|].
        split; [reflexivity|]. split; [reflexivity|]. split; [lia|]. exact Hnew.
    + destruct (place_whole _ _ _ _ _ asize p1 p2 HW1 eq_refl Hfl
                  ltac:(cbn [b_size b0]; lia)) as (s' & HP & G & W & F).
      cbn [b_addr b_size b0 heap_listp mem with_prevPtr] in HP, W, F.
      eexists (r + 4), s', _, _.
      split; [exact HP|]. split; [apply same_geom_grown; exact G|].
      split; [exact W|]. split.
      { apply no_adjacent_free_mid. cbn [b_alloc set_alloc]. auto. }
      split.
      * intros c Hc Ha. split; [|eapply Hframe; eauto].
        apply (Hsurv c [set_alloc b0 true] Hc Ha).
      * right. exists (set_alloc b0 true). cbn [b_addr b_size b_alloc set_alloc b0].
        split; [apply in_or_app; simpl; auto|].
        split; [reflexivity|]. split; [reflexivity|]. split; [lia|]. exact Hnew.
Qed.

(** *** Writing into the payload of an allocated block *)
Lemma wf_payload_write s bs fl b m' :
  heap_wf s bs fl -> In b bs -> b_alloc b = true ->
  (forall x, x < b_addr b + 4 \/ b_addr b + b_size b - 4 <= x ->
     m' x = mem s x) ->
  heap_wf (with_mem s m') bs fl.
Proof.
  intros [HS LM] Hb Ha Hout. split; [|exact LM].
  destruct (in_split _ _ Hb) as (l1 & l2 & ->).
  destruct (shape_split _ _ _ _ _ HS) as [C1 C2].
  pose proof (shape_block _ _ _ _ HS Hb) as (B1 & B2 & B3 & B4 & B5 & B6 & B7).
  change (l1 ++ b :: l2) with (l1 ++ [b] ++ l2) in *.
  apply shape_retag_clean
    with (mid := [b]) (a := b_addr b) (e := b_addr b + b_size b); auto.
  - simpl. repeat split; auto; lia.
  - intros c j [<-|[]] Hj Hin. apply (LM j _ Hj) in Hin.
    destruct (free_in_addr _ _ _ Hin) as (d & Hd & E & Hf).
    rewrite (contig_addr_inj _ _ _ _ _ (sh_contig _ _ _ HS) Hd Hb E) in Hf.
    congruence.
  - simpl. repeat split; auto; lia.
  - constructor; [|constructor]. split.
    + rewrite <- B6. apply rd_ext. intros x Hx. apply Hout. lia.
    + rewrite <- B7. apply rd_ext. intros x Hx. apply Hout. lia.
  - intros x Hx. apply Hout. lia.
Qed.

Lemma copy_bytes_out m dst src n x :
  x < dst \/ dst + n <= x -> copy_bytes m dst src n x = m x.
Proof.
  intros H. unfold copy_bytes.
  destruct (Z.leb_spec dst x), (Z.ltb_spec x (dst + n)); simpl; auto; lia.
Qed.

Lemma copy_bytes_in m dst src n i :
  0 <= i < n -> copy_bytes m dst src n (dst + i) = m (src + i).
Proof.
  intros H. unfold copy_bytes.
  destruct (Z.leb_spec dst (dst + i)), (Z.ltb_spec (dst + i) (dst + n));
    simpl; try lia.
  f_equal. lia.
Qed.

Lemma fill_bytes_out m dst c n x :
  x < dst \/ dst + n <= x -> fill_bytes m dst c n x = m x.
Proof.
  intros H. unfold fill_bytes.
  destruct (Z.leb_spec dst x), (Z.ltb_spec x (dst + n)); simpl; auto; lia.
Qed.

Lemma fill_bytes_in m dst c n i :
  0 <= i < n -> fill_bytes m dst c n (dst + i) = c.
Proof.
  intros H. unfold fill_bytes.
  destruct (Z.leb_spec dst (dst + i)), (Z.ltb_spec (dst + i) (dst + n));
    simpl; lia.
Qed.

Lemma memcpy_ok dst src n s :
  0 < n -> mem_lo s <= dst -> dst + n <= mem_brk s ->
  mem_lo s <= src -> src + n <= mem_brk s ->
  memcpy dst src n s = Ok tt (with_mem s (copy_bytes (mem s) dst src n)).
Proof.
  intros. unfold memcpy. destruct (Z.leb_spec n 0); [lia|].
  rewrite !valid_true by lia. reflexivity.
Qed.

Lemma memset_ok dst c n s :
  0 < n -> mem_lo s <= dst -> dst + n <= mem_brk s ->
  memset dst c n s = Ok tt (with_mem s (fill_bytes (mem s) dst c n)).
Proof.
  intros. unfold memset. destruct (Z.leb_spec n 0); [lia|].
  rewrite !valid_true by lia. reflexivity.
Qed.

(** An access at [(void * )-1] is outside every heap. *)
Lemma memset_fail c n s :
  0 < n -> mem_brk s < SBRK_FAIL -> mem_max_addr s < SBRK_FAIL ->
  memset SBRK_FAIL c n s = Crash.
Proof.
  intros Hn Hb Hm. unfold memset, valid. destruct (Z.leb_spec n 0); [lia|].
  destruct (Z.leb_spec (SBRK_FAIL + n)
              (Z.max (mem_brk s) (mem_max_addr s))); [lia|].
  now rewrite andb_false_r.
Qed.

Lemma memcpy_fail src n s :
  0 < n -> mem_brk s < SBRK_FAIL -> mem_max_addr s < SBRK_FAIL ->
  memcpy SBRK_FAIL src n s = Crash.
Proof.
  intros Hn Hb Hm. unfold memcpy, valid. destruct (Z.leb_spec n 0); [lia|].
  destruct (Z.leb_spec (SBRK_FAIL + n)
              (Z.max (mem_brk s) (mem_max_addr s))); [lia|].
  now rewrite andb_false_r.
Qed.

(** *** [realloc] *)
Lemma realloc_spec s bs fl b size p s1 :
  heap_wf s bs fl -> no_adjacent_free bs ->
  In b bs -> b_alloc b = true ->
  0 < size <= 2 ^ 32 - 16 ->
  malloc size s = Ok p s1 -> p <> SBRK_FAIL ->
  exists s' bs' fl' b',
    realloc (b_addr b + 4) size s = Ok p s' /\ grown s s' /\
    heap_wf s' bs' fl' /\ no_adjacent_free bs' /\
    In b' bs' /\ b_alloc b' = true /\ p = b_addr b' + 4 /\
    size + 8 <= b_size b' /\ b_addr b' <> b_addr b /\
    realloc_copy_size (b_addr b + 4) size s1 = Ok (Z.min (b_size b) size) s1 /\
    (forall i, 0 <= i < Z.min (b_size b - 4) size ->
       mem s' (p + i) = mem s (b_addr b + 4 + i)) /\
    (exists c, In c bs' /\ b_alloc c = false /\ b_addr c <= b_addr b /\
               b_addr b + b_size b <= b_addr c + b_size c) /\
    (forall c, In c bs -> b_alloc c = true -> c <> b -> In c bs') /\
    realloc (b_addr b + 4) size s
    = (memcpy p (b_addr b + 4) (Z.min (b_size b) size) ;;
       free (b_addr b + 4) ;; ret p) s1 /\
    (forall i, 0 <= i < Z.min (b_size b) size ->
       mem s' (p + i) = mem s1 (b_addr b + 4 + i)) /\
    (forall i, Z.min (b_size b) size <= i < b_size b' - 8 ->
       mem s' (p + i) = mem s1 (p + i)).
Proof.
  intros HW NA Hb Ha Hsize HM Hp.
  destruct (malloc_spec s bs fl size HW NA Hsize)
    as (p0 & s1' & bs1 & fl1 & HM' & G1 & W1 & NA1 & SV1 & [[E _]|Hnew]).
  { rewrite HM in HM'. congruence. }
  rewrite HM in HM'. injection HM' as <- <-.
  destruct Hnew as (b' & Hb' & Ha' & Ep & Hsz' & Hfresh).
  pose proof W1 as [HS1 LM1].
  destruct (SV1 b Hb Ha) as [Hb1 Fb].
  pose proof (shape_block _ _ _ _ HS1 Hb1) as (B1 & B2 & B3 & B4 & B5 & B6 & B7).
  pose proof (shape_block _ _ _ _ HS1 Hb') as (D1 & D2 & D3 & D4 & D5 & D6 & D7).
  pose proof (sh_lo _ _ _ HS1) as Hlo1.
  assert (Hne : b_addr b' <> b_addr b).
  { intros E. exact (Hfresh b Hb Ha (eq_sym E)). }
  assert (Hp0 : p <> NULL) by (unfold NULL; lia).
  set (n := Z.min (b_size b) size).
  assert (HCS : realloc_copy_size (b_addr b + 4) size s1 = Ok n s1).
  { unfold realloc_copy_size, WSIZE.
    replace (b_addr b + 4 - 4) with (b_addr b) by lia.
    step (shape_GET_SIZE _ _ _ _ HS1 Hb1). unfold ret. f_equal. unfold n.
    destruct (Z.ltb_spec size (b_size b)).
    - rewrite u32_small by lia. lia.
    - lia. }
  set (m2 := copy_bytes (mem s1) p (b_addr b + 4) n).
  assert (HMC : memcpy p (b_addr b + 4) n s1 = Ok tt (with_mem s1 m2)).
  { apply memcpy_ok; unfold n; lia. }
  assert (W2 : heap_wf (with_mem s1 m2) bs1 fl1).
  { apply (wf_payload_write s1 bs1 fl1 b'); auto.
    intros x Hx. unfold m2. apply copy_bytes_out. unfold n. lia. }
  destruct (in_split _ _ Hb1) as (L1 & L2 & ->).
  pose proof NA1 as NA1'. apply no_adjacent_free_mid in NA1'.
  destruct NA1' as (N1 & N2 & _).
  destruct W2 as [HS2 LM2].
  assert (Eb : set_alloc b true = b) by (rewrite <- Ha; apply block_eta).
  destruct (free_spec (with_mem s1 m2) L1 b L2 fl1 HS2
              ltac:(rewrite Eb; exact LM2) N1 N2)
    as (s' & bs' & fl' & HF & G' & W' & NA' & SV' & CV').
  assert (Hb'' : In b' (L1 ++ L2)).
  { apply in_app_or in Hb'. apply in_or_app.
    destruct Hb' as [H|[H|H]]; auto. subst b'. congruence. }
  destruct (SV' b' Hb'' Ha') as [Hb3 Fb'].
  exists s', bs', fl', b'.
  split.
  { unfold realloc. destruct (Z.eqb_spec (b_addr b + 4) NULL) as [E|_];
      [unfold NULL in E; lia|].
    destruct (Z.eqb_spec size 0); [lia|].
    step HM. destruct (Z.eqb_spec p NULL); [contradiction|].
    step HCS. step HMC. step HF. reflexivity. }
  split.
  { destruct G1 as (? & ? & ? & ?), G' as (? & ? & ? & ?).
    cbn [mem_lo mem_brk mem_max_addr heap_listp with_mem] in *.
    unfold grown. repeat split; congruence || lia. }
  split; [exact W'|]. split; [exact NA'|]. split; [exact Hb3|].
  split; [exact Ha'|]. split; [exact Ep|]. split; [exact Hsz'|].
  split; [exact Hne|]. split; [exact HCS|]. split.
  { intros i Hi. rewrite Fb' by lia. cbn [mem with_mem]. unfold m2.
    rewrite Ep. rewrite <- Ep. rewrite copy_bytes_in by (unfold n; lia).
    apply Fb. lia. }
  split; [exact CV'|]. split.
  { intros c Hc Hca Hcb. destruct (SV1 c Hc Hca) as [Hc1 _].
    apply (SV' c); auto. apply in_app_or in Hc1. apply in_or_app.
    destruct Hc1 as [H|[H|H]]; auto. congruence. }
  split.
  { unfold realloc. destruct (Z.eqb_spec (b_addr b + 4) NULL) as [E|_];
      [unfold NULL in E; lia|].
    destruct (Z.eqb_spec size 0); [lia|].
    step HM. destruct (Z.eqb_spec p NULL); [contradiction|].
    step HCS. reflexivity. }
  split.
  { intros i Hi. fold n in Hi. rewrite Fb' by lia. cbn [mem with_mem].
    unfold m2. apply copy_bytes_in. exact Hi. }
  intros i Hi. fold n in Hi. rewrite Fb' by lia. cbn [mem with_mem].
  unfold m2. apply copy_bytes_out. lia.
Qed.

(** *** [calloc] *)

Lemma calloc_zero s nmemb size :
  u64 (nmemb * size) = 0 -> calloc nmemb size s = Ok NULL s.
Proof. intros E. unfold calloc. cbv zeta. rewrite E. reflexivity. Qed.

Lemma calloc_spec s bs fl nmemb size p s1 :
  heap_wf s bs fl -> no_adjacent_free bs ->
  0 < u64 (nmemb * size) <= 2 ^ 32 - 16 ->
  malloc (u64 (nmemb * size)) s = Ok p s1 -> p <> SBRK_FAIL ->
  exists s' bs' fl' b',
    calloc nmemb size s = Ok p s' /\ grown s s' /\
    heap_wf s' bs' fl' /\ no_adjacent_free bs' /\
    In b' bs' /\ b_alloc b' = true /\ p = b_addr b' + 4 /\
    u64 (nmemb * size) + 8 <= b_size b' /\
    (forall i, 0 <= i < u64 (nmemb * size) -> mem s' (p + i) = 0) /\
    (forall c, In c bs -> b_alloc c = true ->
       In c bs' /\
       forall x, b_addr c <= x < b_addr c + b_size c -> mem s' x = mem s x).
Proof.
  intros HW NA Hsize HM Hp. set (bytes := u64 (nmemb * size)) in *.
  destruct (malloc_spec s bs fl bytes HW NA Hsize)
    as (p0 & s1' & bs1 & fl1 & HM' & G1 & W1 & NA1 & SV1 & [[E _]|Hnew]).
  { rewrite HM in HM'. congruence. }
  rewrite HM in HM'. injection HM' as <- <-.
  destruct Hnew as (b' & Hb' & Ha' & Ep & Hsz' & Hfresh).
  pose proof W1 as [HS1 LM1].
  pose proof (shape_block _ _ _ _ HS1 Hb') as (D1 & D2 & D3 & D4 & D5 & D6 & D7).
  pose proof (sh_lo _ _ _ HS1) as Hlo1.
  set (m2 := fill_bytes (mem s1) p 0 bytes).
  assert (HMS : memset p 0 bytes s1 = Ok tt (with_mem s1 m2)).
  { apply memset_ok; lia. }
  assert (W2 : heap_wf (with_mem s1 m2) bs1 fl1).
  { apply (wf_payload_write s1 bs1 fl1 b'); auto.
    intros x Hx. unfold m2. apply fill_bytes_out. lia. }
  exists (with_mem s1 m2), bs1, fl1, b'.
  split.
  { unfold calloc. cbv zeta. fold bytes. step HM. step HMS. reflexivity. }
  split; [exact G1|]. split; [exact W2|]. split; [exact NA1|].
  split; [exact Hb'|]. split; [exact Ha'|]. split; [exact Ep|].
  split; [exact Hsz'|]. split.
  { intros i Hi. cbn [mem with_mem]. unfold m2. apply fill_bytes_in. exact Hi. }
  intros c Hc Hca. destruct (SV1 c Hc Hca) as [Hc1 Fc]. split; [exact Hc1|].
  intros x Hx. cbn [mem with_mem]. unfold m2.
  rewrite fill_bytes_out; [apply Fc; exact Hx|].
  pose proof (shape_block _ _ _ _ HS1 Hc1) as (C1 & C2 & C3 & C4 & C5 & C6 & C7).
  destruct (contig_disjoint _ _ _ _ _ (sh_contig _ _ _ HS1) Hc1 Hb')
    as [->|[?|?]]; [|lia|lia].
  exfalso. exact (Hfresh b' Hc Hca eq_refl).
Qed.

(** *** [mm_init] *)

Lemma mm_init_spec s :
  fresh s ->
  exists s',
    mm_init s = Ok 0 s' /\
    heap_listp s' = mem_brk s /\ mem_brk s' = mem_brk s + 80 /\
    mem_lo s' = mem_lo s /\ mem_max_addr s' = mem_max_addr s /\
    heap_wf s' [] (fun _ => []).
Proof.
  intros (F1 & F2 & F3 & F4 & F5).
  set (p := mem_brk s) in *.
  set (s1 := with_heap_listp (with_brk s (p + 80)) p).
  assert (E : mem_sbrk (10 * DSIZE) s = Ok p (with_brk s (p + 80))).
  { unfold mem_sbrk, DSIZE. fold p.
    destruct (Z.ltb_spec (10 * 8) 0); [lia|].
    destruct (Z.ltb_spec (mem_max_addr s) (p + 10 * 8)); [lia|].
    reflexivity. }
  assert (V : forall m k n, 0 <= k -> k + Z.of_nat n <= 80 ->
            forall v, store n (p + k) v (with_mem s1 m)
                      = Ok tt (with_mem s1 (wr m (p + k) n v))).
  { intros m k n Hk Hn v.
    rewrite store_ok by (cbn [mem_lo mem_brk with_mem s1 with_heap_listp with_brk]; lia).
    reflexivity. }
  assert (Es1 : s1 = with_mem s1 (mem s)) by (destruct s; reflexivity).
  eexists. split.
  - unfold mm_init. step E. unfold bind at 1. unfold set_heap_listp at 1.
    fold s1. destruct (Z.eqb_spec p SBRK_FAIL) as [E'|_];
      [unfold SBRK_FAIL in E'; lia|].
    unfold PUT, WSIZE, NULL. rewrite PACK_0_1. cbv zeta.
    rewrite Es1.
    rewrite (bind_ok _ _ _ _ _ (V _ (8 * 0) 8%nat ltac:(lia) ltac:(lia) _)).
    cbv beta.
    rewrite (bind_ok _ _ _ _ _ (V _ (8 * 1) 8%nat ltac:(lia) ltac:(lia) _)).
    cbv beta.
    rewrite (bind_ok _ _ _ _ _ (V _ (8 * 2) 8%nat ltac:(lia) ltac:(lia) _)).
    cbv beta.
    rewrite (bind_ok _ _ _ _ _ (V _ (8 * 3) 8%nat ltac:(lia) ltac:(lia) _)).
    cbv beta.
    rewrite (bind_ok _ _ _ _ _ (V _ (8 * 4) 8%nat ltac:(lia) ltac:(lia) _)).
    cbv beta.
    rewrite (bind_ok _ _ _ _ _ (V _ (8 * 5) 8%nat ltac:(lia) ltac:(lia) _)).
    cbv beta.
    rewrite (bind_ok _ _ _ _ _ (V _ (8 * 6) 8%nat ltac:(lia) ltac:(lia) _)).
    cbv beta.
    rewrite (bind_ok _ _ _ _ _ (V _ (8 * 7) 8%nat ltac:(lia) ltac:(lia) _)).
    cbv beta.
    rewrite (bind_ok _ _ _ _ _ (V _ (8 * 8) 8%nat ltac:(lia) ltac:(lia) _)).
    cbv beta.
    rewrite (bind_ok _ _ _ _ _ (V _ (8 * 9) 4%nat ltac:(lia) ltac:(lia) _)).
    cbv beta. replace (p + 8 * 9 + 4) with (p + 76) by lia.
    rewrite (bind_ok _ _ _ _ _ (V _ 76 4%nat ltac:(lia) ltac:(lia) _)).
    reflexivity.
  - cbn [mem mem_lo mem_brk mem_max_addr heap_listp with_mem s1
         with_heap_listp with_brk].
    split; [reflexivity|]. split; [reflexivity|]. split; [reflexivity|].
    split; [reflexivity|]. split.
    + constructor;
        cbn [mem mem_lo mem_brk mem_max_addr heap_listp with_mem s1
             with_heap_listp with_brk]; try lia; auto.
      * simpl. lia.
      * rewrite rd_wr_other by lia. replace (p + 72) with (p + 8 * 9) by lia.
        apply rd_wr_4. lia.
      * replace (p + 80 - 4) with (p + 76) by lia. apply rd_wr_4. lia.
      * intros i Hi. unfold chain. cbn [lseg].
        assert (i = 0 \/ i = 1 \/ i = 2 \/ i = 3 \/ i = 4 \/ i = 5 \/
                i = 6 \/ i = 7 \/ i = 8) as Hc by lia.
        destruct Hc as [->|[->|[->|[->|[->|[->|[->|[->| ->]]]]]]]];
          repeat (rewrite rd_wr_other by lia); unfold NULL; apply rd_wr_8; lia.
      * intros. constructor.
      * intros i x _ [].
      * intros i j x _ _ [].
    + intros i x Hi. rewrite free_in_nil. simpl. tauto.
Qed.

(** *** Scanning the arena from the prologue to the epilogue *)

Lemma contig_length a bs e :
  contig a bs e -> 16 * Z.of_nat (length bs) <= e - a.
Proof.
  revert a. induction bs as [|b bs IH]; simpl length; intros a H.
  - simpl in H. lia.
  - destruct H as (H1 & H2 & H3 & H4). apply IH in H4. lia.
Qed.

Lemma scan_blocks_shape m bs : forall fuel a e,
  contig a bs e -> Forall (tagged m) bs ->
  (forall b, In b bs -> b_size b < 2 ^ 31) ->
  (length bs < fuel)%nat ->
  scan_blocks fuel m a e = Some bs.
Proof.
  induction bs as [|b bs IH]; intros fuel a e C T Hs Hf.
  - destruct fuel as [|k]; [simpl in Hf; lia|].
    simpl in C. subst. cbn [scan_blocks]. now rewrite Z.eqb_refl.
  - destruct fuel as [|k]; [simpl in Hf; lia|].
    destruct C as (C1 & C2 & C3 & C4). inversion T as [|? ? [T1 _] T2]; subst.
    pose proof (contig_le _ _ _ C4) as Hle.
    pose proof (Hs b (or_introl eq_refl)) as Hb.
    cbn [scan_blocks]. destruct (Z.eqb_spec (b_addr b) e) as [E|_]; [lia|].
    cbv zeta. rewrite T1.
    rewrite tag_size by (auto using mod8_mod2; lia).
    rewrite tag_alloc by auto using mod8_mod2.
    destruct (Z.leb_spec (b_size b) 0); [lia|].
    destruct (Z.ltb_spec e (b_addr b)); [lia|]. cbn [orb].
    rewrite (IH k (b_addr b + b_size b) e); auto.
    + f_equal. f_equal. rewrite <- (block_eta b) at 4. f_equal.
      destruct (b_alloc b); reflexivity.
    + intros c Hc. apply Hs. now right.
    + simpl in Hf. lia.
Qed.

Lemma arena_shape s bs fl : heap_shape s bs fl -> arena s = Some bs.
Proof.
  intros HS. unfold arena. apply scan_blocks_shape.
  - exact (sh_contig _ _ _ HS).
  - exact (sh_tags _ _ _ HS).
  - intros b Hb. pose proof (shape_block _ _ _ _ HS Hb). lia.
  - pose proof (contig_length _ _ _ (sh_contig _ _ _ HS)). lia.
Qed.

Lemma heap_ok_scan s : heap_ok s -> no_adjacent_free_scan s.
Proof.
  intros (bs & fl & [HS _] & NA). exists bs. split; [|exact NA].
  eapply arena_shape; eauto.
Qed.

(** ** The public operations keep the invariant *)

Lemma allocated_block s bs fl p sz :
  heap_wf s bs fl -> allocated s p sz -> In (mkBlock (p - 4) sz true) bs.
Proof.
  intros [HS _] (bs' & E & Hin).
  rewrite (arena_shape _ _ _ HS) in E. injection E as <-. exact Hin.
Qed.

Lemma malloc_preserves s size :
  heap_ok s -> 0 <= size <= 2 ^ 32 - 16 ->
  exists p s', malloc size s = Ok p s' /\ heap_ok s'.
Proof.
  intros (bs & fl & HW & NA) Hsize.
  destruct (Z.eq_dec size 0) as [->|Hne].
  - exists NULL, s. split; [reflexivity|]. exists bs, fl. auto.
  - destruct (malloc_spec s bs fl size HW NA ltac:(lia))
      as (p & s' & bs' & fl' & HM & _ & W & N & _).
    exists p, s'. split; [exact HM|]. exists bs', fl'. auto.
Qed.

Lemma free_preserves s p sz :
  heap_ok s -> allocated s p sz ->
  exists s', free p s = Ok tt s' /\ heap_ok s' /\
    exists bs', arena s' = Some bs' /\ no_adjacent_free bs' /\
      exists c, In c bs' /\ b_alloc c = false /\
                b_addr c <= p - 4 /\ p - 4 + sz <= b_addr c + b_size c.
Proof.
  intros (bs & fl & HW & NA) Hal.
  pose proof (allocated_block _ _ _ _ _ HW Hal) as Hb.
  destruct HW as [HS LM].
  destruct (in_split _ _ Hb) as (l1 & l2 & ->).
  apply no_adjacent_free_mid in NA. destruct NA as (N1 & N2 & _).
  destruct (free_spec s l1 _ l2 fl HS LM N1 N2)
    as (s' & bs' & fl' & HF & _ & W & N & _ & CV).
  cbn [b_addr b_size] in HF, CV. replace (p - 4 + 4) with p in HF by lia.
  exists s'. split; [exact HF|]. split; [exists bs', fl'; auto|].
  exists bs'. split; [|auto]. destruct W as [HS' _].
  eapply arena_shape; eauto.
Qed.

Lemma realloc_preserves s p sz size :
  heap_ok s -> allocated s p sz -> 0 < size <= 2 ^ 32 - 16 ->
  (forall s1, malloc size s <> Ok SBRK_FAIL s1) ->
  exists q s', realloc p size s = Ok q s' /\ heap_ok s'.
Proof.
  intros (bs & fl & HW & NA) Hal Hsize Hok.
  pose proof (allocated_block _ _ _ _ _ HW Hal) as Hb.
  destruct (malloc_spec s bs fl size HW NA Hsize)
    as (q & s1 & _ & _ & HM & _).
  assert (Hq : q <> SBRK_FAIL) by (intros ->; exact (Hok s1 HM)).
  destruct (realloc_spec s bs fl _ size q s1 HW NA Hb eq_refl Hsize HM Hq)
    as (s' & bs' & fl' & b' & HR & _ & W & N & _).
  cbn [b_addr] in HR. replace (p - 4 + 4) with p in HR by lia.
  exists q, s'. split; [exact HR|]. exists bs', fl'. auto.
Qed.

Lemma calloc_preserves s nmemb size :
  heap_ok s -> u64 (nmemb * size) <= 2 ^ 32 - 16 ->
  (forall s1, malloc (u64 (nmemb * size)) s <> Ok SBRK_FAIL s1) ->
  exists q s', calloc nmemb size s = Ok q s' /\ heap_ok s'.
Proof.
  intros Hok Hsize Hnf.
  assert (H0 : 0 <= u64 (nmemb * size)).
  { unfold u64. pose proof (Z.mod_pos_bound (nmemb * size) (2 ^ 64) ltac:(lia)). lia. }
  destruct (Z.eq_dec (u64 (nmemb * size)) 0) as [E|Hne].
  - exists NULL, s. split; [apply calloc_zero; exact E|exact Hok].
  - destruct Hok as (bs & fl & HW & NA).
    destruct (malloc_spec s bs fl (u64 (nmemb * size)) HW NA ltac:(lia))
      as (q & s1 & _ & _ & HM & _).
    assert (Hq : q <> SBRK_FAIL) by (intros ->; exact (Hnf s1 HM)).
    destruct (calloc_spec s bs fl nmemb size q s1 HW NA ltac:(lia) HM Hq)
      as (s' & bs' & fl' & b' & HC & _ & W & N & _).
    exists q, s'. split; [exact HC|]. exists bs', fl'. auto.
Qed.

(** ** Concrete heaps *)

Lemma fresh_example_heap : fresh example_heap.
Proof. unfold fresh, example_heap; cbn. repeat split; try lia; reflexivity. Qed.

Lemma init_heap_wf : heap_wf init_heap [] (fun _ => []).
Proof.
  destruct (mm_init_spec example_heap fresh_example_heap) as (s' & E & _ & _ & _ & _ & W).
  unfold init_heap, state_after. rewrite E. exact W.
Qed.

Lemma init_heap_ok : heap_ok init_heap.
Proof. exists [], (fun _ => []). split; [exact init_heap_wf|exact I]. Qed.

Lemma state_after_ok {A} (c : M A) s a s' :
  c s = Ok a s' -> state_after c s = s'.
Proof. intros E. unfold state_after. now rewrite E. Qed.

Lemma heap_ok_after_malloc s size :
  heap_ok s -> 0 <= size <= 2 ^ 32 - 16 ->
  heap_ok (state_after (malloc size) s).
Proof.
  intros H Hs. destruct (malloc_preserves s size H Hs) as (p & s' & E & Hok).
  now rewrite (state_after_ok _ _ _ _ E).
Qed.

Lemma heap_ok_after_free s p sz :
  heap_ok s -> allocated s p sz -> heap_ok (state_after (free p) s).
Proof.
  intros H Ha. destruct (free_preserves s p sz H Ha) as (s' & E & Hok & _).
  now rewrite (state_after_ok _ _ _ _ E).
Qed.

Lemma heap_ok_blocks s bs :
  heap_ok s -> arena s = Some bs ->
  exists fl, heap_wf s bs fl /\ no_adjacent_free bs.
Proof.
  intros (bs' & fl & HW & NA) E. destruct HW as [HS LM].
  rewrite (arena_shape _ _ _ HS) in E. injection E as <-.
  exists fl. split; [split; assumption|assumption].
Qed.

Lemma heap_big_free_ok : heap_ok heap_big_free.
Proof.
  apply heap_ok_after_free with (sz := 2008).
  - apply heap_ok_after_malloc; [exact init_heap_ok|lia].
  - exists [mkBlock 4172 2008 true]. split; [vm_compute; reflexivity|].
    simpl. auto.
Qed.

Lemma heap_free_alloc_ok : heap_ok heap_free_alloc.
Proof.
  apply heap_ok_after_free with (sz := 32).
  - apply heap_ok_after_malloc; [|lia].
    apply heap_ok_after_malloc; [exact init_heap_ok|lia].
  - exists [mkBlock 4172 32 true; mkBlock 4204 32 true].
    split; [vm_compute; reflexivity|]. simpl. auto.
Qed.

Lemma allocated_nonnull s p sz : heap_ok s -> allocated s p sz -> p <> NULL.
Proof.
  intros (bs & fl & HW & _) Hal.
  pose proof (allocated_block _ _ _ _ _ HW Hal) as Hb.
  destruct HW as [HS _].
  pose proof (shape_block _ _ _ _ HS Hb) as (B1 & _).
  pose proof (sh_lo _ _ _ HS). cbn [b_addr] in B1. unfold NULL. lia.
Qed.

Lemma realloc_zero_preserves s p sz :
  heap_ok s -> allocated s p sz ->
  exists s', realloc p 0 s = Ok NULL s' /\ free p s = Ok tt s' /\ heap_ok s'.
Proof.
  intros Hok Hal.
  pose proof (allocated_nonnull _ _ _ Hok Hal) as Hp.
  destruct (free_preserves s p sz Hok Hal) as (s' & HF & Hok' & _).
  exists s'. split; [|split; [exact HF|exact Hok']].
  unfold realloc. destruct (Z.eqb_spec p NULL) as [?|_]; [contradiction|].
  change (0 =? 0) with true. cbv iota. step HF. reflexivity.
Qed.

Lemma heap_five_allocated_ok : heap_ok heap_five_allocated.
Proof.
  unfold heap_five_allocated.
  repeat (apply heap_ok_after_malloc; [|lia]). exact init_heap_ok.
Qed.

Lemma heap_five_ok : heap_ok heap_five.
Proof.
  unfold heap_five.
  apply heap_ok_after_free with (sz := 32).
  { apply heap_ok_after_free with (sz := 32).
    { apply heap_ok_after_free with (sz := 32).
      { exact heap_five_allocated_ok. }
      eexists. split; [vm_compute; reflexivity|]. simpl. auto 10. }
    eexists. split; [vm_compute; reflexivity|]. simpl. auto 10. }
  eexists. split; [vm_compute; reflexivity|]. simpl. auto 10.
Qed.

Lemma heap_five_last_free_ok : heap_ok heap_five_last_free.
Proof.
  unfold heap_five_last_free.
  apply heap_ok_after_free with (sz := 32).
  { exact heap_five_allocated_ok. }
  eexists. split; [vm_compute; reflexivity|]. simpl. auto 10.
Qed.

Lemma heap_five_arena :
  arena heap_five
  = Some [mkBlock 4172 32 false; mkBlock 4204 32 true; mkBlock 4236 32 false;
          mkBlock 4268 32 true; mkBlock 4300 32 false].
Proof. vm_compute. reflexivity. Qed.

(** ** The statements of the specification *)

(** C1 (the code departs from the claim).  On a heap that cannot grow,
    [malloc 24] finds no fit, [mem_sbrk] fails, and [malloc] hands the
    failure value of [mem_sbrk], [(void * )-1], back to its caller: the
    result is not [NULL] although growth failed. *)
Theorem malloc_growth_failure_is_not_null :
  returns ((mm_init ;; malloc 24) full_heap)
    (fun p s => p = SBRK_FAIL /\ p <> NULL /\ mem_brk s = 4096 + 80).
Proof.
  vm_compute. split; [reflexivity|]. split; [discriminate|reflexivity].
Qed.

(** C4 (the code departs from the claim).  On a heap that cannot grow the
    allocation inside [calloc 1 24] fails with [(void * )-1]; [calloc]
    does not test the result and its [memset] writes at that address,
    outside the heap: it crashes instead of returning [NULL]. *)
Theorem calloc_growth_failure_crashes :
  returns ((mm_init ;; malloc (u64 (1 * 24))) full_heap)
    (fun p _ => p = SBRK_FAIL) /\
  (mm_init ;; calloc 1 24) full_heap = Crash.
Proof.
  split.
  - vm_compute. reflexivity.
  - vm_compute. reflexivity.
Qed.

(** C2, as stated, fails: after [malloc 24], [free], [malloc 4294967288],
    [malloc 100] and [free], all of which complete, the arena holds two
    adjacent free blocks. *)
Lemma adjacent_free_after_truncated_request :
  returns
    ((mm_init ;;
      p <- malloc 24 ;; free p ;;
      malloc 4294967288 ;;
      r <- malloc 100 ;; free r) example_heap)
    (fun _ s =>
       arena s = Some [mkBlock 4172 32 false; mkBlock 4204 112 false] /\
       ~ no_adjacent_free_scan s).
Proof.
  vm_compute. split; [reflexivity|].
  intros (bs & E & H). injection E as <-.
  destruct H as [[H|H] _]; discriminate H.
Qed.

(** C2 (amended).  On a heap that satisfies the invariant, every public
    operation whose request is at most [2^32 - 16] bytes and whose
    allocation does not fail completes and leaves the invariant in
    place; scanning the arena from the prologue to the epilogue then
    finds no two adjacent free blocks.  This holds for [malloc], for
    [free] of an allocated block and of [NULL], for [realloc] of an
    allocated block to a size that is not 0, for [realloc] to size 0,
    which is [free], for [realloc] of [NULL], which is [malloc], and for
    [calloc].  [free] leaves the freed bytes inside one free block,
    whichever of the two neighbours were free. *)
Theorem no_adjacent_free_after_operations s :
  heap_ok s ->
  (forall size, 0 <= size <= 2 ^ 32 - 16 ->
     exists p s', malloc size s = Ok p s' /\ heap_ok s' /\
                  no_adjacent_free_scan s') /\
  (forall p sz, allocated s p sz ->
     exists s', free p s = Ok tt s' /\ heap_ok s' /\
       exists bs', arena s' = Some bs' /\ no_adjacent_free bs' /\
         exists c, In c bs' /\ b_alloc c = false /\
                   b_addr c <= p - 4 /\ p - 4 + sz <= b_addr c + b_size c) /\
  free NULL s = Ok tt s /\
  (forall p sz size, allocated s p sz -> 0 < size <= 2 ^ 32 - 16 ->
     (forall s1, malloc size s <> Ok SBRK_FAIL s1) ->
     exists q s', realloc p size s = Ok q s' /\ heap_ok s' /\
                  no_adjacent_free_scan s') /\
  (forall p sz, allocated s p sz ->
     exists s', realloc p 0 s = Ok NULL s' /\ free p s = Ok tt s' /\
                heap_ok s' /\ no_adjacent_free_scan s') /\
  (forall size, realloc NULL size s = malloc size s) /\
  (forall nmemb size, u64 (nmemb * size) <= 2 ^ 32 - 16 ->
     (forall s1, malloc (u64 (nmemb * size)) s <> Ok SBRK_FAIL s1) ->
     exists q s', calloc nmemb size s = Ok q s' /\ heap_ok s' /\
                  no_adjacent_free_scan s').
Proof.
  intros Hok. split; [|split; [|split; [|split; [|split; [|split]]]]].
  - intros size Hs.
    destruct (malloc_preserves s size Hok Hs) as (p & s' & E & H).
    exists p, s'. auto using heap_ok_scan.
  - intros p sz Hal. exact (free_preserves s p sz Hok Hal).
  - reflexivity.
  - intros p sz size Hal Hs Hnf.
    destruct (realloc_preserves s p sz size Hok Hal Hs Hnf) as (q & s' & E & H).
    exists q, s'. auto using heap_ok_scan.
  - intros p sz Hal.
    destruct (realloc_zero_preserves s p sz Hok Hal) as (s' & E & F & H).
    exists s'. auto using heap_ok_scan.
  - reflexivity.
  - intros nmemb size Hs Hnf.
    destruct (calloc_preserves s nmemb size Hok Hs Hnf) as (q & s' & E & H).
    exists q, s'. auto using heap_ok_scan.
Qed.

Lemma no_adjacent_free_after_operations_witness :
  (exists s', free 4240 heap_five_allocated = Ok tt s' /\ heap_ok s' /\
     arena s' = Some [mkBlock 4172 32 true; mkBlock 4204 32 true;
                      mkBlock 4236 32 false; mkBlock 4268 32 true;
                      mkBlock 4300 32 true]) /\
  (exists s', free 4208 heap_free_alloc = Ok tt s' /\ heap_ok s' /\
     arena s' = Some [mkBlock 4172 64 false]) /\
  (exists s', free 4272 heap_five_last_free = Ok tt s' /\ heap_ok s' /\
     arena s' = Some [mkBlock 4172 32 true; mkBlock 4204 32 true;
                      mkBlock 4236 32 true; mkBlock 4268 64 false]) /\
  (exists s', free 4208 heap_five = Ok tt s' /\ heap_ok s' /\
     arena s' = Some [mkBlock 4172 96 false; mkBlock 4268 32 true;
                      mkBlock 4300 32 false]) /\
  (exists s', free 4272 heap_five = Ok tt s' /\ heap_ok s' /\
     arena s' = Some [mkBlock 4172 32 false; mkBlock 4204 32 true;
                      mkBlock 4236 96 false]) /\
  (exists p s', malloc 24 heap_five = Ok p s' /\ no_adjacent_free_scan s') /\
  (exists s', realloc 4208 0 heap_five = Ok NULL s' /\
              no_adjacent_free_scan s') /\
  (exists q s', realloc 4208 40 heap_five = Ok q s' /\
                no_adjacent_free_scan s') /\
  (exists q s', calloc 3 8 heap_five = Ok q s' /\ no_adjacent_free_scan s').
Proof.
  assert (A0 : allocated heap_five_allocated 4240 32).
  { eexists. split; [vm_compute; reflexivity|]. simpl. auto 6. }
  assert (A1 : allocated heap_free_alloc 4208 32).
  { eexists. split; [vm_compute; reflexivity|]. simpl. auto. }
  assert (A2 : allocated heap_five_last_free 4272 32).
  { eexists. split; [vm_compute; reflexivity|]. simpl. auto 6. }
  assert (A3 : allocated heap_five 4208 32).
  { eexists. split; [exact heap_five_arena|]. simpl. auto. }
  assert (A4 : allocated heap_five 4272 32).
  { eexists. split; [exact heap_five_arena|]. simpl. auto 6. }
  assert (Hq1 : returns (malloc 40 heap_five) (fun q _ => q <> SBRK_FAIL))
    by (vm_compute; discriminate).
  assert (Hq2 : returns (malloc (u64 (3 * 8)) heap_five)
                  (fun q _ => q <> SBRK_FAIL)) by (vm_compute; discriminate).
  destruct (no_adjacent_free_after_operations _ heap_five_allocated_ok)
    as (_ & HF0 & _).
  destruct (no_adjacent_free_after_operations _ heap_free_alloc_ok)
    as (_ & HF1 & _).
  destruct (no_adjacent_free_after_operations _ heap_five_last_free_ok)
    as (_ & HF2 & _).
  destruct (no_adjacent_free_after_operations _ heap_five_ok)
    as (HM & HF & _ & HR & HR0 & _ & HC).
  split; [|split; [|split; [|split; [|split; [|split; [|split; [|split]]]]]]].
  - destruct (HF0 4240 32 A0) as (s' & E & Hok' & _).
    exists s'. split; [exact E|]. split; [exact Hok'|].
    rewrite <- (state_after_ok _ _ _ _ E). vm_compute. reflexivity.
  - destruct (HF1 4208 32 A1) as (s' & E & Hok' & _).
    exists s'. split; [exact E|]. split; [exact Hok'|].
    rewrite <- (state_after_ok _ _ _ _ E). vm_compute. reflexivity.
  - destruct (HF2 4272 32 A2) as (s' & E & Hok' & _).
    exists s'. split; [exact E|]. split; [exact Hok'|].
    rewrite <- (state_after_ok _ _ _ _ E). vm_compute. reflexivity.
  - destruct (HF 4208 32 A3) as (s' & E & Hok' & _).
    exists s'. split; [exact E|]. split; [exact Hok'|].
    rewrite <- (state_after_ok _ _ _ _ E). vm_compute. reflexivity.
  - destruct (HF 4272 32 A4) as (s' & E & Hok' & _).
    exists s'. split; [exact E|]. split; [exact Hok'|].
    rewrite <- (state_after_ok _ _ _ _ E). vm_compute. reflexivity.
  - destruct (HM 24 ltac:(lia)) as (p & s' & E & _ & H).
    exists p, s'. split; [exact E|exact H].
  - destruct (HR0 4208 32 A3) as (s' & E & _ & _ & H).
    exists s'. split; [exact E|exact H].
  - destruct (HR 4208 32 40 A3 ltac:(lia)) as (q & s' & E & _ & H).
    { intros s1 E. rewrite E in Hq1. cbn [returns] in Hq1.
      exact (Hq1 eq_refl). }
    exists q, s'. split; [exact E|exact H].
  - destruct (HC 3 8) as (q & s' & E & _ & H).
    { vm_compute. discriminate. }
    { intros s1 E. rewrite E in Hq2. cbn [returns] in Hq2.
      exact (Hq2 eq_refl). }
    exists q, s'. split; [exact E|exact H].
Defined.

(** C3, as stated, fails: [realloc] does not copy the lesser of the
    payload size and the new size.  For a block of 32 bytes (24 bytes of
    payload) resized to 40 bytes it copies 32 bytes, the size of the whole
    block, so that the old footer and the header that follows it land in
    the new payload. *)
Lemma realloc_copies_block_size_counterexample :
  returns
    ((mm_init ;;
      p <- malloc 24 ;;
      sz <- GET_SIZE (p - WSIZE) ;;
      bp <- malloc 40 ;;
      n <- realloc_copy_size p 40 ;;
      ret (sz, n)) example_heap)
    (fun r _ => r = (32, 32) /\ snd r <> Z.min (fst r - 8) 40) /\
  returns
    ((mm_init ;; p <- malloc 24 ;; realloc p 40) example_heap)
    (fun q s => rd (mem s) (q + 24) 4 = 33 /\ rd (mem s) (q + 28) 4 = 49).
Proof.
  split.
  - vm_compute. split; [reflexivity|discriminate].
  - vm_compute. split; reflexivity.
Qed.

(** C3 (amended).  For an allocated block of [sz] bytes at [p] and a
    request of [0 < size <= 2^32 - 16] bytes whose allocation does not
    fail, [realloc] returns the pointer [q] that [malloc] returns, which
    belongs to an allocated block of at least [size + 8] bytes that does
    not overlap the old block.  From the state [s1] in which [malloc]
    leaves the heap, [realloc] is the copy of [min sz size] bytes from
    [p] to [q], where [sz] is the size of the whole old block, header
    and footer included, followed by [free p]: afterwards the first
    [min sz size] bytes at [q] are those that were at [p], the old
    footer and the word behind it among them when [size] reaches that
    far, and the rest of the new payload is as [malloc] left it.  The
    first [min (sz - 8) size] bytes of the old payload, as they were
    before the call, are found in the new one; the old block ends up
    inside a free block; the heap invariant holds afterwards. *)
Theorem realloc_moves_and_keeps_payload s p sz size q s1 :
  heap_ok s -> allocated s p sz -> 0 < size <= 2 ^ 32 - 16 ->
  malloc size s = Ok q s1 -> q <> SBRK_FAIL ->
  exists s' sz',
    realloc p size s = Ok q s' /\ heap_ok s' /\
    allocated s' q sz' /\ size + 8 <= sz' /\
    (q + sz' <= p \/ p + sz <= q) /\
    realloc p size s
    = (memcpy q p (Z.min sz size) ;; free p ;; ret q) s1 /\
    realloc_copy_size p size s1 = Ok (Z.min sz size) s1 /\
    (forall i, 0 <= i < Z.min sz size -> mem s' (q + i) = mem s1 (p + i)) /\
    (forall i, Z.min sz size <= i < sz' - 8 ->
       mem s' (q + i) = mem s1 (q + i)) /\
    (forall i, 0 <= i < Z.min (sz - 8) size ->
       mem s' (q + i) = mem s (p + i)) /\
    (exists bs' c, arena s' = Some bs' /\ In c bs' /\ b_alloc c = false /\
                   b_addr c <= p - 4 /\ p - 4 + sz <= b_addr c + b_size c).
Proof.
  intros (bs & fl & HW & NA) Hal Hsize HM Hq.
  pose proof (allocated_block _ _ _ _ _ HW Hal) as Hb.
  destruct (realloc_spec s bs fl _ size q s1 HW NA Hb eq_refl Hsize HM Hq)
    as (s' & bs' & fl' & b' & HR & _ & W & N & Hb' & Ha' & Eq & Hsz & Hne
        & HCS & HCP & (c & Hc & Hcf & Hc1 & Hc2) & _ & HEQ & HCE & HCR).
  cbn [b_addr b_size] in HR, Hne, HCS, HCP, Hc1, Hc2, HEQ, HCE, HCR.
  replace (p - 4 + 4) with p in HR, HCS, HCP, HEQ, HCE by lia.
  pose proof W as [HS' _].
  pose proof (arena_shape _ _ _ HS') as HA.
  exists s', (b_size b').
  split; [exact HR|]. split; [exists bs', fl'; auto|].
  split.
  { exists bs'. split; [exact HA|].
    replace (q - 4) with (b_addr b') by lia.
    rewrite <- Ha', block_eta. exact Hb'. }
  split; [exact Hsz|]. split.
  { pose proof (shape_block _ _ _ _ HS' Hb').
    pose proof (shape_block _ _ _ _ HS' Hc).
    destruct (contig_disjoint _ _ _ _ _ (sh_contig _ _ _ HS') Hb' Hc)
      as [->|[?|?]]; [congruence|lia|lia]. }
  split; [exact HEQ|]. split; [exact HCS|]. split; [exact HCE|].
  split; [exact HCR|]. split.
  { intros i Hi. apply HCP. lia. }
  exists bs', c. auto.
Qed.

Lemma realloc_moves_and_keeps_payload_witness :
  exists s1 s' sz',
    malloc 40 (state_after (malloc 24) init_heap) = Ok 4208 s1 /\
    realloc 4176 40 (state_after (malloc 24) init_heap) = Ok 4208 s' /\
    heap_ok s' /\ allocated s' 4208 sz' /\ 40 + 8 <= sz' /\
    (forall i, 0 <= i < 32 -> mem s' (4208 + i) = mem s1 (4176 + i)) /\
    (forall i, 32 <= i < sz' - 8 -> mem s' (4208 + i) = mem s1 (4208 + i)).
Proof.
  assert (Hq : returns (malloc 40 (state_after (malloc 24) init_heap))
                 (fun q _ => q = 4208)) by (vm_compute; reflexivity).
  destruct (malloc 40 (state_after (malloc 24) init_heap))
    as [q s1| |] eqn:E; try contradiction.
  cbn [returns] in Hq. subst q.
  destruct (realloc_moves_and_keeps_payload
              (state_after (malloc 24) init_heap) 4176 32 40 4208 s1)
    as (s' & sz' & H1 & H2 & H3 & H4 & _ & _ & _ & H5 & H6 & _).
  - apply heap_ok_after_malloc; [exact init_heap_ok|lia].
  - exists [mkBlock 4172 32 true]. split; [vm_compute; reflexivity|].
    simpl. auto.
  - lia.
  - exact E.
  - discriminate.
  - exists s1, s', sz'. split; [reflexivity|]. split; [exact H1|].
    split; [exact H2|]. split; [exact H3|]. split; [exact H4|].
    split; [exact H5|exact H6].
Defined.

(** *** What the search and the growth do to the state, whatever the heap *)

Lemma load_state n p s v s' : load n p s = Ok v s' -> s' = s.
Proof. unfold load. destruct (valid s p (Z.of_nat n)); congruence. Qed.

Lemma GET_SIZE_state p s v s' : GET_SIZE p s = Ok v s' -> s' = s.
Proof.
  unfold GET_SIZE, GET. intros H. apply bind_inv in H.
  destruct H as (w & s0 & H1 & H2). apply load_state in H1.
  unfold ret in H2. congruence.
Qed.

Lemma first_fit_scan_state fuel : forall asize ptr s r s1,
  first_fit_scan fuel asize ptr s = Ok r s1 ->
  exists pv, s1 = with_prevPtr s pv.
Proof.
  induction fuel as [|k IH]; intros asize ptr s r s1 H; [discriminate|].
  cbn [first_fit_scan] in H. destruct (ptr =? NULL).
  - injection H as _ <-. exists (prevPtr s). now rewrite with_prevPtr_id.
  - apply bind_inv in H. destruct H as (sz & s0 & H1 & H2).
    apply GET_SIZE_state in H1. subst s0.
    destruct (asize <=? sz).
    + injection H2 as _ <-. exists (prevPtr s). now rewrite with_prevPtr_id.
    + unfold bind at 1 in H2. unfold set_prevPtr at 1 in H2.
      apply bind_inv in H2. destruct H2 as (nx & s0 & H2 & H3).
      apply load_state in H2. subst s0.
      apply IH in H3. destruct H3 as (pv & ->). exists pv. reflexivity.
Qed.

Lemma first_fit_escalate_state n : forall index s r s1,
  first_fit_escalate n index s = Ok r s1 ->
  exists pv, s1 = with_prevPtr s pv.
Proof.
  induction n as [|k IH]; intros index s r s1 H.
  - injection H as _ <-. exists (prevPtr s). now rewrite with_prevPtr_id.
  - cbn [first_fit_escalate] in H. rewrite (bind_ok _ _ _ _ _ (bucket_ok index s)) in H.
    apply bind_inv in H. destruct H as (ptr & s0 & H1 & H2).
    apply load_state in H1. subst s0. destruct (ptr =? NULL).
    + eauto.
    + injection H2 as _ <-. exists NULL. reflexivity.
Qed.

Lemma first_fit_state asize index s r s1 :
  first_fit asize index s = Ok r s1 -> exists pv, s1 = with_prevPtr s pv.
Proof.
  unfold first_fit. unfold bind at 1. unfold set_prevPtr at 1.
  rewrite (bind_ok _ _ _ _ _ (bucket_ok index (with_prevPtr s NULL))).
  intros H. apply bind_inv in H. destruct H as (ptr & s0 & H1 & H2).
  apply load_state in H1. subst s0.
  unfold bind at 1 in H2. unfold walk_bound at 1 in H2.
  apply bind_inv in H2. destruct H2 as (r0 & s0 & H2 & H3).
  apply first_fit_scan_state in H2. destruct H2 as (pv & ->).
  destruct r0 as [x|].
  - injection H3 as _ <-. exists pv. reflexivity.
  - apply first_fit_escalate_state in H3. destruct H3 as (pv' & ->).
    exists pv'. reflexivity.
Qed.

Lemma bind_PUT {A} (k : M A) p v s :
  mem_lo s <= p -> p + 4 <= mem_brk s ->
  (PUT p v ;; k) s = k (with_mem s (wr (mem s) p 4 v)).
Proof. intros H1 H2. now rewrite (bind_ok _ _ _ _ _ (PUT_ok p v s H1 H2)). Qed.

Lemma extend_heap_run s n :
  mem_lo s + 4 <= mem_brk s -> 8 <= n ->
  mem_brk s + n <= mem_max_addr s -> mem_max_addr s < 2 ^ 64 - 1 ->
  extend_heap n s
  = Ok (mem_brk s)
      (with_mem (with_brk s (mem_brk s + n))
         (wr (wr (wr (mem s) (mem_brk s - 4) 4 (PACK n 1))
                (mem_brk s + n - 8) 4 (PACK n 1))
            (mem_brk s + n - 4) 4 (PACK 0 1))).
Proof.
  intros Hlo Hn Hroom Hptr. unfold extend_heap, bind at 1, mem_sbrk.
  destruct (Z.ltb_spec n 0); [lia|].
  destruct (Z.ltb_spec (mem_max_addr s) (mem_brk s + n)); [lia|]. cbn [orb].
  destruct (Z.eqb_spec (mem_brk s) SBRK_FAIL) as [E|_];
    [unfold SBRK_FAIL in E; lia|].
  unfold WSIZE, DSIZE.
  rewrite !bind_PUT by (cbn [mem_lo mem_brk with_brk with_mem]; lia).
  reflexivity.
Qed.

(** C5, as stated, fails: for the request of [2^32 + 16] bytes on an
    initialised heap the search reports no fit and [malloc] grows the
    heap by 24 bytes, not by the required size [2^32 + 24]. *)
Lemma malloc_grows_by_truncated_size :
  required_size 4294967312 = 4294967320 /\
  returns (mm_init example_heap) (fun _ s => mem_brk s = 4176) /\
  returns
    ((mm_init ;;
      first_fit (u32 (required_size 4294967312))
        (getIndex (required_size 4294967312))) example_heap)
    (fun r _ => r = NULL) /\
  returns ((mm_init ;; malloc 4294967312) example_heap)
    (fun p s => p = 4176 /\ mem_brk s = 4176 + 24 /\
                mem_brk s <> 4176 + required_size 4294967312).
Proof.
  split; [reflexivity|]. split; [vm_compute; reflexivity|].
  split; [vm_compute; reflexivity|].
  vm_compute. split; [reflexivity|]. split; [reflexivity|discriminate].
Qed.

(** C5 (amended).  For a request of [0 < size < 2^31 - 16] bytes on which
    the search reports no fit, and when the heap has room, [malloc] grows
    the heap by exactly the required size (the request plus 8, rounded up
    to a multiple of 8) and returns the start of the new region; the new
    block is tagged allocated with that size, and nothing below its
    header is written: no bucket head and no list node changes. *)
Theorem malloc_miss_grows_by_required_size s s1 size :
  0 < size < 2 ^ 31 - 16 ->
  first_fit (u32 (required_size size)) (getIndex (required_size size)) s
  = Ok NULL s1 ->
  mem_lo s + 4 <= mem_brk s ->
  mem_brk s + required_size size <= mem_max_addr s ->
  mem_max_addr s < 2 ^ 64 - 1 ->
  required_size size mod 8 = 0 /\
  size + 8 <= required_size size < size + 16 /\
  exists s',
    malloc size s = Ok (mem_brk s) s' /\
    mem_brk s' = mem_brk s + required_size size /\
    GET_SIZE (mem_brk s - 4) s' = Ok (required_size size) s' /\
    GET_ALLOC (mem_brk s - 4) s' = Ok 1 s' /\
    heap_listp s' = heap_listp s /\
    (forall x, x < mem_brk s - 4 -> mem s' x = mem s x).
Proof.
  intros Hsize HFF Hlo Hroom Hptr.
  destruct (required_size_spec size ltac:(lia)) as (Am & Ar).
  set (asize := required_size size) in *.
  split; [exact Am|]. split; [exact Ar|].
  destruct (first_fit_state _ _ _ _ _ HFF) as (pv & ->).
  pose proof (extend_heap_run (with_prevPtr s pv) asize
                ltac:(cbn [mem_lo mem_brk with_prevPtr]; lia) ltac:(lia)
                ltac:(cbn [mem_brk mem_max_addr with_prevPtr]; lia)
                ltac:(cbn [mem_max_addr with_prevPtr]; lia)) as HE.
  cbn [mem mem_brk with_prevPtr] in HE.
  assert (HP : PACK asize 1 = tag asize true).
  { apply (PACK_tag asize true); [lia | now apply mod8_mod2]. }
  rewrite HP, PACK_0_1 in HE.
  pose proof (tag_range asize true ltac:(lia)) as Htr.
  eexists. split; [|split; [|split; [|split; [|split]]]].
  - unfold malloc. destruct (Z.eqb_spec size 0); [lia|].
    cbv zeta. fold asize. step HFF. rewrite Z.eqb_refl.
    rewrite s32_small by lia. step HE. reflexivity.
  - reflexivity.
  - apply GET_SIZE_tag with (al := true);
      cbn [mem mem_lo mem_brk with_mem with_brk with_prevPtr]; auto; try lia.
    rewrite !rd_wr_other by lia. apply rd_wr_4. exact Htr.
  - apply (GET_ALLOC_tag _ _ asize true);
      cbn [mem mem_lo mem_brk with_mem with_brk with_prevPtr]; auto; try lia.
    rewrite !rd_wr_other by lia. apply rd_wr_4. exact Htr.
  - reflexivity.
  - intros x Hx. cbn [mem with_mem]. rewrite !wr_out by lia. reflexivity.
Qed.

Lemma malloc_miss_grows_by_required_size_witness :
  exists s', malloc 24 init_heap = Ok (mem_brk init_heap) s' /\
             mem_brk s' = mem_brk init_heap + required_size 24.
Proof.
  assert (Hr : returns (first_fit (u32 (required_size 24))
                          (getIndex (required_size 24)) init_heap)
                 (fun r _ => r = NULL)) by (vm_compute; reflexivity).
  destruct (first_fit (u32 (required_size 24)) (getIndex (required_size 24))
              init_heap) as [r s1| |] eqn:E; try contradiction.
  cbn [returns] in Hr. subst r.
  destruct (malloc_miss_grows_by_required_size init_heap s1 24)
    as (_ & _ & s' & H1 & H2 & _).
  - lia.
  - exact E.
  - apply Z.leb_le. vm_compute. reflexivity.
  - apply Z.leb_le. vm_compute. reflexivity.
  - apply Z.ltb_lt. vm_compute. reflexivity.
  - exists s'. auto.
Defined.

(** C6, as stated, fails in its last clause: [first_fit] returns [NULL]
    although the natural bucket is not empty.  After [malloc 8] and
    [free], bucket 0 holds one block of 16 bytes; the search for 32
    bytes in bucket 0, the natural bucket of 32, finds no fit there and
    nothing above, and returns [NULL]. *)
Lemma first_fit_null_with_nonempty_bucket :
  getIndex 32 = 0 /\
  returns
    ((mm_init ;;
      p <- malloc 8 ;; free p ;;
      r <- first_fit 32 0 ;;
      b <- bucket 0 ;;
      h <- load 8 b ;;
      sz <- GET_SIZE h ;;
      ret (r, h, sz)) example_heap)
    (fun v _ => v = (NULL, 4172, 16) /\ snd (fst v) <> NULL).
Proof.
  split; [reflexivity|]. vm_compute. split; [reflexivity|discriminate].
Qed.

(** C6 (amended).  On a well-shaped heap, for a bucket [index]:
    - if the list of the bucket has a first block [x] of size at least
      [asize], [first_fit] returns [x] and leaves its list predecessor
      in [prevPtr] ([NULL] when [x] is the head);
    - if the bucket has no fit, [first_fit] returns the head of the next
      higher bucket that is not empty, whatever its size, with [prevPtr]
      reset to [NULL];
    - [first_fit] always returns, and it returns [NULL] exactly when the
      bucket has no block of size at least [asize] and every higher
      bucket is empty. *)
Theorem first_fit_policy s bs fl asize index :
  heap_shape s bs fl -> 0 <= index <= 8 ->
  (forall l1 x l2,
     fl index = l1 ++ x :: l2 ->
     (forall y, In y l1 -> size_at bs y < asize) ->
     asize <= size_at bs x ->
     first_fit asize index s = Ok x (with_prevPtr s (last l1 NULL))) /\
  (forall j0 y rest,
     (forall z, In z (fl index) -> size_at bs z < asize) ->
     index < j0 <= 8 -> (forall j, index < j < j0 -> fl j = []) ->
     fl j0 = y :: rest ->
     first_fit asize index s = Ok y (with_prevPtr s NULL)) /\
  (exists r s',
     first_fit asize index s = Ok r s' /\
     (r = NULL <->
      (forall z, In z (fl index) -> size_at bs z < asize) /\
      (forall j, index < j <= 8 -> fl j = []))).
Proof.
  intros HS Hi. split; [|split].
  - intros l1 x l2 Hfl Hlt Hge. eapply first_fit_hit; eauto.
  - intros j0 y rest Hlt Hj0 He Hy. eapply first_fit_up; eauto.
  - destruct (list_first_fit (size_at bs) asize (fl index))
      as [(l1 & x & l2 & Hfl & H1 & H2)|Hmiss].
    + exists x, (with_prevPtr s (last l1 NULL)).
      split; [eapply first_fit_hit; eauto|].
      assert (Hx : In x (fl index))
        by (rewrite Hfl; apply in_or_app; simpl; auto).
      split.
      * intros ->. exfalso.
        exact (lseg_nonnull _ _ _ _ _ (sh_chain _ _ _ HS index Hi) Hx eq_refl).
      * intros [Hlt _]. specialize (Hlt x Hx). lia.
    + destruct (first_nonempty fl (Z.to_nat (8 - index)) (index + 1))
        as [He|(j0 & y & rest & Hj0 & He & Hy)].
      * exists NULL, (with_prevPtr s (last (fl index) NULL)). split.
        -- apply (first_fit_null s bs fl asize index HS Hi Hmiss).
           intros j Hj. apply He. lia.
        -- split; [|reflexivity]. intros _. split; [exact Hmiss|].
           intros j Hj. apply He. lia.
      * exists y, (with_prevPtr s NULL). split.
        -- eapply first_fit_up; eauto; try lia. intros j Hj. apply He. lia.
        -- assert (Hyj : In y (fl j0)) by (rewrite Hy; now left).
           split.
           ++ intros ->. exfalso.
              exact (lseg_nonnull _ _ _ _ _
                       (sh_chain _ _ _ HS j0 ltac:(lia)) Hyj eq_refl).
           ++ intros [_ Hall]. rewrite (Hall j0 ltac:(lia)) in Hy. discriminate.
Qed.

Lemma first_fit_policy_witness :
  exists r s', first_fit 32 0 heap_free_alloc = Ok r s'.
Proof.
  destruct (heap_ok_blocks heap_free_alloc
              [mkBlock 4172 32 false; mkBlock 4204 32 true]
              heap_free_alloc_ok) as (fl & HW & NA).
  { vm_compute. reflexivity. }
  destruct (first_fit_policy heap_free_alloc _ fl 32 0 (proj1 HW)
              ltac:(lia)) as (_ & _ & r & s' & H & _).
  exists r, s'. exact H.
Defined.

(** *** Results of [extend_heap] and [place] *)

Lemma store_state_brk n p v s s' :
  store n p v s = Ok tt s' -> mem_brk s' = mem_brk s.
Proof.
  unfold store. destruct (valid s p (Z.of_nat n)); [|discriminate].
  intros H. injection H as <-. reflexivity.
Qed.

Lemma extend_heap_result n s p s' :
  extend_heap n s = Ok p s' -> p = SBRK_FAIL \/ p = mem_brk s.
Proof.
  unfold extend_heap. intros H. apply bind_inv in H.
  destruct H as (bp & s0 & H1 & H2).
  assert (Hbp : bp = SBRK_FAIL \/ bp = mem_brk s).
  { unfold mem_sbrk in H1.
    destruct ((n <? 0) || (mem_max_addr s <? mem_brk s + n));
      injection H1 as <- _; auto. }
  destruct (Z.eqb_spec bp SBRK_FAIL) as [->|Hne].
  - injection H2 as <- _. now left.
  - apply bind_inv in H2. destruct H2 as (? & ? & _ & H2).
    apply bind_inv in H2. destruct H2 as (? & ? & _ & H2).
    apply bind_inv in H2. destruct H2 as (? & ? & _ & H2).
    injection H2 as <- _. exact Hbp.
Qed.

Lemma place_result asize bp prev s p s' :
  place asize bp prev s = Ok p s' -> p = bp + 4.
Proof.
  unfold place. intros H. apply bind_inv in H.
  destruct H as (sz & s0 & _ & H). cbv zeta in H.
  apply bind_inv in H. destruct H as (? & ? & _ & H).
  injection H as <- _. reflexivity.
Qed.

(** C8.  On a heap that satisfies the invariant, the pointer that
    [malloc] returns after a free-list placement or after a successful
    growth of the heap (any result other than [NULL] and the failure
    value of [mem_sbrk]) is a multiple of 8, for every request. *)
Theorem malloc_returns_aligned s size p s' :
  heap_ok s -> malloc size s = Ok p s' ->
  p <> NULL -> p <> SBRK_FAIL -> p mod ALIGNMENT = 0.
Proof.
  intros (bs & fl & [HS LM] & NA) HM Hn Hf. unfold ALIGNMENT.
  unfold malloc in HM. destruct (size =? 0); [injection HM as <- _; contradiction|].
  cbv zeta in HM. set (asize := required_size size) in *.
  destruct (first_fit_total s bs fl (u32 asize) (getIndex asize) HS
              (getIndex_range asize)) as (r & pv & HFF & Hr).
  rewrite (bind_ok _ _ _ _ _ HFF) in HM.
  destruct Hr as [->|(j & l1 & l2 & Hj & Hfl & _)].
  - rewrite Z.eqb_refl in HM. apply bind_inv in HM.
    destruct HM as (bp & s0 & HE & HR). injection HR as -> _.
    apply extend_heap_result in HE. destruct HE as [->| ->]; [contradiction|].
    cbn [mem_brk with_prevPtr]. exact (proj2 (shape_brk _ _ _ HS)).
  - assert (Hrj : In r (fl j)) by (rewrite Hfl; apply in_or_app; simpl; auto).
    assert (0 <= j <= 8) by (pose proof (getIndex_range asize); lia).
    destruct (Z.eqb_spec r NULL) as [->|_].
    + exfalso.
      exact (lseg_nonnull _ _ _ _ _ (sh_chain _ _ _ HS j H) Hrj eq_refl).
    + apply bind_inv in HM. destruct HM as (prev & s0 & _ & HP).
      apply place_result in HP. subst p.
      destruct (sh_nodes _ _ _ HS j r H Hrj) as (b & Hb & <-).
      pose proof (shape_block _ _ _ _ HS Hb) as (_ & _ & _ & _ & B5 & _).
      rewrite Z.add_mod, B5 by lia. reflexivity.
Qed.

Lemma malloc_returns_aligned_witness :
  exists p s', malloc 24 init_heap = Ok p s' /\ p mod ALIGNMENT = 0.
Proof.
  assert (Hq : returns (malloc 24 init_heap) (fun q _ => q = 4176))
    by (vm_compute; reflexivity).
  destruct (malloc 24 init_heap) as [q s1| |] eqn:E; try contradiction.
  cbn [returns] in Hq. subst q.
  exists 4176, s1. split; [reflexivity|].
  apply (malloc_returns_aligned init_heap 24 4176 s1 init_heap_ok E);
    discriminate.
Defined.

(** *** [malloc] on a miss and on a hit that is taken whole *)

Lemma malloc_grow s bs fl size :
  heap_wf s bs fl -> 0 < size < 2 ^ 31 - 16 ->
  (forall z, In z (fl (getIndex (required_size size))) ->
     size_at bs z < required_size size) ->
  (forall j, getIndex (required_size size) < j <= 8 -> fl j = []) ->
  mem_brk s + required_size size <= mem_max_addr s ->
  exists s',
    malloc size s = Ok (mem_brk s) s' /\
    mem_brk s' = mem_brk s + required_size size /\
    mem_lo s' = mem_lo s /\ mem_max_addr s' = mem_max_addr s /\
    heap_listp s' = heap_listp s /\
    heap_wf s' (bs ++ [mkBlock (mem_brk s - 4) (required_size size) true]) fl.
Proof.
  intros [HS LM] Hsize Hmiss He Hroom.
  destruct (required_size_spec size ltac:(lia)) as (Am & Ar).
  pose proof (required_size_min size ltac:(lia)) as Amin.
  set (asize := required_size size) in *.
  pose proof (getIndex_range asize) as Hi.
  pose proof (first_fit_null s bs fl asize (getIndex asize) HS Hi Hmiss He) as HFF.
  set (pv := last (fl (getIndex asize)) NULL) in *.
  assert (HS1 : heap_shape (with_prevPtr s pv) bs fl) by (eapply shape_ext; eauto).
  destruct (extend_heap_spec (with_prevPtr s pv) bs fl asize HS1
              ltac:(lia) Am Hroom)
    as (s' & HE & E1 & E2 & E3 & E4 & E5 & HS' & HF').
  cbn [mem mem_lo mem_brk mem_max_addr heap_listp with_prevPtr] in *.
  exists s'. split; [|split; [exact E1|]; split; [exact E2|];
                       split; [exact E3|]; split; [exact E4|];
                       split; [exact HS'|]].
  - unfold malloc. destruct (Z.eqb_spec size 0); [lia|].
    cbv zeta. fold asize. rewrite (u32_small asize) by lia.
    step HFF. rewrite Z.eqb_refl. rewrite s32_small by lia.
    step HE. reflexivity.
  - intros k x Hk. rewrite (LM k x Hk), free_in_app, free_in_cons, free_in_nil.
    cbn [b_alloc]. split; [tauto|]. intros [H|[H|[]]]; auto.
    destruct H as (_ & H & _). discriminate.
Qed.

Lemma malloc_take_whole s l1 b l2 fl size p1 p2 :
  heap_wf s (l1 ++ b :: l2) fl -> b_alloc b = false ->
  0 < size < 2 ^ 31 - 16 ->
  getIndex (required_size size) = getIndex (b_size b) ->
  fl (getIndex (b_size b)) = p1 ++ b_addr b :: p2 ->
  (forall y, In y p1 -> size_at (l1 ++ b :: l2) y < required_size size) ->
  0 <= b_size b - required_size size <= 16 ->
  exists s',
    malloc size s = Ok (b_addr b + 4) s' /\ same_geom s s' /\
    heap_wf s' (l1 ++ set_alloc b true :: l2)
      (fl_set fl (getIndex (b_size b)) (p1 ++ p2)).
Proof.
  intros HW Hbf Hsize Hidx Hfl Hlt Hd. pose proof HW as [HS LM].
  destruct (required_size_spec size ltac:(lia)) as (Am & Ar).
  pose proof (required_size_min size ltac:(lia)) as Amin.
  set (asize := required_size size) in *.
  assert (Hb : In b (l1 ++ b :: l2)) by (apply in_or_app; simpl; auto).
  pose proof (first_fit_hit s _ fl asize (getIndex asize) p1 (b_addr b) p2 HS
                (getIndex_range asize) ltac:(rewrite Hidx; exact Hfl) Hlt
                ltac:(rewrite (size_at_in _ _ _ _ (sh_contig _ _ _ HS) Hb); lia))
    as HFF.
  pose proof (heap_wf_prevPtr _ _ _ (last p1 NULL) HW) as HW1.
  destruct (place_whole _ _ _ _ _ asize p1 p2 HW1 Hbf Hfl Hd)
    as (s' & HP & G & W & _).
  exists s'. split; [|split; [exact G|exact W]].
  unfold malloc. destruct (Z.eqb_spec size 0); [lia|].
  cbv zeta. fold asize. rewrite (u32_small asize) by lia.
  step HFF.
  pose proof (shape_block _ _ _ _ HS Hb) as (B1 & _).
  pose proof (sh_lo _ _ _ HS).
  destruct (Z.eqb_spec (b_addr b) NULL) as [E|_]; [unfold NULL in E; lia|].
  unfold bind at 1. unfold get_prevPtr at 1. cbn [prevPtr with_prevPtr].
  exact HP.
Qed.

Lemma shape_GET_ALLOC s bs fl b :
  heap_shape s bs fl -> In b bs ->
  GET_ALLOC (b_addr b) s = Ok (bit (b_alloc b)) s.
Proof.
  intros H Hb.
  pose proof (shape_block _ _ _ _ H Hb) as (B1 & B2 & B3 & B4 & B5 & B6 & B7).
  pose proof (sh_lo _ _ _ H).
  apply GET_ALLOC_tag with (sz := b_size b); auto; lia.
Qed.

(** C9.  On every fresh heap with room for one block of 32 bytes:
    [malloc 24] after [mm_init] grows the heap by a block of total size
    32; [free] tags it free and makes it the head of bucket 0, the
    bucket of size 32; the next [malloc 24] returns the same pointer,
    tags the block allocated again, empties bucket 0 and leaves the end
    of the heap where it was. *)
Theorem malloc_free_malloc_reuses_block s :
  fresh s -> mem_brk s + 112 <= mem_max_addr s ->
  exists s1 s2 s3 s4,
    mm_init s = Ok 0 s1 /\
    malloc 24 s1 = Ok (mem_brk s + 80) s2 /\
    GET_SIZE (mem_brk s + 76) s2 = Ok 32 s2 /\
    mem_brk s2 = mem_brk s + 112 /\
    free (mem_brk s + 80) s2 = Ok tt s3 /\
    getIndex 32 = 0 /\
    (b <- bucket 0 ;; load 8 b) s3 = Ok (mem_brk s + 76) s3 /\
    GET_ALLOC (mem_brk s + 76) s3 = Ok 0 s3 /\
    malloc 24 s3 = Ok (mem_brk s + 80) s4 /\
    mem_brk s4 = mem_brk s3 /\
    GET_ALLOC (mem_brk s + 76) s4 = Ok 1 s4 /\
    (b <- bucket 0 ;; load 8 b) s4 = Ok NULL s4.
Proof.
  intros Hf Hroom.
  destruct (mm_init_spec s Hf) as (s1 & HI & I1 & I2 & I3 & I4 & W1).
  assert (R24 : required_size 24 = 32) by reflexivity.
  destruct (malloc_grow s1 [] (fun _ => []) 24 W1 ltac:(lia))
    as (s2 & HM & M1 & M2 & M3 & M4 & W2).
  { intros z []. }
  { reflexivity. }
  { rewrite R24. lia. }
  rewrite R24, I2 in *. cbn [app] in W2.
  set (p := mem_brk s) in *.
  replace (p + 80 - 4) with (p + 76) in W2 by lia.
  set (B := mkBlock (p + 76) 32 true) in *.
  pose proof W2 as [HS2 LM2].
  destruct (free_alone s2 [] B [] (fun _ => []) HS2 LM2 eq_refl eq_refl)
    as (s3 & HF & G3 & W3 & _).
  cbn [b_addr b_size B app] in HF, W3.
  replace (p + 76 + 4) with (p + 80) in HF by lia.
  change (getIndex 32) with 0 in W3.
  set (fl3 := fl_set (fun _ : Z => []) 0 [p + 76]) in *.
  pose proof W3 as [HS3 LM3].
  destruct (malloc_take_whole s3 [] (set_alloc B false) [] fl3 24 [] []
              W3 eq_refl ltac:(lia) eq_refl eq_refl)
    as (s4 & HM4 & G4 & W4).
  { intros y []. }
  { rewrite R24. cbn. lia. }
  cbn [b_addr b_size B set_alloc app] in HM4, W4.
  replace (p + 76 + 4) with (p + 80) in HM4 by lia.
  change (getIndex 32) with 0 in W4.
  pose proof W4 as [HS4 LM4].
  destruct G3 as (G31 & G32 & G33 & G34). destruct G4 as (G41 & G42 & G43 & G44).
  exists s1, s2, s3, s4.
  split; [exact HI|]. split; [exact HM|]. split.
  { apply (shape_GET_SIZE _ _ _ B HS2). now left. }
  split; [lia|]. split; [exact HF|]. split; [reflexivity|]. split.
  { step (bucket_ok 0 s3).
    rewrite (shape_head _ _ _ 0 HS3 ltac:(lia)). reflexivity. }
  split.
  { apply (shape_GET_ALLOC _ _ _ (set_alloc B false) HS3). now left. }
  split; [exact HM4|]. split; [exact G42|]. split.
  { apply (shape_GET_ALLOC _ _ _ (set_alloc (set_alloc B false) true) HS4).
    now left. }
  step (bucket_ok 0 s4).
  rewrite (shape_head _ _ _ 0 HS4 ltac:(lia)). reflexivity.
Qed.

Lemma malloc_free_malloc_reuses_block_witness :
  exists s1 s2 s3 s4,
    mm_init example_heap = Ok 0 s1 /\
    malloc 24 s1 = Ok 4176 s2 /\
    free 4176 s2 = Ok tt s3 /\
    malloc 24 s3 = Ok 4176 s4 /\ mem_brk s4 = mem_brk s3.
Proof.
  destruct (malloc_free_malloc_reuses_block example_heap fresh_example_heap)
    as (s1 & s2 & s3 & s4 & H1 & H2 & _ & _ & H3 & _ & _ & _ & H4 & H5 & _).
  - cbn. lia.
  - exists s1, s2, s3, s4. auto.
Defined.

(** C7.  Placement of a required size [asize] (at least 16, a multiple
    of 8) in a free block [b] that fits, given its list predecessor:
    [place] returns the payload of [b]; [b] leaves the list of the bucket
    indexed by its size before the split; if the leftover exceeds 16
    bytes the head of [b] becomes an allocated block of [asize] bytes and
    the remainder a free block with its own header and footer, which
    [free] puts at the head of the bucket of its size; otherwise [b] is
    allocated whole, its size unchanged. *)
Theorem place_splits_or_takes_whole s l1 b l2 fl asize p1 p2 :
  heap_wf s (l1 ++ b :: l2) fl -> no_adjacent_free (l1 ++ b :: l2) ->
  b_alloc b = false ->
  fl (getIndex (b_size b)) = p1 ++ b_addr b :: p2 ->
  16 <= asize <= b_size b -> asize mod 8 = 0 ->
  exists s',
    place asize (b_addr b) (last p1 NULL) s = Ok (b_addr b + 4) s' /\
    (16 < b_size b - asize ->
     heap_wf s'
       (l1 ++ mkBlock (b_addr b) asize true
           :: mkBlock (b_addr b + asize) (b_size b - asize) false :: l2)
       (fl_set (fl_set fl (getIndex (b_size b)) (p1 ++ p2))
          (getIndex (b_size b - asize))
          ((b_addr b + asize)
             :: fl_set fl (getIndex (b_size b)) (p1 ++ p2)
                  (getIndex (b_size b - asize)))) /\
     exists s4,
       heap_shape s4
         (l1 ++ mkBlock (b_addr b) asize true
             :: mkBlock (b_addr b + asize) (b_size b - asize) false :: l2)
         (fl_set fl (getIndex (b_size b)) (p1 ++ p2)) /\
       free (b_addr b + asize + 4) s4 = Ok tt s') /\
    (b_size b - asize <= 16 ->
     heap_wf s' (l1 ++ set_alloc b true :: l2)
       (fl_set fl (getIndex (b_size b)) (p1 ++ p2))).
Proof.
  intros HW NA Hbf Hfl Ha Hm.
  destruct (Z_lt_le_dec 16 (b_size b - asize)) as [Hsplit|Hwhole].
  - destruct (place_split _ _ _ _ _ asize p1 p2 HW NA Hbf Hfl
                ltac:(lia) Hm Hsplit) as (s' & HP & _ & W & _ & HF).
    exists s'. split; [exact HP|]. split; [auto|]. intros. lia.
  - destruct (place_whole _ _ _ _ _ asize p1 p2 HW Hbf Hfl ltac:(lia))
      as (s' & HP & _ & W & _).
    exists s'. split; [exact HP|]. split; [intros; lia|auto].
Qed.

Lemma place_splits_or_takes_whole_witness :
  exists prev s', place 24 4172 prev heap_big_free = Ok 4176 s'.
Proof.
  destruct (heap_ok_blocks heap_big_free [mkBlock 4172 2008 false]
              heap_big_free_ok) as (fl & HW & NA).
  { vm_compute. reflexivity. }
  pose proof (wf_free_listed _ _ _ (mkBlock 4172 2008 false) HW
                (or_introl eq_refl) eq_refl) as Hin.
  destruct (in_split _ _ Hin) as (p1 & p2 & Hfl).
  destruct (place_splits_or_takes_whole heap_big_free []
              (mkBlock 4172 2008 false) [] fl 24 p1 p2 HW NA eq_refl Hfl)
    as (s' & HP & _).
  - cbn. lia.
  - reflexivity.
  - exists (last p1 NULL), s'. exact HP.
Defined.

(** C10, as stated, fails.  [malloc 4294967296] has required size
    [2^32 + 8], which the [int] parameter of [extend_heap] truncates to
    8: the block at 4172 has room for its header and its footer only.
    [free] of it writes the 8 bytes of the next pointer over the footer
    and over the epilogue, so [coalesce] reads allocation bit 0 at 4180
    and takes that word for a free right neighbour.  It is on no list:
    after [relink] has taken the freed block off bucket 0 that bucket is
    empty, [find_prev] starts its scan at [NULL], and the scan reads the
    next field of [NULL]. *)
Lemma find_prev_scans_from_null_in_coalesce :
  returns ((mm_init ;; malloc 4294967296) example_heap) (fun p s =>
    p = 4176 /\
    free p s = Crash /\
    returns (free_push p s) (fun _ s0 =>
      free p s = coalesce (p - 4) s0 /\
      returns (GET_ALLOC (p - 4 - 4) s0) (fun leftAlloc _ => leftAlloc = 1) /\
      returns (GET_SIZE (p - 4) s0) (fun sz _ => sz = 8) /\
      returns (GET_ALLOC (p - 4 + 8) s0) (fun rightAlloc _ => rightAlloc = 0) /\
      returns (relink (p - 4) NULL s0) (fun _ sa =>
        returns (GET_SIZE (p - 4 + 8) sa) (fun rsz _ => rsz = 0) /\
        returns (load 8 (heap_listp sa + 8 * getIndex 0) sa)
          (fun head _ => head = NULL) /\
        NEXT_FREE NULL (with_prevPtr sa NULL) = Crash /\
        find_prev (p - 4 + 8) sa = Crash))).
Proof.
  vm_compute. repeat split.
Qed.

(** C10 (amended).  On a heap that satisfies the allocator's invariant,
    which [mm_init] establishes and every operation with a request of at
    most [2^32 - 16] bytes keeps, [free p] of an allocated block runs
    [free_push p] and then [coalesce (p - 4)], and completes.  [coalesce]
    reads the allocation bits [leftAlloc] and [rightAlloc] of the two
    neighbours and takes the freed block off the head of its list; this
    gives the state [sa].  Every call of [find_prev] that [coalesce] then
    makes is on a block that is on the list of the bucket indexed by its
    size, and returns the last node before it on that list, [NULL] when
    there is none ([last [] NULL] is [NULL]):
    - when the right neighbour is free (cases 3 and 4) the call
      [find_prev rightBlock], in the state [sa];
    - in case 4, where both neighbours are free, also the second call,
      [find_prev leftBlock], in the state [sb] that
      [relink rightBlock prev] leaves;
    - when only the left neighbour is free (case 2) the call
      [find_prev leftBlock], in the state [sa]. *)
Theorem find_prev_returns_predecessor s p sz :
  heap_ok s -> allocated s p sz ->
  exists s0 sa s' leftAlloc rightAlloc,
    free_push p s = Ok tt s0 /\
    free p s = coalesce (p - 4) s0 /\
    free p s = Ok tt s' /\
    GET_ALLOC (p - 4 - 4) s0 = Ok leftAlloc s0 /\
    GET_SIZE (p - 4) s0 = Ok sz s0 /\
    GET_ALLOC (p - 4 + sz) s0 = Ok rightAlloc s0 /\
    (leftAlloc = 0 \/ leftAlloc = 1) /\
    (rightAlloc = 0 \/ rightAlloc = 1) /\
    relink (p - 4) NULL s0 = Ok tt sa /\
    (rightAlloc = 0 ->
     exists rsz k1 k2 sb,
       GET_SIZE (p - 4 + sz) sa = Ok rsz sa /\
       listed sa (getIndex rsz) (p - 4 + sz) k1 k2 /\
       find_prev (p - 4 + sz) sa
       = Ok (last k1 NULL) (with_prevPtr sa (last k1 NULL)) /\
       relink (p - 4 + sz) (last k1 NULL) (with_prevPtr sa (last k1 NULL))
       = Ok tt sb /\
       (leftAlloc = 0 ->
        exists lsz j1 j2,
          GET_SIZE (p - 4 - 4) s0 = Ok lsz s0 /\
          GET_SIZE (p - 4 - lsz) sb = Ok lsz sb /\
          listed sb (getIndex lsz) (p - 4 - lsz) j1 j2 /\
          find_prev (p - 4 - lsz) sb
          = Ok (last j1 NULL) (with_prevPtr sb (last j1 NULL)))) /\
    (leftAlloc = 0 -> rightAlloc = 1 ->
     exists lsz j1 j2,
       GET_SIZE (p - 4 - 4) s0 = Ok lsz s0 /\
       GET_SIZE (p - 4 - lsz) sa = Ok lsz sa /\
       listed sa (getIndex lsz) (p - 4 - lsz) j1 j2 /\
       find_prev (p - 4 - lsz) sa
       = Ok (last j1 NULL) (with_prevPtr sa (last j1 NULL))).
Proof.
  intros Hok Hal.
  destruct (free_preserves s p sz Hok Hal) as (s' & HF & _).
  destruct Hok as (bs & fl & HW & NA).
  pose proof (allocated_block _ _ _ _ _ HW Hal) as Hb0.
  destruct HW as [HS LM].
  destruct (in_split _ _ Hb0) as (l1 & l2 & ->).
  destruct (free_push_spec s l1 (mkBlock (p - 4) sz true) l2 fl HS LM)
    as (s0 & E0 & _ & HW0 & _).
  unfold set_alloc in HW0. cbn [b_addr b_size] in E0, HW0.
  replace (p - 4 + 4) with p in E0 by lia.
  pose proof HW0 as [HS0 LM0].
  assert (Hb : In (mkBlock (p - 4) sz false)
                 (l1 ++ mkBlock (p - 4) sz false :: l2))
    by (apply in_or_app; simpl; auto).
  pose proof (shape_block _ _ _ _ HS0 Hb) as (B1 & B2 & B3 & B4 & B5 & B6 & B7).
  pose proof (sh_lo _ _ _ HS0) as Hlo.
  pose proof (sh_max _ _ _ HS0) as Hmax.
  destruct (left_tag _ _ _ _ _ HS0) as (lsz & HL1 & HL2 & HL3 & HL4).
  destruct (right_tag _ _ _ _ _ HS0) as (rsz & HR1 & HR2 & HR3 & HR4).
  pose proof (shape_GET_SIZE _ _ _ _ HS0 Hb) as GS.
  pose proof (wf_free_listed _ _ _ _ HW0 Hb eq_refl) as Hbin.
  cbn [b_addr b_size] in *.
  assert (GA1 : GET_ALLOC (p - 4 - 4) s0 = Ok (bit (last_alloc l1)) s0).
  { apply GET_ALLOC_tag with (sz := lsz); auto; lia. }
  assert (GA2 : GET_ALLOC (p - 4 + sz) s0 = Ok (bit (first_alloc l2)) s0).
  { apply GET_ALLOC_tag with (sz := rsz); auto; lia. }
  destruct (relink_head_spec _ _ _ _ HS0 Hb Hbin)
    as (sa & fla & RLa & _ & HSa & CHa & _).
  { cbn [b_addr b_size]. rewrite fl_set_same. reflexivity. }
  cbn [b_addr b_size] in RLa.
  (* a free left neighbour, in a state whose lists hold every free block
     but the freed one *)
  assert (LEFT : forall sx flx, heap_shape sx (l1 ++ mkBlock (p - 4) sz false :: l2) flx ->
            (forall c, In c (l1 ++ mkBlock (p - 4) sz false :: l2) ->
               b_alloc c = false -> b_addr c < p - 4 ->
               In (b_addr c) (flx (getIndex (b_size c)))) ->
            last_alloc l1 = false ->
            exists lsz j1 j2,
              GET_SIZE (p - 4 - 4) s0 = Ok lsz s0 /\
              GET_SIZE (p - 4 - lsz) sx = Ok lsz sx /\
              listed sx (getIndex lsz) (p - 4 - lsz) j1 j2 /\
              find_prev (p - 4 - lsz) sx
              = Ok (last j1 NULL) (with_prevPtr sx (last j1 NULL))).
  { intros sx flx HSx INx LA.
    destruct (HL4 LA) as (l1' & c & El1 & Hcf & Hcs & Hca). subst lsz.
    assert (Hc : In c (l1 ++ mkBlock (p - 4) sz false :: l2)).
    { apply in_or_app. left. rewrite El1. apply in_or_app. simpl. auto. }
    pose proof (shape_block _ _ _ _ HS0 Hc) as (C1 & C2 & C3 & C4 & C5 & C6 & C7).
    pose proof (INx c Hc Hcf ltac:(lia)) as Hcin.
    destruct (in_split _ _ Hcin) as (j1 & j2 & Hfl).
    exists (b_size c), j1, j2.
    replace (p - 4 - b_size c) with (b_addr c) by lia.
    split.
    { apply GET_SIZE_tag with (al := false); auto; try lia.
      rewrite HL1, LA. reflexivity. }
    split; [exact (shape_GET_SIZE _ _ _ _ HSx Hc)|].
    split.
    { split; rewrite <- Hfl.
      - apply (sh_chain _ _ _ HSx). apply getIndex_range.
      - apply (sh_nodup _ _ _ HSx). apply getIndex_range. }
    exact (find_prev_spec _ _ _ _ _ _ HSx Hc Hfl). }
  exists s0, sa, s', (bit (last_alloc l1)), (bit (first_alloc l2)).
  split; [exact E0|]. split.
  { rewrite free_push_coalesce by (unfold NULL; lia). step E0. reflexivity. }
  split; [exact HF|]. split; [exact GA1|]. split; [exact GS|].
  split; [exact GA2|].
  split; [destruct (last_alloc l1); cbn; auto|].
  split; [destruct (first_alloc l2); cbn; auto|].
  split; [exact RLa|]. split.
  - (* the right neighbour is free *)
    intros Hra.
    assert (RA : first_alloc l2 = false)
      by (destruct (first_alloc l2); [discriminate Hra|reflexivity]).
    destruct (HR4 RA) as (d & l2' & El2 & Hdf & Hds & Hda). subst rsz.
    assert (Hd : In d (l1 ++ mkBlock (p - 4) sz false :: l2)).
    { apply in_or_app. right. rewrite El2. simpl. auto. }
    pose proof (shape_block _ _ _ _ HS0 Hd) as (D1 & D2 & D3 & D4 & D5 & D6 & D7).
    assert (Hdin : In (b_addr d) (fla (getIndex (b_size d)))).
    { apply CHa; [apply getIndex_range|]. split; [|cbn [b_addr]; lia].
      apply (wf_free_listed _ _ _ _ HW0 Hd Hdf). }
    destruct (in_split _ _ Hdin) as (k1 & k2 & Hfl).
    pose proof (find_prev_spec _ _ _ _ _ _ HSa Hd Hfl) as HFP.
    assert (HSa' : heap_shape (with_prevPtr sa (last k1 NULL))
                     (l1 ++ mkBlock (p - 4) sz false :: l2) fla).
    { eapply shape_ext; eauto. }
    destruct (relink_spec _ _ _ _ _ _ HSa' Hd Hfl) as (m' & HRL & HSb & _).
    exists (b_size d), k1, k2,
      (with_mem (with_prevPtr sa (last k1 NULL)) m').
    rewrite <- Hda.
    split; [exact (shape_GET_SIZE _ _ _ _ HSa Hd)|].
    split.
    { split; rewrite <- Hfl.
      - apply (sh_chain _ _ _ HSa). apply getIndex_range.
      - apply (sh_nodup _ _ _ HSa). apply getIndex_range. }
    split; [exact HFP|]. split; [exact HRL|].
    intros Hla.
    assert (LA : last_alloc l1 = false)
      by (destruct (last_alloc l1); [discriminate Hla|reflexivity]).
    apply (LEFT _ _ HSb); [|exact LA].
    intros c Hc Hcf Hlt.
    assert (Hc0 : In (b_addr c) (fla (getIndex (b_size c)))).
    { apply CHa; [apply getIndex_range|]. split; [|cbn [b_addr]; lia].
      apply (wf_free_listed _ _ _ _ HW0 Hc Hcf). }
    destruct (Z.eq_dec (getIndex (b_size c)) (getIndex (b_size d))) as [E|E].
    + rewrite E, fl_set_same. rewrite E, Hfl in Hc0.
      apply in_app_or in Hc0. apply in_or_app.
      destruct Hc0 as [H|[H|H]]; [auto|lia|auto].
    + rewrite fl_set_other by exact E. exact Hc0.
  - (* only the left neighbour is free *)
    intros Hla _.
    assert (LA : last_alloc l1 = false)
      by (destruct (last_alloc l1); [discriminate Hla|reflexivity]).
    apply (LEFT _ _ HSa); [|exact LA].
    intros c Hc Hcf Hlt.
    apply CHa; [apply getIndex_range|]. split; [|cbn [b_addr]; lia].
    apply (wf_free_listed _ _ _ _ HW0 Hc Hcf).
Qed.

Lemma find_prev_returns_predecessor_witness :
  exists s0 sa sb k1 k2 j1 j2,
    free_push 4208 heap_five = Ok tt s0 /\
    relink 4204 NULL s0 = Ok tt sa /\
    listed sa 0 4236 k1 k2 /\ last k1 NULL = 4300 /\
    find_prev 4236 sa = Ok 4300 (with_prevPtr sa 4300) /\
    relink 4236 4300 (with_prevPtr sa 4300) = Ok tt sb /\
    listed sb 0 4172 j1 j2 /\ last j1 NULL = 4300 /\
    find_prev 4172 sb = Ok 4300 (with_prevPtr sb 4300).
Proof.
  assert (A : allocated heap_five 4208 32).
  { eexists. split; [exact heap_five_arena|]. simpl. auto. }
  assert (T : returns (free_push 4208 heap_five) (fun _ s0 =>
            returns (GET_ALLOC (4208 - 4 - 4) s0) (fun v _ => v = 0) /\
            returns (GET_ALLOC (4208 - 4 + 32) s0) (fun v _ => v = 0) /\
            returns (GET_SIZE (4208 - 4 - 4) s0) (fun v _ => v = 32) /\
            returns (relink (4208 - 4) NULL s0) (fun _ sa =>
              returns (GET_SIZE (4208 - 4 + 32) sa) (fun v _ => v = 32) /\
              returns (find_prev (4208 - 4 + 32) sa) (fun v sa' =>
                v = 4300 /\
                returns (relink (4208 - 4 + 32) 4300 sa') (fun _ sb =>
                  returns (find_prev (4208 - 4 - 32) sb)
                    (fun v _ => v = 4300))))))
    by (vm_compute; repeat split).
  destruct (find_prev_returns_predecessor heap_five 4208 32 heap_five_ok A)
    as (s0 & sa & s' & la & ra & E0 & _ & _ & GA1 & _ & GA2 & _ & _ & RLa
        & HR & _).
  clear A.
  rewrite E0 in T. cbn [returns] in T.
  rewrite GA1, GA2, RLa in T. cbn [returns] in T.
  destruct T as (-> & -> & T3 & T4).
  destruct (HR eq_refl) as (rsz & k1 & k2 & sb & GSd & Ld & FPd & RLd & HL).
  rewrite GSd, FPd in T4. cbn [returns] in T4.
  destruct T4 as (-> & Ek1 & T4).
  rewrite Ek1 in FPd, RLd, T4. rewrite RLd in T4. cbn [returns] in T4.
  destruct (HL eq_refl) as (lsz & j1 & j2 & GSc & GSc' & Lc & FPc).
  rewrite GSc in T3. cbn [returns] in T3. subst lsz.
  rewrite FPc in T4. cbn [returns] in T4. rewrite T4 in FPc.
  exists s0, sa, sb, k1, k2, j1, j2.
  split; [exact E0|]. split; [exact RLa|]. split; [exact Ld|].
  split; [exact Ek1|]. split; [exact FPd|]. split; [exact RLd|].
  split; [exact Lc|]. split; [exact T4|]. exact FPc.
Defined.

(** ** Further properties of the code *)

(** *** Boundary tags *)

(** X1.  The boundary-tag codec round trip: for an even size below
    [2^31] and an allocation bit, writing [PACK size alloc] with [PUT] at
    an address of the heap and reading it back gives the size with
    [GET_SIZE], the bit with [GET_ALLOC] and the word itself with [GET];
    no byte outside the four of the word changes. *)
Theorem tag_round_trip s p size al :
  mem_lo s <= p -> p + 4 <= mem_brk s ->
  0 <= size < 2 ^ 31 -> size mod 2 = 0 ->
  exists s',
    PUT p (PACK size (bit al)) s = Ok tt s' /\
    GET_SIZE p s' = Ok size s' /\
    GET_ALLOC p s' = Ok (bit al) s' /\
    GET p s' = Ok (size + bit al) s' /\
    (forall x, x < p \/ p + 4 <= x -> mem s' x = mem s x).
Proof.
  intros Hlo Hhi Hs He.
  rewrite (PACK_tag size al Hs He).
  pose proof (tag_range size al Hs) as Hr.
  exists (with_mem s (wr (mem s) p 4 (tag size al))).
  split; [apply PUT_ok; assumption|].
  assert (R : rd (mem (with_mem s (wr (mem s) p 4 (tag size al)))) p 4
              = tag size al) by (cbn [mem with_mem]; now apply rd_wr_4).
  split; [|split; [|split]].
  - rewrite GET_SIZE_ok by assumption. rewrite R, tag_size by assumption.
    reflexivity.
  - rewrite GET_ALLOC_ok by assumption. rewrite R, tag_alloc by assumption.
    reflexivity.
  - unfold GET. rewrite load_ok by (cbn [mem_lo mem_brk with_mem]; lia).
    rewrite R. reflexivity.
  - intros x Hx. cbn [mem with_mem]. apply wr_out. cbn. lia.
Qed.

Lemma tag_round_trip_witness :
  exists s',
    PUT 4172 (PACK 32 (bit false)) init_heap = Ok tt s' /\
    GET_SIZE 4172 s' = Ok 32 s' /\ GET_ALLOC 4172 s' = Ok 0 s'.
Proof.
  destruct (tag_round_trip init_heap 4172 32 false)
    as (s' & H1 & H2 & H3 & _).
  - vm_compute. discriminate.
  - vm_compute. discriminate.
  - lia.
  - reflexivity.
  - exists s'. auto.
Defined.

(** *** Size classes *)

(** X2.  The size classes of [getIndex]: bucket 0 takes the sizes up to
    32, bucket [i] from 1 to 7 the sizes in [(2^(i+4), 2^(i+5)]], bucket 8
    everything above 4096; the index never leaves [0..8] and grows with
    the size. *)
Theorem getIndex_size_class a i :
  (getIndex a = i <->
   (i = 0 /\ a <= 32) \/
   (1 <= i <= 7 /\ 2 ^ (i + 4) < a <= 2 ^ (i + 5)) \/
   (i = 8 /\ 4096 < a)) /\
  0 <= getIndex a <= 8 /\
  (forall b, a <= b -> getIndex a <= getIndex b).
Proof.
  split; [|split; [apply getIndex_range|intros b; apply getIndex_mono]].
  split.
  - intros <-. unfold getIndex.
    repeat match goal with
           | |- context [?x <=? ?y] => destruct (Z.leb_spec x y)
           end; cbn; lia.
  - intros [[-> H]|[[Hi H]|[-> H]]].
    + unfold getIndex. destruct (Z.leb_spec a 32); [reflexivity|lia].
    + assert (Hc : i = 1 \/ i = 2 \/ i = 3 \/ i = 4 \/ i = 5 \/ i = 6 \/ i = 7)
        by lia.
      unfold getIndex.
      destruct Hc as [->|[->|[->|[->|[->|[->| ->]]]]]]; cbn in H;
        repeat match goal with
               | |- context [?x <=? ?y] => destruct (Z.leb_spec x y)
               end; lia.
    + unfold getIndex.
      repeat match goal with
             | |- context [?x <=? ?y] => destruct (Z.leb_spec x y)
             end; lia.
Qed.

(** *** The helpers of the heap checker *)

Lemma land_align_mask x :
  0 <= x < 2 ^ 64 -> Z.land x (u64 (s32 (Z.lnot 0x7))) = 8 * (x / 8).
Proof.
  intros Hx.
  change (u64 (s32 (Z.lnot 0x7))) with ((-8) mod 2 ^ 64).
  rewrite <- (Z.land_ones (-8) 64) by lia.
  rewrite (Z.land_comm (-8)), Z.land_assoc, (Z.land_ones x 64) by lia.
  rewrite (Z.mod_small x) by lia.
  change (-8) with (Z.lnot (Z.ones 3)).
  rewrite <- Z.ldiff_land, Z.ldiff_ones_r by lia.
  rewrite Z.shiftr_div_pow2, Z.shiftl_mul_pow2 by lia.
  change (2 ^ 3) with 8. lia.
Qed.

Lemma ALIGN_spec p :
  0 <= p <= 2 ^ 64 - 8 -> ALIGN p = 8 * ((p + 7) / 8).
Proof.
  intros Hp. unfold ALIGN, ALIGNMENT.
  rewrite (u64_small p) by lia. rewrite (u64_small (p + (8 - 1))) by lia.
  rewrite land_align_mask by lia. f_equal.
Qed.

Lemma aligned_1_iff p : 0 <= p < 2 ^ 64 -> (aligned p = 1 <-> p mod 8 = 0).
Proof.
  intros Hp. unfold aligned. rewrite (u64_small p) by lia.
  destruct (Z_le_gt_dec p (2 ^ 64 - 8)) as [Hle|Hgt].
  - rewrite ALIGN_spec by lia.
    pose proof (Z.div_mod (p + 7) 8 ltac:(lia)).
    pose proof (Z.mod_pos_bound (p + 7) 8 ltac:(lia)).
    pose proof (Z.div_mod p 8 ltac:(lia)).
    pose proof (Z.mod_pos_bound p 8 ltac:(lia)).
    destruct (Z.eqb_spec (8 * ((p + 7) / 8)) p) as [E|E];
      split; intros; try lia; try discriminate.
  - unfold ALIGN, ALIGNMENT. rewrite (u64_small p) by lia.
    assert (Hw : u64 (p + (8 - 1)) = p + 7 - 2 ^ 64).
    { unfold u64. symmetry. apply (Z.mod_unique _ _ 1); lia. }
    rewrite Hw, land_align_mask by lia.
    pose proof (Z.div_mod (p + 7 - 2 ^ 64) 8 ltac:(lia)).
    pose proof (Z.mod_pos_bound (p + 7 - 2 ^ 64) 8 ltac:(lia)).
    pose proof (Z.div_mod p 8 ltac:(lia)).
    pose proof (Z.mod_pos_bound p 8 ltac:(lia)).
    destruct (Z.eqb_spec (8 * ((p + 7 - 2 ^ 64) / 8)) p) as [E|E];
      split; intros; try lia; try discriminate.
Qed.

(** X3.  [ALIGN] rounds an address up to the next multiple of 8, and
    [aligned] answers 1 exactly on the multiples of 8, for every 64-bit
    address (near the top of the address space, where the addition inside
    [ALIGN] wraps around, no address is a multiple of 8 and the answer
    is 0). *)
Theorem aligned_iff_multiple_of_8 p :
  0 <= p < 2 ^ 64 ->
  (aligned p = 1 <-> p mod 8 = 0) /\
  (aligned p = 0 <-> p mod 8 <> 0) /\
  (p <= 2 ^ 64 - 8 ->
   ALIGN p mod 8 = 0 /\ p <= ALIGN p < p + 8 /\ ALIGN (ALIGN p) = ALIGN p).
Proof.
  intros Hp. pose proof (aligned_1_iff p Hp) as Hal.
  split; [exact Hal|]. split.
  - assert (Hb : aligned p = 0 \/ aligned p = 1)
      by (unfold aligned; destruct (_ =? _); auto).
    destruct Hal as [H1 H2]. split.
    + intros H0 Hm. specialize (H2 Hm). lia.
    + intros Hm. destruct Hb as [?|H]; [assumption|]. elim (Hm (H1 H)).
  - intros Hle.
    assert (HA : ALIGN p = 8 * ((p + 7) / 8)) by (apply ALIGN_spec; lia).
    pose proof (Z.div_mod (p + 7) 8 ltac:(lia)).
    pose proof (Z.mod_pos_bound (p + 7) 8 ltac:(lia)).
    assert (Hm : ALIGN p mod 8 = 0).
    { rewrite HA, Z.mul_comm. apply Z_mod_mult. }
    split; [exact Hm|]. split; [lia|].
    assert (Hq : ALIGN p <= 2 ^ 64 - 8).
    { pose proof (Z.div_mod (ALIGN p) 8 ltac:(lia)).
      change (2 ^ 64) with (8 * 2305843009213693952) in *. lia. }
    rewrite (ALIGN_spec (ALIGN p)) by lia.
    pose proof (Z.div_mod (ALIGN p) 8 ltac:(lia)).
    pose proof (Z.div_mod (ALIGN p + 7) 8 ltac:(lia)).
    pose proof (Z.mod_pos_bound (ALIGN p + 7) 8 ltac:(lia)).
    lia.
Qed.

Lemma aligned_iff_multiple_of_8_witness :
  aligned 4176 = 1 /\ aligned 4172 = 0.
Proof.
  split.
  - apply (aligned_iff_multiple_of_8 4176); [lia|reflexivity].
  - apply (aligned_iff_multiple_of_8 4172); [lia|discriminate].
Defined.

Lemma checkBucketSize_run c index s sz :
  GET_SIZE c s = Ok sz s ->
  checkBucketSize c index s
  = Ok (if (0 <=? index) && (index <=? 7)
        then (if 2 ^ (index + 5) <? sz then 0 else 1)
        else (if sz <=? 4096 then 0 else 1)) s.
Proof.
  intros G. unfold checkBucketSize.
  repeat match goal with
         | |- context [index =? ?k] =>
             destruct (Z.eqb_spec index k) as [->|?];
             [step G; reflexivity|]
         end.
  step G.
  destruct (Z.leb_spec 0 index); destruct (Z.leb_spec index 7);
    cbn [andb]; try reflexivity. lia.
Qed.

Lemma class_le_iff sz index :
  0 <= index <= 7 -> (sz <= 2 ^ (index + 5) <-> getIndex sz <= index).
Proof.
  intros Hi.
  assert (Hc : index = 0 \/ index = 1 \/ index = 2 \/ index = 3 \/
               index = 4 \/ index = 5 \/ index = 6 \/ index = 7) by lia.
  unfold getIndex.
  destruct Hc as [->|[->|[->|[->|[->|[->|[->| ->]]]]]]]; cbn;
    repeat match goal with
           | |- context [?x <=? ?y] => destruct (Z.leb_spec x y)
           end; lia.
Qed.

Lemma class_8_iff sz : 4096 < sz <-> getIndex sz = 8.
Proof.
  unfold getIndex.
  repeat match goal with
         | |- context [?x <=? ?y] => destruct (Z.leb_spec x y)
         end; lia.
Qed.

(** X4.  [checkBucketSize] on a block of the heap and a bucket index
    reads the block's size and answers 0 or 1.  For an index from 0 to 7
    it answers 1 exactly when the size class of the block is at most the
    index: it accepts a block that sits in a bucket above its own.  For
    any other index it answers 1 exactly when the block belongs to
    bucket 8.  It always accepts a block in the bucket [getIndex]
    assigns to it. *)
Theorem checkBucketSize_accepts s bs fl b index :
  heap_shape s bs fl -> In b bs ->
  exists r,
    checkBucketSize (b_addr b) index s = Ok r s /\
    (r = 0 \/ r = 1) /\
    (0 <= index <= 7 -> (r = 1 <-> getIndex (b_size b) <= index)) /\
    (~ 0 <= index <= 7 -> (r = 1 <-> getIndex (b_size b) = 8)) /\
    (getIndex (b_size b) = index -> r = 1).
Proof.
  intros HS Hb. pose proof (shape_GET_SIZE _ _ _ _ HS Hb) as G.
  eexists. split; [apply (checkBucketSize_run _ _ _ _ G)|].
  pose proof (getIndex_range (b_size b)) as Hr.
  destruct (Z.leb_spec 0 index) as [H0|H0];
    destruct (Z.leb_spec index 7) as [H7|H7]; cbn [andb].
  - pose proof (class_le_iff (b_size b) index ltac:(lia)) as Hc.
    destruct (Z.ltb_spec (2 ^ (index + 5)) (b_size b));
      (split; [auto|]); (split; [intros _; split; intros; lia|]);
      (split; [intros; lia|]); intros; lia.
  - pose proof (class_8_iff (b_size b)) as Hc.
    destruct (Z.leb_spec (b_size b) 4096);
      (split; [auto|]); (split; [intros; lia|]);
      (split; [intros _; split; intros; lia|]); intros; lia.
  - pose proof (class_8_iff (b_size b)) as Hc.
    destruct (Z.leb_spec (b_size b) 4096);
      (split; [auto|]); (split; [intros; lia|]);
      (split; [intros _; split; intros; lia|]); intros; lia.
  - lia.
Qed.

Lemma checkBucketSize_accepts_witness :
  exists r, checkBucketSize 4172 3 heap_free_alloc = Ok r heap_free_alloc /\
            r = 1.
Proof.
  destruct (heap_ok_blocks heap_free_alloc
              [mkBlock 4172 32 false; mkBlock 4204 32 true]
              heap_free_alloc_ok) as (fl & HW & NA).
  { vm_compute. reflexivity. }
  destruct (checkBucketSize_accepts heap_free_alloc _ fl
              (mkBlock 4172 32 false) 3 (proj1 HW) (or_introl eq_refl))
    as (r & H & _ & Hle & _).
  exists r. split; [exact H|]. apply Hle; [lia|]. vm_compute. discriminate.
Defined.

(** *** [mm_checkheap] on a well-formed heap *)

Lemma in_heap_ok p s :
  in_heap p s
  = Ok (if (p <=? mem_brk s - 1) && (mem_lo s <=? p) then 1 else 0) s.
Proof.
  unfold in_heap, mem_heap_hi, mem_heap_lo, bind, ret.
  destruct (p <=? mem_brk s - 1); destruct (mem_lo s <=? p); reflexivity.
Qed.

Lemma checkheap_list_silent s bs fl index out L : forall fuel h,
  heap_wf s bs fl -> 0 <= index <= 8 ->
  lseg (mem s) h L NULL ->
  (forall y, In y L -> In y (fl index)) ->
  (length L < fuel)%nat ->
  checkheap_list fuel h index out s = Ok out s.
Proof.
  induction L as [|a L IH]; intros fuel h HW Hi Hseg Hin Hf.
  - destruct fuel as [|k]; [simpl in Hf; lia|].
    simpl in Hseg. subst h. reflexivity.
  - destruct fuel as [|k]; [simpl in Hf; lia|].
    destruct Hseg as (-> & Ha & Hseg). cbn [checkheap_list].
    destruct (Z.eqb_spec a NULL) as [E|_]; [contradiction|].
    pose proof HW as [HS LM].
    pose proof (Hin a (or_introl eq_refl)) as Hai.
    destruct (shape_node_range _ _ _ _ _ HS Hi Hai) as (V1 & V2 & V3 & V4).
    destruct (proj1 (LM index a Hi) Hai) as (sz & Hb & Hidx).
    destruct (shape_block _ _ _ _ HS Hb) as (_ & _ & _ & _ & Hal & _).
    cbn [b_addr] in Hal.
    step (in_heap_ok a s).
    destruct (Z.leb_spec a (mem_brk s - 1)); [|lia].
    destruct (Z.leb_spec (mem_lo s) a); [|lia]. cbn [andb].
    change (1 =? 0) with false. cbn [say].
    assert (HA : aligned (a + WSIZE) = 1).
    { pose proof (sh_max _ _ _ HS). pose proof (sh_ptr _ _ _ HS).
      unfold WSIZE. apply aligned_1_iff; [lia|].
      rewrite Z.add_mod, Hal by lia. reflexivity. }
    rewrite HA. change (1 =? 0) with false. cbn [say].
    pose proof (shape_GET_ALLOC _ _ _ _ HS Hb) as GA.
    cbn [b_addr b_alloc bit] in GA. step GA.
    change (0 =? 1) with false. cbn [say].
    pose proof (shape_GET_SIZE _ _ _ _ HS Hb) as GS.
    cbn [b_addr b_size] in GS.
    step (checkBucketSize_run a index s sz GS).
    assert (HC : (if (0 <=? index) && (index <=? 7)
                  then if 2 ^ (index + 5) <? sz then 0 else 1
                  else if sz <=? 4096 then 0 else 1) = 1).
    { destruct (Z.leb_spec 0 index); [|lia].
      destruct (Z.leb_spec index 7); cbn [andb].
      - pose proof (proj2 (class_le_iff sz index ltac:(lia)) ltac:(lia)).
        destruct (Z.ltb_spec (2 ^ (index + 5)) sz); [lia|reflexivity].
      - pose proof (proj2 (class_8_iff sz) ltac:(lia)).
        destruct (Z.leb_spec sz 4096); [lia|reflexivity]. }
    rewrite HC. change (1 =? 0) with false. cbn [say].
    step (NEXT_FREE_ok a s ltac:(lia) V2).
    apply IH; auto.
    + intros y Hy. apply Hin. now right.
    + simpl in Hf. lia.
Qed.

Lemma checkheap_buckets_silent s bs fl out n : forall index,
  heap_wf s bs fl -> 0 <= index -> index + Z.of_nat n <= 9 ->
  checkheap_buckets n index out s = Ok out s.
Proof.
  induction n as [|n IH]; intros index HW H0 Hn; [reflexivity|].
  pose proof HW as [HS _].
  assert (Hi : 0 <= index <= 8) by lia.
  cbn [checkheap_buckets]. step (bucket_ok index s).
  step (shape_head _ _ _ index HS Hi).
  unfold bind at 1. unfold walk_bound at 1.
  pose proof (sh_chain _ _ _ HS index Hi) as Hc. unfold chain in Hc.
  rewrite (lseg_head _ _ _ _ Hc) in Hc.
  pose proof (shape_list_length _ _ _ index HS Hi) as Hlen.
  assert (Hf : (length (fl index) < S (Z.to_nat (mem_brk s - mem_lo s)))%nat)
    by lia.
  step (checkheap_list_silent s bs fl index out (fl index) _ _
          HW Hi Hc (fun y Hy => Hy) Hf).
  apply IH; auto; lia.
Qed.

Lemma prologue_tag s bs fl :
  heap_shape s bs fl ->
  GET_ALLOC (heap_listp s + 8 * 9) s = Ok 1 s /\
  GET_SIZE (heap_listp s + 8 * 9) s = Ok 0 s.
Proof.
  intros HS. pose proof (sh_lo _ _ _ HS).
  pose proof (shape_brk _ _ _ HS) as [? _].
  pose proof (sh_prologue _ _ _ HS) as HP.
  replace (heap_listp s + 72) with (heap_listp s + 8 * 9) in HP by lia.
  split.
  - rewrite GET_ALLOC_ok by lia. rewrite HP. reflexivity.
  - rewrite GET_SIZE_ok by lia. rewrite HP. reflexivity.
Qed.

Lemma first_word_alloc s bs fl :
  heap_shape s bs fl ->
  GET_ALLOC (heap_listp s + 76) s = Ok (bit (first_alloc bs)) s.
Proof.
  intros HS. destruct bs as [|b bs].
  - pose proof (sh_contig _ _ _ HS) as C. simpl in C.
    pose proof (sh_lo _ _ _ HS). pose proof (sh_epilogue _ _ _ HS) as HE.
    rewrite GET_ALLOC_ok by lia. rewrite C, HE. reflexivity.
  - pose proof (sh_contig _ _ _ HS) as C. destruct C as (Ha & _).
    rewrite <- Ha. unfold first_alloc. cbn [hd].
    apply (shape_GET_ALLOC _ _ _ _ HS). now left.
Qed.

Lemma checkheap_blocks_silent s bs fl k out :
  heap_shape s bs fl ->
  checkheap_blocks (S k) (heap_listp s + 8 * 9) (heap_listp s + 76) out s
  = Ok out s.
Proof.
  intros HS. destruct (prologue_tag _ _ _ HS) as (PA & PS).
  cbn [checkheap_blocks]. step (first_word_alloc _ _ _ HS).
  destruct (first_alloc bs); cbn [bit].
  - reflexivity.
  - change (0 =? 1) with false. cbv iota. step PS. reflexivity.
Qed.

(** X5.  On a well-formed heap [mm_checkheap] completes, prints nothing
    and leaves the state as it is; the verbosity only decides whether the
    standard output is redirected. *)
Theorem mm_checkheap_silent s bs fl verbose :
  heap_wf s bs fl ->
  mm_checkheap verbose s = Ok (verbose =? 1, []) s.
Proof.
  intros HW. pose proof HW as [HS _].
  destruct (prologue_tag _ _ _ HS) as (PA & PS).
  unfold mm_checkheap. cbv zeta. unfold bind at 1. unfold get_heap_listp at 1.
  step PA. step PS. change (1 =? 1) with true. change (0 =? 0) with true.
  cbn [negb say].
  unfold bind at 1. unfold walk_bound at 1.
  unfold WSIZE. replace (heap_listp s + 8 * 9 + 4) with (heap_listp s + 76)
    by lia.
  step (checkheap_blocks_silent s bs fl (Z.to_nat (mem_brk s - mem_lo s)) []
          HS).
  step PA. step PS. change (1 =? 1) with true.
  change (0 =? 0) with true. cbn [negb say].
  step (checkheap_buckets_silent s bs fl [] 9 0 HW ltac:(lia) ltac:(lia)).
  reflexivity.
Qed.

Lemma mm_checkheap_silent_witness :
  mm_checkheap 1 heap_free_alloc = Ok (true, []) heap_free_alloc.
Proof.
  destruct heap_free_alloc_ok as (bs & fl & HW & _).
  exact (mm_checkheap_silent heap_free_alloc bs fl 1 HW).
Defined.











(** *** Initialisation *)

Lemma block_allocated s bs fl b :
  heap_shape s bs fl -> In b bs -> b_alloc b = true ->
  allocated s (b_addr b + 4) (b_size b).
Proof.
  intros HS Hb Ha. exists bs. split; [eapply arena_shape; eauto|].
  replace (b_addr b + 4 - 4) with (b_addr b) by lia.
  rewrite <- Ha, block_eta. exact Hb.
Qed.

(** X7.  [mm_init] on a fresh heap with room for 80 bytes returns 0,
    takes exactly 80 bytes at the old break, sets the nine bucket heads
    to [NULL] and writes the two sentinel words [PACK(0,1)]; the arena
    is empty and the heap invariant holds.  When the heap has no room
    for the 80 bytes it returns -1, writes nothing and leaves the break
    where it was, but [heap_listp] is left holding [(void * )-1]. *)
Theorem mm_init_outcome s :
  (fresh s ->
   exists s',
     mm_init s = Ok 0 s' /\
     heap_listp s' = mem_brk s /\ mem_brk s' = mem_brk s + 80 /\
     mem_lo s' = mem_lo s /\ mem_max_addr s' = mem_max_addr s /\
     (forall i, 0 <= i <= 8 ->
        (b <- bucket i ;; load 8 b) s' = Ok NULL s') /\
     GET (heap_listp s' + 72) s' = Ok (PACK 0 1) s' /\
     GET (heap_listp s' + 76) s' = Ok (PACK 0 1) s' /\
     arena s' = Some [] /\ heap_ok s') /\
  (mem_max_addr s < mem_brk s + 80 ->
   mm_init s = Ok (-1) (with_heap_listp s SBRK_FAIL)).
Proof.
  split.
  - intros Hf. destruct (mm_init_spec s Hf) as (s' & E & E1 & E2 & E3 & E4 & W).
    pose proof W as [HS _].
    pose proof (sh_lo _ _ _ HS) as Hlo.
    exists s'. split; [exact E|]. split; [exact E1|]. split; [exact E2|].
    split; [exact E3|]. split; [exact E4|]. split; [|split; [|split; [|split]]].
    + intros i Hi. step (bucket_ok i s').
      exact (shape_head _ _ _ i HS Hi).
    + unfold GET. rewrite load_ok by (cbn; lia).
      rewrite (sh_prologue _ _ _ HS). reflexivity.
    + unfold GET. rewrite load_ok by (cbn; lia).
      replace (heap_listp s' + 76) with (mem_brk s' - 4) by lia.
      rewrite (sh_epilogue _ _ _ HS). reflexivity.
    + exact (arena_shape _ _ _ HS).
    + exists [], (fun _ => []). split; [exact W|exact I].
  - intros Hroom. unfold mm_init, mem_sbrk, DSIZE.
    unfold bind at 1. change (10 * 8 <? 0) with false. cbn [orb].
    destruct (Z.ltb_spec (mem_max_addr s) (mem_brk s + 10 * 8)); [|lia].
    unfold bind at 1. unfold set_heap_listp at 1.
    change (SBRK_FAIL =? SBRK_FAIL) with true. reflexivity.
Qed.

Lemma mm_init_outcome_witness :
  (exists s', mm_init example_heap = Ok 0 s' /\ heap_ok s') /\
  mm_init (mkState (fun _ => 0) 4096 4096 (4096 + 72) 0 0)
  = Ok (-1) (mkState (fun _ => 0) 4096 4096 (4096 + 72) SBRK_FAIL 0).
Proof.
  split.
  - destruct (proj1 (mm_init_outcome example_heap) fresh_example_heap)
      as (s' & H & _ & _ & _ & _ & _ & _ & _ & _ & Hok).
    exists s'. auto.
  - apply (proj2 (mm_init_outcome
                    (mkState (fun _ => 0) 4096 4096 (4096 + 72) 0 0))).
    cbn. lia.
Defined.

(** *** What an allocation and a release do to the other blocks *)

(** X8.  A successful [malloc] of [size] bytes (up to [2^32 - 16]) on a
    heap that satisfies the invariant returns the payload of an
    allocated block of at least [size + 8] bytes that lies inside the
    heap; every block that was allocated before is still allocated, has
    the same size, does not overlap the new block and holds the same
    bytes; the heap does not move and does not shrink; the invariant
    holds afterwards. *)
Theorem malloc_block_is_fresh s size p s' :
  heap_ok s -> 0 < size <= 2 ^ 32 - 16 ->
  malloc size s = Ok p s' -> p <> SBRK_FAIL ->
  heap_ok s' /\
  mem_lo s' = mem_lo s /\ heap_listp s' = heap_listp s /\
  mem_brk s <= mem_brk s' /\
  exists sz',
    allocated s' p sz' /\ size + 8 <= sz' /\
    heap_listp s + 76 <= p - 4 /\ p - 4 + sz' <= mem_brk s' - 4 /\
    forall q sz, allocated s q sz ->
      allocated s' q sz /\
      (q - 4 + sz <= p - 4 \/ p - 4 + sz' <= q - 4) /\
      forall x, q - 4 <= x < q - 4 + sz -> mem s' x = mem s x.
Proof.
  intros (bs & fl & HW & NA) Hsize HM Hp.
  destruct (malloc_spec s bs fl size HW NA Hsize)
    as (p0 & s0 & bs' & fl' & HM0 & G & W & N & SV & R).
  rewrite HM in HM0. injection HM0 as <- <-.
  destruct G as (G1 & G2 & G3 & G4).
  destruct R as [[R _]|(b & Hb & Hba & -> & Hbs & Hnew)]; [contradiction|].
  pose proof W as [HS' _].
  pose proof (shape_block _ _ _ _ HS' Hb) as (B1 & B2 & _).
  split; [exists bs', fl'; auto|]. split; [exact G1|]. split; [exact G3|].
  split; [exact G4|].
  exists (b_size b). split; [exact (block_allocated _ _ _ _ HS' Hb Hba)|].
  split; [exact Hbs|]. split; [lia|]. split; [lia|].
  intros q sz Hal.
  pose proof (allocated_block _ _ _ _ _ HW Hal) as Hc.
  destruct (SV _ Hc eq_refl) as [Hc' Hmem].
  pose proof (Hnew _ Hc eq_refl) as Hne. cbn [b_addr b_size] in *.
  split.
  { pose proof (block_allocated _ _ _ _ HS' Hc' eq_refl) as H.
    cbn [b_addr b_size] in H. replace (q - 4 + 4) with q in H by lia.
    exact H. }
  split.
  { destruct (contig_disjoint _ _ _ _ _ (sh_contig _ _ _ HS') Hc' Hb)
      as [E|[D|D]]; cbn [b_addr b_size] in *.
    - subst b. cbn [b_addr] in Hne. congruence.
    - left. lia.
    - right. lia. }
  exact Hmem.
Qed.

Lemma malloc_block_is_fresh_witness :
  exists p s' sz',
    malloc 24 heap_free_alloc = Ok p s' /\ heap_ok s' /\
    allocated s' p sz' /\ 24 + 8 <= sz'.
Proof.
  assert (Hq : returns (malloc 24 heap_free_alloc)
                 (fun q _ => q <> SBRK_FAIL)) by (vm_compute; discriminate).
  destruct (malloc 24 heap_free_alloc) as [q s1| |] eqn:E;
    try contradiction.
  cbn [returns] in Hq.
  destruct (malloc_block_is_fresh heap_free_alloc 24 q s1
              heap_free_alloc_ok ltac:(lia) E Hq)
    as (Hok & _ & _ & _ & sz' & Ha & Hs & _).
  exists q, s1, sz'. auto.
Defined.

(** X9.  [free] of an allocated block on a heap that satisfies the
    invariant completes; afterwards the block is no longer allocated,
    every other allocated block is still allocated with its size and its
    bytes, the heap has neither moved nor shrunk (memory is never given
    back), and the invariant holds. *)
Theorem free_keeps_other_blocks s p sz :
  heap_ok s -> allocated s p sz ->
  exists s',
    free p s = Ok tt s' /\ heap_ok s' /\
    mem_lo s' = mem_lo s /\ mem_brk s' = mem_brk s /\
    mem_max_addr s' = mem_max_addr s /\ heap_listp s' = heap_listp s /\
    (forall sz0, ~ allocated s' p sz0) /\
    forall q sz', allocated s q sz' -> q <> p ->
      allocated s' q sz' /\
      forall x, q - 4 <= x < q - 4 + sz' -> mem s' x = mem s x.
Proof.
  intros (bs & fl & HW & NA) Hal.
  pose proof (allocated_block _ _ _ _ _ HW Hal) as Hb.
  pose proof HW as [HS LM].
  pose proof (sh_contig _ _ _ HS) as C.
  destruct (in_split _ _ Hb) as (l1 & l2 & E). subst bs.
  pose proof NA as NA0.
  apply no_adjacent_free_mid in NA. destruct NA as (N1 & N2 & _).
  destruct (free_spec s l1 _ l2 fl HS LM N1 N2)
    as (s' & bs' & fl' & HF & G & W & N & SV & (c & Hc & Hcf & Hc1 & Hc2)).
  cbn [b_addr b_size] in HF, Hc1, Hc2. replace (p - 4 + 4) with p in HF by lia.
  destruct G as (G1 & G2 & G3 & G4). pose proof W as [HS' _].
  pose proof (shape_block _ _ _ _ HS Hb) as (_ & _ & Hsz & _).
  cbn [b_size] in Hsz.
  exists s'. split; [exact HF|]. split; [exists bs', fl'; auto|].
  split; [exact G1|]. split; [exact G2|]. split; [exact G3|].
  split; [exact G4|]. split.
  - intros sz0 Hal'.
    pose proof (allocated_block _ _ _ _ _ W Hal') as Hb'.
    pose proof (shape_block _ _ _ _ HS' Hb') as (_ & _ & Hsz0 & _).
    destruct (contig_disjoint _ _ _ _ _ (sh_contig _ _ _ HS') Hc Hb')
      as [Ec|[D|D]]; cbn [b_addr b_size] in *.
    + subst c. discriminate Hcf.
    + lia.
    + lia.
  - intros q sz' Hq Hne.
    pose proof (allocated_block _ _ _ _ _ HW Hq) as Hqb.
    assert (Hq' : In (mkBlock (q - 4) sz' true) (l1 ++ l2)).
    { apply in_app_or in Hqb. apply in_or_app.
      destruct Hqb as [?|[Eq|?]]; auto.
      injection Eq as Eq _. lia. }
    destruct (SV _ Hq' eq_refl) as [S1 S2]. cbn [b_addr b_size] in S2.
    split; [|exact S2].
    pose proof (block_allocated _ _ _ _ HS' S1 eq_refl) as H.
    cbn [b_addr b_size] in H. replace (q - 4 + 4) with q in H by lia.
    exact H.
Qed.

Lemma free_keeps_other_blocks_witness :
  exists s', free 4208 (state_after (malloc 24)
                          (state_after (malloc 24) init_heap)) = Ok tt s' /\
             heap_ok s' /\ allocated s' 4176 32.
Proof.
  assert (Hok : heap_ok (state_after (malloc 24)
                           (state_after (malloc 24) init_heap))).
  { apply heap_ok_after_malloc; [|lia].
    apply heap_ok_after_malloc; [exact init_heap_ok|lia]. }
  assert (H1 : allocated (state_after (malloc 24)
                            (state_after (malloc 24) init_heap)) 4208 32).
  { exists [mkBlock 4172 32 true; mkBlock 4204 32 true].
    split; [vm_compute; reflexivity|]. simpl. auto. }
  assert (H2 : allocated (state_after (malloc 24)
                            (state_after (malloc 24) init_heap)) 4176 32).
  { exists [mkBlock 4172 32 true; mkBlock 4204 32 true].
    split; [vm_compute; reflexivity|]. simpl. auto. }
  destruct (free_keeps_other_blocks _ 4208 32 Hok H1)
    as (s' & HF & Hok' & _ & _ & _ & _ & _ & Hoth).
  exists s'. split; [exact HF|]. split; [exact Hok'|].
  apply (Hoth 4176 32 H2). lia.
Defined.

(** X10.  [free] of an allocated block whose two neighbours in the arena
    (a sentinel counts as allocated) are allocated: the block becomes
    free with its size unchanged and goes to the head of the list of
    the bucket of its size, in front of the nodes that were there; no
    other block and no other list changes, and outside the block no byte
    of the arena is written. *)
Theorem free_between_allocated_blocks s l1 b l2 fl :
  heap_wf s (l1 ++ b :: l2) fl -> b_alloc b = true ->
  last_alloc l1 = true -> first_alloc l2 = true ->
  exists s',
    free (b_addr b + 4) s = Ok tt s' /\
    heap_wf s' (l1 ++ set_alloc b false :: l2)
      (fl_set fl (getIndex (b_size b))
         (b_addr b :: fl (getIndex (b_size b)))) /\
    (h <- bucket (getIndex (b_size b)) ;; load 8 h) s' = Ok (b_addr b) s' /\
    NEXT_FREE (b_addr b) s' = Ok (hd NULL (fl (getIndex (b_size b)))) s' /\
    mem_brk s' = mem_brk s /\
    (forall x, heap_listp s + 72 <= x ->
       x < b_addr b \/ b_addr b + b_size b <= x -> mem s' x = mem s x).
Proof.
  intros [HS LM] Hba LA RA.
  assert (Eb : set_alloc b true = b).
  { unfold set_alloc. rewrite <- Hba. apply block_eta. }
  assert (LM' : lists_match (l1 ++ set_alloc b true :: l2) fl)
    by (rewrite Eb; exact LM).
  destruct (free_alone s l1 b l2 fl HS LM' LA RA)
    as (s' & HF & (G1 & G2 & G3 & G4) & W & FR).
  pose proof W as [HS' _].
  pose proof (getIndex_range (b_size b)) as Hi.
  assert (Hin : In (set_alloc b false) (l1 ++ set_alloc b false :: l2))
    by (apply in_or_app; simpl; auto).
  pose proof (shape_block _ _ _ _ HS' Hin) as (B1 & B2 & B3 & _).
  cbn [b_addr b_size set_alloc] in B1, B2, B3.
  pose proof (sh_lo _ _ _ HS') as Hlo.
  pose proof (sh_chain _ _ _ HS' _ Hi) as Hc. unfold chain in Hc.
  rewrite fl_set_same in Hc. destruct Hc as (Hh & _ & Hseg).
  exists s'. split; [exact HF|]. split; [exact W|].
  split; [|split; [|split; [exact G2|exact FR]]].
  - step (bucket_ok (getIndex (b_size b)) s').
    rewrite (shape_head _ _ _ _ HS' Hi). rewrite fl_set_same. reflexivity.
  - rewrite NEXT_FREE_ok by lia.
    rewrite (lseg_head _ _ _ _ Hseg). reflexivity.
Qed.

Lemma free_between_allocated_blocks_witness :
  exists s',
    free 4176 (state_after (malloc 24) init_heap) = Ok tt s' /\
    (h <- bucket 0 ;; load 8 h) s' = Ok 4172 s'.
Proof.
  assert (Hok : heap_ok (state_after (malloc 24) init_heap))
    by (apply heap_ok_after_malloc; [exact init_heap_ok|lia]).
  destruct (heap_ok_blocks _ [mkBlock 4172 32 true] Hok) as (fl & HW & _).
  { vm_compute. reflexivity. }
  destruct (free_between_allocated_blocks
              (state_after (malloc 24) init_heap) [] (mkBlock 4172 32 true) []
              fl HW eq_refl eq_refl eq_refl) as (s' & HF & _ & HB & _).
  exists s'. split; [exact HF|exact HB].
Defined.

(** *** [calloc] and the edge cases of [realloc] *)

(** X11.  [calloc] whose product is 0 modulo [2^64] (a zero count or
    size, or a product that wraps around to 0) returns [NULL] and leaves
    the heap as it is.  When the product is not 0 and at most
    [2^32 - 16], the largest request that a 32-bit block size holds, and
    its allocation succeeds, [calloc] returns the pointer [malloc]
    returns, to an allocated block with room for the product, whose
    first [nmemb * size] bytes (modulo [2^64]) are all 0; the blocks that
    were allocated before keep their size and their bytes, and the
    invariant holds afterwards.  Nothing is said of a larger product. *)
Theorem calloc_zero_fills s nmemb size :
  heap_ok s ->
  (u64 (nmemb * size) = 0 -> calloc nmemb size s = Ok NULL s) /\
  (forall p s1,
     0 < u64 (nmemb * size) <= 2 ^ 32 - 16 ->
     malloc (u64 (nmemb * size)) s = Ok p s1 -> p <> SBRK_FAIL ->
     exists s' sz',
       calloc nmemb size s = Ok p s' /\ heap_ok s' /\
       allocated s' p sz' /\ u64 (nmemb * size) + 8 <= sz' /\
       (forall i, 0 <= i < u64 (nmemb * size) -> mem s' (p + i) = 0) /\
       forall q sz, allocated s q sz ->
         allocated s' q sz /\
         forall x, q - 4 <= x < q - 4 + sz -> mem s' x = mem s x).
Proof.
  intros (bs & fl & HW & NA). split; [apply calloc_zero|].
  intros p s1 Hn HM Hp.
  destruct (calloc_spec s bs fl nmemb size p s1 HW NA Hn HM Hp)
    as (s' & bs' & fl' & b' & HC & _ & W & N & Hb' & Ha' & -> & Hsz & HZ & SV).
  pose proof W as [HS' _].
  exists s', (b_size b'). split; [exact HC|]. split; [exists bs', fl'; auto|].
  split; [exact (block_allocated _ _ _ _ HS' Hb' Ha')|].
  split; [exact Hsz|]. split; [exact HZ|].
  intros q sz Hal.
  pose proof (allocated_block _ _ _ _ _ HW Hal) as Hc.
  destruct (SV _ Hc eq_refl) as [S1 S2]. cbn [b_addr b_size] in S2.
  split; [|exact S2].
  pose proof (block_allocated _ _ _ _ HS' S1 eq_refl) as H.
  cbn [b_addr b_size] in H. replace (q - 4 + 4) with q in H by lia.
  exact H.
Qed.

Lemma calloc_zero_fills_witness :
  calloc 0 8 init_heap = Ok NULL init_heap /\
  calloc 4294967296 4294967296 init_heap = Ok NULL init_heap /\
  exists p s', calloc 3 8 init_heap = Ok p s' /\
               forall i, 0 <= i < 24 -> mem s' (p + i) = 0.
Proof.
  destruct (calloc_zero_fills init_heap 0 8 init_heap_ok) as [H0 _].
  destruct (calloc_zero_fills init_heap 4294967296 4294967296 init_heap_ok)
    as [H1 _].
  destruct (calloc_zero_fills init_heap 3 8 init_heap_ok) as [_ H2].
  split; [apply H0; reflexivity|]. split; [apply H1; reflexivity|].
  assert (Hq : returns (malloc (u64 (3 * 8)) init_heap)
                 (fun q _ => q <> SBRK_FAIL)) by (vm_compute; discriminate).
  destruct (malloc (u64 (3 * 8)) init_heap) as [q s1| |] eqn:E;
    try contradiction.
  cbn [returns] in Hq.
  destruct (H2 q s1) as (s' & sz' & HC & _ & _ & _ & HZ & _).
  - vm_compute. split; [reflexivity|discriminate].
  - reflexivity.
  - exact Hq.
  - exists q, s'. split; [exact HC|exact HZ].
Defined.

(** X12.  The edge cases of [realloc]: with a null pointer it is
    [malloc]; with size 0 and an allocated block it frees the block, as
    [free] does, and returns [NULL], and the heap invariant holds
    afterwards. *)
Theorem realloc_null_and_zero s p sz :
  heap_ok s -> allocated s p sz ->
  (forall size, realloc NULL size s = malloc size s) /\
  exists s',
    realloc p 0 s = Ok NULL s' /\ free p s = Ok tt s' /\ heap_ok s' /\
    mem_brk s' = mem_brk s.
Proof.
  intros Hok Hal. split; [reflexivity|].
  pose proof (allocated_nonnull _ _ _ Hok Hal) as Hp.
  pose proof Hok as (bs & fl & HW & NA).
  pose proof (allocated_block _ _ _ _ _ HW Hal) as Hb.
  pose proof HW as [HS LM].
  destruct (in_split _ _ Hb) as (l1 & l2 & E). subst bs.
  apply no_adjacent_free_mid in NA. destruct NA as (N1 & N2 & _).
  destruct (free_spec s l1 _ l2 fl HS LM N1 N2)
    as (s' & bs' & fl' & HF & G & W & N & _).
  cbn [b_addr] in HF. replace (p - 4 + 4) with p in HF by lia.
  destruct G as (_ & G2 & _).
  exists s'. split; [|split; [exact HF|split; [exists bs', fl'; auto|exact G2]]].
  unfold realloc. destruct (Z.eqb_spec p NULL) as [?|_]; [contradiction|].
  change (0 =? 0) with true. cbv iota. step HF. reflexivity.
Qed.

Lemma realloc_null_and_zero_witness :
  exists s', realloc 4176 0 (state_after (malloc 24) init_heap) = Ok NULL s' /\
             heap_ok s'.
Proof.
  assert (Hok : heap_ok (state_after (malloc 24) init_heap))
    by (apply heap_ok_after_malloc; [exact init_heap_ok|lia]).
  assert (Hal : allocated (state_after (malloc 24) init_heap) 4176 32).
  { exists [mkBlock 4172 32 true]. split; [vm_compute; reflexivity|].
    simpl. auto. }
  destruct (realloc_null_and_zero _ 4176 32 Hok Hal)
    as (_ & s' & H1 & _ & H2 & _).
  exists s'. auto.
Defined.

(** *** Growing the heap and unlinking a node *)

(** X13.  [extend_heap] with a size that is a multiple of 8 between 16
    and [2^31], on a well-formed heap with room for it, returns the old
    break, moves the break up by exactly the size and appends one
    allocated block of that size to the arena (its header takes the
    place of the old epilogue word and a new epilogue follows it); the
    free lists and every byte below the old epilogue are unchanged.
    With a negative size, or without room, it returns [(void * )-1] and
    changes nothing. *)
Theorem extend_heap_appends_block s bs fl n :
  heap_wf s bs fl ->
  (16 <= n < 2 ^ 31 -> n mod 8 = 0 -> mem_brk s + n <= mem_max_addr s ->
   exists s',
     extend_heap n s = Ok (mem_brk s) s' /\
     mem_brk s' = mem_brk s + n /\
     heap_wf s' (bs ++ [mkBlock (mem_brk s - 4) n true]) fl /\
     (forall x, x < mem_brk s - 4 -> mem s' x = mem s x)) /\
  (n < 0 \/ mem_max_addr s < mem_brk s + n ->
   extend_heap n s = Ok SBRK_FAIL s).
Proof.
  intros [HS LM]. split; [|apply extend_heap_fail].
  intros Hn Hm Hroom.
  destruct (extend_heap_spec s bs fl n HS Hn Hm Hroom)
    as (s' & HE & E1 & _ & _ & _ & _ & HS' & HF).
  exists s'. split; [exact HE|]. split; [exact E1|]. split; [|exact HF].
  split; [exact HS'|].
  intros k x Hk. rewrite (LM k x Hk), free_in_app, free_in_cons, free_in_nil.
  cbn [b_alloc]. split; [tauto|]. intros [H|[H|[]]]; auto.
  destruct H as (_ & H & _). discriminate.
Qed.

Lemma extend_heap_appends_block_witness :
  (exists s', extend_heap 32 init_heap = Ok (mem_brk init_heap) s' /\
              mem_brk s' = mem_brk init_heap + 32) /\
  extend_heap (-8) init_heap = Ok SBRK_FAIL init_heap.
Proof.
  destruct (extend_heap_appends_block init_heap [] (fun _ => []) 32
              init_heap_wf) as [H1 _].
  destruct (extend_heap_appends_block init_heap [] (fun _ => []) (-8)
              init_heap_wf) as [_ H2].
  split.
  - destruct H1 as (s' & HE & HB & _).
    + lia.
    + reflexivity.
    + apply Z.leb_le. vm_compute. reflexivity.
    + exists s'. auto.
  - apply H2. left. lia.
Defined.

(** X14.  [relink] of a node of a free list, given its list predecessor
    ([NULL] for the head of the list): the node leaves the list of the
    bucket indexed by its size and the other nodes of that list keep
    their order; the other lists and the blocks are unchanged.  It
    writes one pointer, the bucket head or the next field of the
    predecessor, and nothing else. *)
Theorem relink_removes_node s bs fl b l1 l2 :
  heap_shape s bs fl -> In b bs ->
  fl (getIndex (b_size b)) = l1 ++ b_addr b :: l2 ->
  exists m',
    relink (b_addr b) (last l1 NULL) s = Ok tt (with_mem s m') /\
    heap_shape (with_mem s m') bs (fl_set fl (getIndex (b_size b)) (l1 ++ l2)) /\
    (l1 = [] ->
     forall x, heap_listp s + 72 <= x -> m' x = mem s x) /\
    (forall x, heap_listp s + 72 <= x ->
       x < last l1 NULL + 4 \/ last l1 NULL + 12 <= x -> m' x = mem s x).
Proof.
  intros HS Hb Hfl.
  destruct (relink_spec s bs fl b l1 l2 HS Hb Hfl) as (m' & HR & HS' & FR).
  exists m'. split; [exact HR|]. split; [exact HS'|]. split; [|exact FR].
  intros -> x Hx. apply FR; [exact Hx|].
  pose proof (sh_lo _ _ _ HS). cbn [last]. unfold NULL. lia.
Qed.

Lemma relink_removes_node_witness :
  exists m', relink 4172 NULL heap_free_alloc
             = Ok tt (with_mem heap_free_alloc m').
Proof.
  destruct (heap_ok_blocks heap_free_alloc
              [mkBlock 4172 32 false; mkBlock 4204 32 true]
              heap_free_alloc_ok) as (fl & HW & NA).
  { vm_compute. reflexivity. }
  pose proof (wf_free_listed _ _ _ (mkBlock 4172 32 false) HW
                (or_introl eq_refl) eq_refl) as Hin.
  cbn [b_size b_addr] in Hin.
  pose proof HW as [HS _].
  assert (Hhd : exists l2, fl (getIndex 32) = [] ++ 4172 :: l2).
  { pose proof (shape_head _ _ _ (getIndex 32) HS ltac:(vm_compute; split; discriminate)) as HL.
    assert (HL' : returns (load 8 (heap_listp heap_free_alloc
                                    + 8 * getIndex 32) heap_free_alloc)
                    (fun v _ => v = 4172)) by (vm_compute; reflexivity).
    rewrite HL in HL'. cbn [returns] in HL'.
    destruct (fl (getIndex 32)) as [|x l2]; [contradiction|].
    cbn [hd] in HL'. subst x. exists l2. reflexivity. }
  destruct Hhd as (l2 & Hfl).
  destruct (relink_removes_node heap_free_alloc _ fl (mkBlock 4172 32 false)
              [] l2 HS (or_introl eq_refl) Hfl) as (m' & HR & _).
  exists m'. exact HR.
Defined.

(** *** [find_prev] without its precondition *)

Lemma bind_crash {A B} (c : M A) (f : A -> M B) s :
  c s = Crash -> bind c f s = Crash.
Proof. intros H. unfold bind. now rewrite H. Qed.

Lemma find_prev_loop_miss L : forall fuel s h p,
  lseg (mem s) h L NULL -> ~ In p L -> p <> NULL ->
  (forall x, In x L -> mem_lo s <= x + 4 /\ x + 12 <= mem_brk s) ->
  4 < mem_lo s -> (length L < fuel)%nat ->
  find_prev_loop fuel p h s = Crash.
Proof.
  induction L as [|a L IH]; intros fuel s h p Hseg Hnin Hp Hv Hlo Hf.
  - destruct fuel as [|k]; [simpl in Hf; lia|].
    simpl in Hseg. subst h. cbn [find_prev_loop].
    destruct (Z.eqb_spec NULL p) as [E|_]; [congruence|].
    unfold bind at 1. unfold set_prevPtr at 1.
    apply bind_crash. unfold NEXT_FREE, load, valid, NULL, WSIZE.
    cbn [mem_lo mem_brk with_prevPtr].
    destruct (Z.leb_spec (mem_lo s) (0 + 4)); [lia|]. reflexivity.
  - destruct fuel as [|k]; [simpl in Hf; lia|].
    destruct Hseg as (-> & Ha & Hseg). cbn [find_prev_loop].
    destruct (Z.eqb_spec a p) as [->|Hap]; [exfalso; apply Hnin; now left|].
    assert (HNF : NEXT_FREE a (with_prevPtr s a)
                  = Ok (rd (mem s) (a + 4) 8) (with_prevPtr s a)).
    { apply (NEXT_FREE_ok a (with_prevPtr s a)); cbn; apply (Hv a); now left. }
    unfold bind at 1. unfold set_prevPtr at 1. step HNF.
    apply IH; auto.
    + intros H. apply Hnin. now right.
    + intros x Hx. cbn. apply Hv. now right.
    + simpl in Hf. lia.
Qed.

(** X15.  [find_prev] has no test for the end of the list: called on a
    block of a well-shaped heap that is not on the list of the bucket
    indexed by its size (an allocated block, say), it walks the whole
    list and then reads the next field of [NULL], an address outside the
    heap. *)
Theorem find_prev_unlisted_block_crashes s bs fl b :
  heap_shape s bs fl -> In b bs -> 4 < mem_lo s ->
  ~ In (b_addr b) (fl (getIndex (b_size b))) ->
  find_prev (b_addr b) s = Crash.
Proof.
  intros H Hb Hlo4 Hnin.
  set (i := getIndex (b_size b)) in *.
  assert (Hi : 0 <= i <= 8) by apply getIndex_range.
  pose proof (shape_block _ _ _ _ H Hb) as (B1 & B2 & B3 & B4 & B5 & B6 & B7).
  pose proof (sh_lo _ _ _ H) as Hlo.
  pose proof (shape_brk _ _ _ H) as [Hbrk _].
  pose proof (sh_chain _ _ _ H i Hi) as Hch. unfold chain in Hch.
  pose proof (shape_list_length _ _ _ i H Hi) as Hlen.
  pose proof (shape_GET_SIZE _ _ _ _ H Hb) as HGS.
  assert (HLD : load 8 (heap_listp s + 8 * i) (with_prevPtr s NULL)
                = Ok (rd (mem s) (heap_listp s + 8 * i) 8) (with_prevPtr s NULL)).
  { apply (load_ok 8 _ (with_prevPtr s NULL));
      cbn [mem_lo mem_brk with_prevPtr]; lia. }
  unfold find_prev. step HGS. fold i.
  unfold bind at 1. unfold set_prevPtr at 1.
  step (bucket_ok i (with_prevPtr s NULL)).
  cbn [heap_listp with_prevPtr]. step HLD.
  unfold bind at 1. unfold walk_bound at 1.
  cbn [mem_lo mem_brk with_prevPtr].
  apply bind_crash.
  apply (find_prev_loop_miss (fl i) _ (with_prevPtr s NULL)); auto.
  - unfold NULL. lia.
  - intros x Hx. pose proof (shape_node_range _ _ _ i x H Hi Hx).
    cbn [mem_lo mem_brk with_prevPtr]. lia.
  - lia.
Qed.

Lemma find_prev_unlisted_block_crashes_witness :
  find_prev 4204 heap_free_alloc = Crash.
Proof.
  destruct (heap_ok_blocks heap_free_alloc
              [mkBlock 4172 32 false; mkBlock 4204 32 true]
              heap_free_alloc_ok) as (fl & HW & NA).
  { vm_compute. reflexivity. }
  pose proof HW as [HS LM].
  apply (find_prev_unlisted_block_crashes heap_free_alloc _ fl
           (mkBlock 4204 32 true) HS (or_intror (or_introl eq_refl))).
  - vm_compute. reflexivity.
  - cbn [b_addr b_size]. intros Hin.
    apply (LM _ _ (getIndex_range 32)) in Hin.
    destruct Hin as (sz & [E|[E|[]]] & _); discriminate E.
Defined.

(** *** Releasing a block and asking for it again *)

Lemma heap_wf_fl_ext s bs fl fl' :
  heap_wf s bs fl -> (forall j, fl' j = fl j) -> heap_wf s bs fl'.
Proof.
  intros [HS LM] E. split.
  - eapply shape_fl_ext; eauto.
  - intros i x Hi. rewrite E. apply LM. exact Hi.
Qed.

(** X16.  Round trip of [free] and [malloc]: when an allocated block
    whose two neighbours are allocated is freed and a request follows
    whose required size lies in the same size class and is at most 16
    bytes below the size of the block, [malloc] returns the same
    pointer; the blocks of the arena and the free lists are then what
    they were before the [free], and the break has not moved. *)
Theorem free_then_malloc_returns_same_block s l1 b l2 fl size :
  heap_wf s (l1 ++ b :: l2) fl -> b_alloc b = true ->
  last_alloc l1 = true -> first_alloc l2 = true ->
  0 < size < 2 ^ 31 - 16 ->
  getIndex (required_size size) = getIndex (b_size b) ->
  0 <= b_size b - required_size size <= 16 ->
  exists s1 s2,
    free (b_addr b + 4) s = Ok tt s1 /\
    malloc size s1 = Ok (b_addr b + 4) s2 /\
    heap_wf s2 (l1 ++ b :: l2) fl /\
    mem_brk s2 = mem_brk s.
Proof.
  intros [HS LM] Hba LA RA Hsize Hidx Hfit.
  assert (Eb : set_alloc b true = b).
  { unfold set_alloc. rewrite <- Hba. apply block_eta. }
  assert (LM' : lists_match (l1 ++ set_alloc b true :: l2) fl)
    by (rewrite Eb; exact LM).
  destruct (free_alone s l1 b l2 fl HS LM' LA RA)
    as (s1 & HF & (G1 & G2 & G3 & G4) & W & FR).
  set (i := getIndex (b_size b)) in *.
  destruct (malloc_take_whole s1 l1 (set_alloc b false) l2 _ size []
              (fl i) W eq_refl Hsize)
    as (s2 & HM & (G1' & G2' & G3' & G4') & W2).
  - exact Hidx.
  - cbn [b_size b_addr set_alloc]. fold i. rewrite fl_set_same. reflexivity.
  - intros y [].
  - exact Hfit.
  - cbn [b_size b_addr set_alloc] in HM, W2. fold i in W2.
    exists s1, s2. split; [exact HF|]. split; [exact HM|].
    split; [|congruence].
    assert (Eb2 : set_alloc (set_alloc b false) true = b).
    { unfold set_alloc. cbn [b_addr b_size]. rewrite <- Hba. apply block_eta. }
    rewrite Eb2 in W2. eapply heap_wf_fl_ext; [exact W2|].
    intros j. unfold fl_set. cbn [app].
    destruct (Z.eqb_spec j i) as [->|?]; reflexivity.
Qed.

Lemma free_then_malloc_returns_same_block_witness :
  exists s1 s2,
    free 4176 (state_after (malloc 24) init_heap) = Ok tt s1 /\
    malloc 17 s1 = Ok 4176 s2.
Proof.
  assert (Hok : heap_ok (state_after (malloc 24) init_heap))
    by (apply heap_ok_after_malloc; [exact init_heap_ok|lia]).
  destruct (heap_ok_blocks _ [mkBlock 4172 32 true] Hok) as (fl & HW & _).
  { vm_compute. reflexivity. }
  destruct (free_then_malloc_returns_same_block
              (state_after (malloc 24) init_heap) [] (mkBlock 4172 32 true) []
              fl 17 HW eq_refl eq_refl eq_refl)
    as (s1 & s2 & HF & HM & _).
  - lia.
  - reflexivity.
  - vm_compute. split; discriminate.
  - exists s1, s2. auto.
Defined.

(** *** The arena after [free], in the four cases of [coalesce] *)

Lemma free_exact s l1 b l2 fl :
  heap_shape s (l1 ++ b :: l2) fl ->
  lists_match (l1 ++ set_alloc b true :: l2) fl ->
  no_adjacent_free l1 -> no_adjacent_free l2 ->
  exists s' fl',
    free (b_addr b + 4) s = Ok tt s' /\ same_geom s s' /\
    heap_wf s' (coalesced l1 b l2) fl' /\
    no_adjacent_free (coalesced l1 b l2) /\
    hd NULL (fl' (getIndex (b_size (merged_block l1 b l2))))
    = b_addr (merged_block l1 b l2).
Proof.
  intros HS LM NA1 NA2.
  destruct (free_insert_spec _ _ _ _ _ HS LM) as (s1 & E1 & G1 & W1 & F1).
  destruct (coalesce_exact s1 l1 (set_alloc b false) l2 _ W1 eq_refl)
    as (s' & fl' & E2 & G2 & W2 & NA & _ & HD); auto.
  { cbn [b_size b_addr set_alloc]. now rewrite fl_set_same. }
  change (coalesced l1 (set_alloc b false) l2) with (coalesced l1 b l2) in *.
  change (merged_block l1 (set_alloc b false) l2)
    with (merged_block l1 b l2) in *.
  exists s', fl'.
  split; [rewrite E1; exact E2|]. split; [eapply same_geom_trans; eauto|].
  split; [exact W2|]. split; [exact NA|exact HD].
Qed.

(** X17.  [free] of an allocated block merges it with those of its two
    neighbours in the arena that are free, in each of the four cases:
    afterwards the arena is the old one with the freed block and its
    free neighbours replaced by a single free block, which starts where
    the leftmost of them started and has the sum of their sizes; this
    block is the head of the list of the bucket of its new size; the
    break does not move and the invariant holds. *)
Theorem free_merges_free_neighbours s l1 b l2 fl :
  heap_wf s (l1 ++ b :: l2) fl -> no_adjacent_free (l1 ++ b :: l2) ->
  b_alloc b = true ->
  exists s' fl',
    free (b_addr b + 4) s = Ok tt s' /\
    heap_wf s' (coalesced l1 b l2) fl' /\
    no_adjacent_free (coalesced l1 b l2) /\
    arena s' = Some (coalesced l1 b l2) /\
    (h <- bucket (getIndex (b_size (merged_block l1 b l2))) ;; load 8 h) s'
    = Ok (b_addr (merged_block l1 b l2)) s' /\
    mem_brk s' = mem_brk s.
Proof.
  intros [HS LM] NA Hba.
  assert (Eb : set_alloc b true = b).
  { unfold set_alloc. rewrite <- Hba. apply block_eta. }
  assert (LM' : lists_match (l1 ++ set_alloc b true :: l2) fl)
    by (rewrite Eb; exact LM).
  apply no_adjacent_free_mid in NA. destruct NA as (N1 & N2 & _).
  destruct (free_exact s l1 b l2 fl HS LM' N1 N2)
    as (s' & fl' & HF & (_ & G2 & _) & W & N & HD).
  pose proof W as [HS' _].
  exists s', fl'. split; [exact HF|]. split; [exact W|]. split; [exact N|].
  split; [exact (arena_shape _ _ _ HS')|]. split; [|exact G2].
  step (bucket_ok (getIndex (b_size (merged_block l1 b l2))) s').
  rewrite (shape_head _ _ _ _ HS' (getIndex_range _)). now rewrite HD.
Qed.

Lemma free_merges_free_neighbours_witness :
  exists s', free 4208 heap_free_alloc = Ok tt s' /\
             arena s' = Some [mkBlock 4172 64 false].
Proof.
  destruct (heap_ok_blocks heap_free_alloc
              [mkBlock 4172 32 false; mkBlock 4204 32 true]
              heap_free_alloc_ok) as (fl & HW & NA).
  { vm_compute. reflexivity. }
  destruct (free_merges_free_neighbours heap_free_alloc
              [mkBlock 4172 32 false] (mkBlock 4204 32 true) [] fl
              HW NA eq_refl) as (s' & fl' & HF & _ & _ & HA & _).
  exists s'. split; [exact HF|exact HA].
Defined.

(** *** The search, and [malloc] on a hit and on a failed growth *)

(** X18.  What [first_fit] finds fits: on a well-formed heap, searched
    from the natural bucket of the requested size, a result other than
    [NULL] is a free block of at least that size — also when it is
    the head of a higher bucket, taken without a look at its size — and
    [prevPtr] is left holding its predecessor in the list of its bucket
    ([NULL] for the head), which is what [place] needs to unlink it. *)
Theorem first_fit_result_fits s bs fl asize x s' :
  heap_wf s bs fl ->
  first_fit asize (getIndex asize) s = Ok x s' -> x <> NULL ->
  exists b l1 l2,
    In b bs /\ b_addr b = x /\ b_alloc b = false /\ asize <= b_size b /\
    fl (getIndex (b_size b)) = l1 ++ x :: l2 /\
    s' = with_prevPtr s (last l1 NULL).
Proof.
  intros [HS LM] HFF Hx.
  pose proof (getIndex_range asize) as Hi.
  set (index := getIndex asize) in *.
  pose proof (sh_contig _ _ _ HS) as C.
  destruct (list_first_fit (size_at bs) asize (fl index))
    as [(l1 & x0 & l2 & Hfl & H1 & H2)|Hmiss].
  - rewrite (first_fit_hit s bs fl asize index l1 x0 l2 HS Hi Hfl H1 H2) in HFF.
    injection HFF as <- <-.
    assert (Hin : In x0 (fl index))
      by (rewrite Hfl; apply in_or_app; simpl; auto).
    destruct (proj1 (LM index x0 Hi) Hin) as (sz & Hb & Hidx).
    pose proof (size_at_in _ _ _ _ C Hb) as Hsz. cbn [b_addr b_size] in Hsz.
    exists (mkBlock x0 sz false), l1, l2. cbn [b_addr b_size b_alloc].
    split; [exact Hb|]. split; [reflexivity|]. split; [reflexivity|].
    split; [lia|]. split; [rewrite Hidx; exact Hfl|reflexivity].
  - destruct (first_nonempty fl (Z.to_nat (8 - index)) (index + 1))
      as [He|(j0 & y & rest & Hj0 & He & Hy)].
    + rewrite (first_fit_null s bs fl asize index HS Hi Hmiss) in HFF.
      * injection HFF as <- _. contradiction.
      * intros j Hj. apply He. lia.
    + rewrite (first_fit_up s bs fl asize index j0 y rest HS Hi Hmiss) in HFF;
        auto; try lia.
      * injection HFF as <- <-.
        assert (Hin : In y (fl j0)) by (rewrite Hy; now left).
        destruct (proj1 (LM j0 y ltac:(lia)) Hin) as (sz & Hb & Hidx).
        exists (mkBlock y sz false), [], rest. cbn [b_addr b_size b_alloc].
        split; [exact Hb|]. split; [reflexivity|]. split; [reflexivity|].
        split; [|split; [rewrite Hidx; exact Hy|reflexivity]].
        assert (asize < sz) by (apply getIndex_gt; fold index; lia). lia.
      * intros j Hj. apply He. lia.
Qed.

Lemma first_fit_result_fits_witness :
  exists b, In b [mkBlock 4172 2008 false] /\ b_addr b = 4172 /\
            24 <= b_size b.
Proof.
  destruct (heap_ok_blocks heap_big_free [mkBlock 4172 2008 false]
              heap_big_free_ok) as (fl & HW & NA).
  { vm_compute. reflexivity. }
  assert (Hr : returns (first_fit 24 (getIndex 24) heap_big_free)
                 (fun r _ => r = 4172)) by (vm_compute; reflexivity).
  destruct (first_fit 24 (getIndex 24) heap_big_free) as [r s1| |] eqn:E;
    try contradiction.
  cbn [returns] in Hr. subst r.
  destruct (first_fit_result_fits heap_big_free _ fl 24 4172 s1 HW E)
    as (b & l1 & l2 & Hb & Ha & _ & Hs & _).
  - discriminate.
  - exists b. auto.
Defined.



(** X20.  [malloc] of a request that is not 0 and below [2^31 - 16]
    bytes, so that its required size fits the [int] parameter of
    [extend_heap], when nothing fits and the heap cannot grow: the
    natural bucket holds no block of the required size, the buckets
    above are empty and the heap has no room for the required size.
    [malloc] then returns the failure value of [mem_sbrk], [(void * )-1];
    no byte of memory is written, the break stays where it is and the
    heap is as well formed as before. *)
Theorem malloc_without_fit_or_room s bs fl size :
  heap_wf s bs fl -> 0 < size < 2 ^ 31 - 16 ->
  (forall z, In z (fl (getIndex (required_size size))) ->
     size_at bs z < required_size size) ->
  (forall j, getIndex (required_size size) < j <= 8 -> fl j = []) ->
  mem_max_addr s < mem_brk s + required_size size ->
  exists s',
    malloc size s = Ok SBRK_FAIL s' /\
    mem s' = mem s /\ mem_brk s' = mem_brk s /\ heap_wf s' bs fl.
Proof.
  intros HW Hsize Hmiss He Hroom. pose proof HW as [HS LM].
  destruct (required_size_spec size ltac:(lia)) as (Am & Ar).
  set (asize := required_size size) in *.
  pose proof (getIndex_range asize) as Hi.
  pose proof (first_fit_null s bs fl asize (getIndex asize) HS Hi Hmiss He)
    as HFF.
  set (pv := last (fl (getIndex asize)) NULL) in *.
  exists (with_prevPtr s pv).
  split; [|split; [reflexivity|split; [reflexivity|]]].
  - unfold malloc. destruct (Z.eqb_spec size 0); [lia|].
    cbv zeta. fold asize. rewrite (u32_small asize) by lia.
    step HFF. rewrite Z.eqb_refl. rewrite s32_small by lia.
    rewrite (bind_ok _ _ _ _ _
               (extend_heap_fail (with_prevPtr s pv) asize
                  (or_intror Hroom))).
    reflexivity.
  - apply heap_wf_prevPtr. exact HW.
Qed.

Lemma malloc_without_fit_or_room_witness :
  exists s', malloc 24 (state_after mm_init full_heap) = Ok SBRK_FAIL s' /\
             mem_brk s' = 4176.
Proof.
  assert (Hf : fresh full_heap).
  { unfold fresh, full_heap; cbn. repeat split; try lia; reflexivity. }
  destruct (mm_init_spec full_heap Hf) as (s0 & E & _ & Hb & _ & Hm & W).
  rewrite (state_after_ok _ _ _ _ E).
  destruct (malloc_without_fit_or_room s0 [] (fun _ => []) 24 W)
    as (s' & HM & _ & HB & _).
  - lia.
  - intros z [].
  - reflexivity.
  - rewrite Hb, Hm. vm_compute. reflexivity.
  - exists s'. split; [exact HM|]. rewrite HB, Hb. reflexivity.
Defined.

(** *** Edge cases of the growth and of the rounding *)

Lemma contig_last a l b e : contig a (l ++ [b]) e -> b_addr b + b_size b = e.
Proof.
  intros C. apply contig_app in C. destruct C as (m & _ & C).
  simpl in C. lia.
Qed.

(** X21.  [extend_heap] with size 0 succeeds without moving the break,
    and its second [PUT] lands 8 bytes below the break: when the arena
    is not empty it replaces the footer of the last block by the word
    [PACK(0,1)].  The epilogue word reads as before and no byte below
    the overwritten word changes. *)
Theorem extend_heap_zero_overwrites_footer s bs fl :
  heap_shape s bs fl ->
  exists s',
    extend_heap 0 s = Ok (mem_brk s) s' /\ mem_brk s' = mem_brk s /\
    GET (mem_brk s - 8) s' = Ok (PACK 0 1) s' /\
    GET (mem_brk s - 4) s' = Ok (PACK 0 1) s' /\
    (forall x, x < mem_brk s - 8 \/ mem_brk s <= x -> mem s' x = mem s x) /\
    (forall l b, bs = l ++ [b] ->
       GET (mem_brk s - 8) s = Ok (tag (b_size b) (b_alloc b)) s /\
       tag (b_size b) (b_alloc b) <> PACK 0 1).
Proof.
  intros HS. pose proof (sh_lo _ _ _ HS) as Hlo.
  pose proof (shape_brk _ _ _ HS) as [Hbrk _].
  pose proof (sh_max _ _ _ HS) as Hmax. pose proof (sh_ptr _ _ _ HS) as Hptr.
  assert (H1 : 0 <= PACK 0 1 < 2 ^ 32)
    by (vm_compute; split; [discriminate|reflexivity]).
  eexists. split; [|split; [|split; [|split; [|split]]]].
  - unfold extend_heap, bind at 1, mem_sbrk.
    change (0 <? 0) with false.
    destruct (Z.ltb_spec (mem_max_addr s) (mem_brk s + 0)); [lia|]. cbn [orb].
    destruct (Z.eqb_spec (mem_brk s) SBRK_FAIL) as [E|_];
      [unfold SBRK_FAIL in E; lia|].
    unfold WSIZE, DSIZE.
    rewrite !bind_PUT by (cbn [mem_lo mem_brk with_brk with_mem]; lia).
    reflexivity.
  - cbn [mem_brk with_mem with_brk]. lia.
  - unfold GET. rewrite load_ok by (cbn [mem_lo mem_brk with_brk with_mem]; lia).
    cbn [mem with_mem]. rewrite rd_wr_other by (cbn; lia).
    replace (mem_brk s + 0 - 8) with (mem_brk s - 8) by lia.
    rewrite rd_wr_4 by exact H1. reflexivity.
  - unfold GET. rewrite load_ok by (cbn [mem_lo mem_brk with_brk with_mem]; lia).
    cbn [mem with_mem].
    replace (mem_brk s + 0 - 4) with (mem_brk s - 4) by lia.
    rewrite rd_wr_4 by exact H1. reflexivity.
  - intros x Hx. cbn [mem with_mem]. rewrite !wr_out by (cbn; lia).
    reflexivity.
  - intros l b ->.
    assert (Hb : In b (l ++ [b])) by (apply in_or_app; simpl; auto).
    pose proof (shape_block _ _ _ _ HS Hb) as (B1 & B2 & B3 & B4 & B5 & B6 & B7).
    pose proof (contig_last _ _ _ _ (sh_contig _ _ _ HS)) as HL.
    split.
    + unfold GET. rewrite load_ok by (cbn; lia).
      replace (mem_brk s - 8) with (b_addr b + b_size b - 4) by lia.
      rewrite B7. reflexivity.
    + change (PACK 0 1) with 1. unfold tag. pose proof (bit_range (b_alloc b)).
      lia.
Qed.

Lemma extend_heap_zero_overwrites_footer_witness :
  exists s', extend_heap 0 heap_free_alloc = Ok (mem_brk heap_free_alloc) s' /\
             GET (mem_brk heap_free_alloc - 8) s' = Ok (PACK 0 1) s'.
Proof.
  destruct heap_free_alloc_ok as (bs & fl & [HS _] & _).
  destruct (extend_heap_zero_overwrites_footer heap_free_alloc bs fl HS)
    as (s' & H1 & _ & H2 & _).
  exists s'. auto.
Defined.

(** X22.  On a heap that satisfies the invariant [malloc] returns [NULL]
    for the request of 0 bytes, leaving the heap as it is, and for no
    other request up to [2^32 - 16] bytes: a request it cannot serve
    comes back as [(void * )-1], so that the test for [NULL] in
    [realloc] never fires. *)
Theorem malloc_null_only_for_zero s size p s' :
  heap_ok s -> 0 <= size <= 2 ^ 32 - 16 ->
  malloc size s = Ok p s' ->
  (p = NULL <-> size = 0) /\ (size = 0 -> s' = s).
Proof.
  intros Hok Hsize HM.
  destruct (Z.eq_dec size 0) as [->|Hne].
  - unfold malloc in HM. change (0 =? 0) with true in HM.
    injection HM as <- <-. repeat split; auto.
  - split; [|intros; lia]. split; [|intros; lia]. intros ->. exfalso.
    destruct Hok as (bs & fl & HW & NA).
    destruct (malloc_spec s bs fl size HW NA ltac:(lia))
      as (p0 & s0 & bs' & fl' & HM0 & _ & W & _ & _ & R).
    rewrite HM in HM0. injection HM0 as <- <-.
    destruct R as [[R _]|(b & Hb & _ & Hp & _)]; [discriminate R|].
    destruct W as [HS' _].
    pose proof (shape_block _ _ _ _ HS' Hb) as (B1 & _).
    pose proof (sh_lo _ _ _ HS'). unfold NULL in Hp. lia.
Qed.

Lemma malloc_null_only_for_zero_witness :
  exists p s', malloc 0 init_heap = Ok p s' /\ p = NULL.
Proof.
  destruct (malloc 0 init_heap) as [p s'| |] eqn:E.
  - destruct (malloc_null_only_for_zero init_heap 0 p s' init_heap_ok
                ltac:(lia) E) as [[_ H] _].
    exists p, s'. split; [reflexivity|]. apply H. reflexivity.
  - discriminate E.
  - discriminate E.
Defined.

(** X23.  When the allocation inside [realloc] or [calloc] fails, the
    pointer they work with is [(void * )-1]: [realloc] of an allocated
    block to a non-zero size copies to that address and [calloc] fills
    from it, both outside the heap. *)
Theorem failed_allocation_crashes_realloc_and_calloc s :
  heap_ok s ->
  (forall p sz size s1,
     allocated s p sz -> 0 < size <= 2 ^ 32 - 16 ->
     malloc size s = Ok SBRK_FAIL s1 -> realloc p size s = Crash) /\
  (forall nmemb size s1,
     0 < u64 (nmemb * size) <= 2 ^ 32 - 16 ->
     malloc (u64 (nmemb * size)) s = Ok SBRK_FAIL s1 ->
     calloc nmemb size s = Crash).
Proof.
  intros Hok. pose proof Hok as (bs & fl & HW & NA). split.
  - intros p sz size s1 Hal Hsize HM.
    pose proof (allocated_nonnull _ _ _ Hok Hal) as Hp.
    pose proof (allocated_block _ _ _ _ _ HW Hal) as Hb.
    destruct (malloc_spec s bs fl size HW NA Hsize)
      as (p0 & s0 & bs' & fl' & HM0 & _ & W & _ & SV & _).
    rewrite HM in HM0. injection HM0 as <- <-.
    destruct W as [HS' _]. destruct (SV _ Hb eq_refl) as [Hb' _].
    pose proof (shape_GET_SIZE _ _ _ _ HS' Hb') as GS. cbn [b_addr b_size] in GS.
    pose proof (shape_block _ _ _ _ HS' Hb') as (_ & _ & B3 & _).
    cbn [b_size] in B3.
    pose proof (sh_max _ _ _ HS'). pose proof (sh_ptr _ _ _ HS').
    unfold realloc. destruct (Z.eqb_spec p NULL) as [?|_]; [contradiction|].
    destruct (Z.eqb_spec size 0) as [?|_]; [lia|].
    step HM. change (SBRK_FAIL =? NULL) with false. cbv iota.
    assert (HCS : realloc_copy_size p size s1
                  = Ok (if size <? sz then u32 size else sz) s1).
    { unfold realloc_copy_size, WSIZE. step GS. reflexivity. }
    step HCS. apply bind_crash. apply memcpy_fail.
    + destruct (Z.ltb_spec size sz); [rewrite u32_small by lia|]; lia.
    + unfold SBRK_FAIL. lia.
    + unfold SBRK_FAIL. lia.
  - intros nmemb size s1 Hn HM.
    destruct (malloc_spec s bs fl _ HW NA Hn)
      as (p0 & s0 & bs' & fl' & HM0 & _ & W & _).
    rewrite HM in HM0. injection HM0 as <- <-. destruct W as [HS' _].
    pose proof (sh_max _ _ _ HS'). pose proof (sh_ptr _ _ _ HS').
    unfold calloc. cbv zeta. step HM. apply bind_crash. apply memset_fail.
    + lia.
    + unfold SBRK_FAIL. lia.
    + unfold SBRK_FAIL. lia.
Qed.

Lemma failed_allocation_crashes_realloc_and_calloc_witness :
  calloc 3 8 (state_after mm_init full_heap) = Crash.
Proof.
  assert (Hf : fresh full_heap).
  { unfold fresh, full_heap; cbn. repeat split; try lia; reflexivity. }
  assert (Hok : heap_ok (state_after mm_init full_heap)).
  { destruct (mm_init_spec full_heap Hf) as (s0 & E & _ & _ & _ & _ & W).
    rewrite (state_after_ok _ _ _ _ E).
    exists [], (fun _ => []). split; [exact W|exact I]. }
  destruct (failed_allocation_crashes_realloc_and_calloc _ Hok) as [_ H].
  assert (Hq : returns (malloc (u64 (3 * 8)) (state_after mm_init full_heap))
                 (fun q _ => q = SBRK_FAIL)) by (vm_compute; reflexivity).
  destruct (malloc (u64 (3 * 8)) (state_after mm_init full_heap))
    as [q s1| |] eqn:E; try contradiction.
  cbn [returns] in Hq. subst q.
  apply (H 3 8 s1); [|exact E].
  vm_compute. split; [reflexivity|discriminate].
Defined.

(** X24.  The rounding inside [malloc] agrees with the macro [ALIGN]:
    for every request up to [2^64 - 16] bytes the required size is
    [ALIGN(size + 8)], the least multiple of 8 that is at least
    [size + 8]. *)
Theorem required_size_is_ALIGN size :
  0 <= size <= 2 ^ 64 - 16 ->
  required_size size = ALIGN (size + 8) /\
  required_size size mod 8 = 0 /\
  size + 8 <= required_size size /\
  (forall m, m mod 8 = 0 -> size + 8 <= m -> required_size size <= m).
Proof.
  intros Hs.
  assert (E : required_size size = 8 * ((size + 15) / 8)).
  { unfold required_size. cbv zeta. rewrite (u64_small (size + 8)) by lia.
    pose proof (Z.div_mod (size + 8) 8 ltac:(lia)).
    pose proof (Z.mod_pos_bound (size + 8) 8 ltac:(lia)).
    pose proof (Z.div_mod (size + 15) 8 ltac:(lia)).
    pose proof (Z.mod_pos_bound (size + 15) 8 ltac:(lia)).
    destruct (Z.eqb_spec ((size + 8) mod 8) 0).
    - lia.
    - rewrite u64_small by lia. lia. }
  pose proof (Z.div_mod (size + 15) 8 ltac:(lia)).
  pose proof (Z.mod_pos_bound (size + 15) 8 ltac:(lia)).
  split; [|split; [|split]].
  - rewrite E, ALIGN_spec by lia. f_equal. f_equal. lia.
  - rewrite E, Z.mul_comm. apply Z_mod_mult.
  - lia.
  - intros m Hm Hle. pose proof (Z.div_mod m 8 ltac:(lia)). lia.
Qed.

Lemma required_size_is_ALIGN_witness :
  required_size 24 = ALIGN (24 + 8) /\ required_size 25 = ALIGN (25 + 8).
Proof.
  split.
  - apply (required_size_is_ALIGN 24). lia.
  - apply (required_size_is_ALIGN 25). lia.
Defined.

(** *** What [mm_checkheap] can report *)







